(** * Lip-sync keyframe scheduling: the pose-assets and sprite-sheet animators

    A shallow embedding of the scheduling code of
    [Core/Animator/LIPSYNC2D_PoseAssetsAnimator.py],
    [Core/Animator/LIPSYNC_SpriteSheetAnimator.py] and of the word loop of
    [Operators/LIPSYNC2D_OT_AnalyzeAudio.py].

    Conventions of the embedding:
    - Python [int] is [Z]; a finite Python [float] is the rational [Q] it
      denotes, and the products of a slot index and a slot duration are
      rounded to a double ([float_round]) as the interpreter does; the halves
      of frame counts and their differences, which doubles hold exactly, are
      plain rational operations;
    - an animator object is a record, and each method is a function from the
      record to the updated record (the sprite-sheet methods, which index
      [props[...]] and may raise [KeyError], live in a state-and-exception
      monad);
    - the keyframes an animator writes are kept, in the order of the calls
      that write them, in a field of the record. *)

From Stdlib Require Import ZArith QArith Qround Qabs Lia Lqa Ascii String.
From stdpp Require Import gmap strings list.

Local Open Scope Z_scope.

(** ** Python numerics *)

(** [round(x)] of a float: to the nearest integer, halves to the even one. *)
Definition py_round (x : Q) : Z :=
  let f := Qfloor x in
  match (x - inject_Z f ?= 1 # 2)%Q with
  | Lt => f
  | Gt => f + 1
  | Eq => if Z.even f then f else f + 1
  end.

(** [int(x)]: truncation toward zero. *)
Definition py_int (x : Q) : Z :=
  if Qle_bool 0 x then Qfloor x else Qceiling x.

(** [max(a, b)] on floats: [b] when it is strictly greater, else [a]. *)
Definition py_max (a b : Q) : Q :=
  match (a ?= b)%Q with Lt => b | _ => a end.

(** *** Doubles

    A finite double is modelled by the rational it denotes.  [float_round]
    rounds a rational to the nearest double, ties to the even significand
    (53 bits, subnormals from exponent -1074 on).  Beyond the largest double
    the interpreter produces [inf], on which [round] raises [OverflowError]:
    the model is meant for magnitudes below [2^1024] only. *)

(** [2^e], for an exponent of either sign. *)
Definition pow2 (e : Z) : Q :=
  if 0 <=? e then inject_Z (2 ^ e) else (/ inject_Z (2 ^ (- e)))%Q.

(** The binary exponent of a non-zero [x]: [2^e <= |x| < 2^(e+1)]. *)
Definition float_exponent (x : Q) : Z :=
  let a := Qabs x in
  if Qle_bool 1 a then Z.log2 (Qfloor a)
  else - Z.log2_up (Qceiling (/ a)).

(** The double nearest to [x]. *)
Definition float_round (x : Q) : Q :=
  if Qeq_bool x 0 then 0%Q
  else
    let e := Z.max (float_exponent x - 52) (-1074) in
    (inject_Z (py_round (x / pow2 e)) * pow2 e)%Q.

(** [float(i)], the conversion [int * float] and [float * int] apply to the
    integer operand. *)
Definition float_of_int (i : Z) : Q := float_round (inject_Z i).

(** [x * y] on floats. *)
Definition float_mul (x y : Q) : Q := float_round (x * y).

(** [x / y] on floats, for [y] other than zero. *)
Definition float_div (x y : Q) : Q := float_round (x / y).

(** [str.lower()] on the ASCII range. *)
Definition lower_ascii (c : ascii) : ascii :=
  let n := nat_of_ascii c in
  if (Nat.leb 65 n && Nat.leb n 90)%bool then ascii_of_nat (n + 32) else c.

Fixpoint lower (s : string) : string :=
  match s with
  | EmptyString => EmptyString
  | String c r => String (lower_ascii c) (lower r)
  end.

(** ** Data handed over by the dialog inspector *)

(** [VisemeData]: a dict with keys ["visemes"], ["visemes_len"] and
    ["visemes_parts"] (a float). *)
Record VisemeData := {
  visemes : list string;
  visemes_len : Z;
  visemes_parts : Q
}.

(** [WordTiming]: frame span of a word. *)
Record WordTiming := {
  word_frame_start : Z;
  word_frame_end : Z
}.

(** [get_corrected_end_frame] (static method, pose-assets animator). *)
Definition get_corrected_end_frame (word_start_frame : Z) (visemes_data : VisemeData) : Z :=
  word_start_frame
  + py_round (float_mul (visemes_parts visemes_data)
                (float_of_int (visemes_len visemes_data - 1))).

(** Frame of slot [viseme_index] in [_insert_on_visemes]. *)
Definition viseme_frame_start_of (word_timing : WordTiming) (visemes_data : VisemeData)
    (viseme_index : Z) : Z :=
  word_frame_start word_timing
  + py_round (float_mul (float_of_int viseme_index) (visemes_parts visemes_data)).

(** Modelled from the spec: [LIPSYNC2D_ShapeKeysAnimator.get_corrected_end_frame],
    the static method both [insert_silences] and the operator call; the file
    of the shape-keys animator is absent, and the spec (4.2, step 4) gives the
    function as [word_start + round(visemes_parts * (visemes_len - 1))], the
    formula of the pose-assets static method above. *)
Definition ShapeKeys_get_corrected_end_frame (word_start_frame : Z)
    (visemes_data : VisemeData) : Z :=
  get_corrected_end_frame word_start_frame visemes_data.

(** [enumerate(l)]. *)
Fixpoint enumerate_from {A} (i : Z) (l : list A) : list (Z * A) :=
  match l with
  | [] => []
  | x :: r => (i, x) :: enumerate_from (i + 1) r
  end.

Definition enumerate {A} (l : list A) : list (Z * A) := enumerate_from 0 l.

(** ** Properties of the object and tables of the add-on *)

(** A pose-asset action datablock, identified by its name. *)
Abbreviation Action := string (only parsing).

(** [obj.lipsync2d_props]: the fields of [LIPSYNC2D_PG_CustomProperties] the
    animators read.  [lip_sync_2d_viseme_pose] holds the pointer properties
    [lip_sync_2d_viseme_pose_{v}] (an unset pointer reads [None]) and
    [lip_sync_2d_viseme] the ID properties [props["lip_sync_2d_viseme_{v}"]]
    (indexing a key that was never set raises [KeyError]). *)
Record Props := {
  lip_sync_2d_viseme_pose : gmap string Action;
  lip_sync_2d_viseme : gmap string Z;
  lip_sync_2d_sprite_sheet_index : Z;
  lip_sync_2d_prioritize_accuracy : bool;
  lip_sync_2d_in_between_threshold : Q;
  lip_sync_2d_sil_threshold : Q;
  lip_sync_2d_sps_in_between_threshold : Q;
  lip_sync_2d_sps_sil_threshold : Q;
  lip_sync_2d_close_motion_duration : Q;
  lip_sync_2d_rig_type_basic : bool;
  lip_sync_2d_use_clear_keyframes : bool
}.

(** What the animators import from modules that are not part of the sources
    ([phoneme_to_viseme], [Timeline], Blender's data), taken as parameters. *)
Record Env := {
  (** [get_viseme_priority(v)] *)
  get_viseme_priority : string -> Z;
  (** [UNSKIPPABLE_VISEMES] *)
  UNSKIPPABLE_VISEMES : gset string;
  (** enum ids of [viseme_items_mpeg4_v2(None, None)] *)
  viseme_items_mpeg4_v2 : list string;
  (** [LIPSYNC2D_TimeConversion(scene.render).time_to_frame] *)
  time_to_frame : Q -> Z;
  (** [LIPSYNC2D_Timeline.get_frame_start()] *)
  get_frame_start : Z;
  (** [isinstance(obj.data, bpy.types.Armature)] *)
  obj_is_armature : bool;
  (** number of F-curves of the target channelbag for which a pose action
      holds a keyed F-curve: the keyframes one call of
      [insert_keyframe_points] writes *)
  pose_fcurves : Action -> Z
}.

(** Modelled from the spec: [LIPSYNC2D_TimeConversion.time_to_frame], whose
    file is absent; the spec (4.1) gives it as rounding [seconds] to the
    nearest integer frame at the run's frame rate, total, negative values
    accepted. *)
Definition spec_time_to_frame (frames_per_second : Q) (seconds : Q) : Z :=
  py_round (seconds * frames_per_second).

(** Python exceptions the modelled code can raise. *)
Inductive Exn := KeyError (key : string).

(** The three skip checks of a viseme slot, for the record of the order in
    which a scheduler evaluates them. *)
Inductive check := PriorityConflict | Redundancy | MinimumSpacing.

Global Instance check_eq_dec : EqDecision check.
Proof. solve_decision. Defined.

(** A boolean together with the checks evaluated to obtain it, in order. *)
Definition traced : Type := bool * list check.

Definition evaluated (c : check) (b : bool) : traced := (b, [c]).

(** [x or y], and [if x: return True] followed by [y]: [y] is evaluated only
    when [x] is false. *)
Definition or_else (x : traced) (y : traced) : traced :=
  if x.1 then x else (y.1, x.2 ++ y.2).

(** Truth value of what a Python function returns, [None] standing for a
    function that ends without [return]. *)
Definition py_bool (r : option bool) : bool := default false r.

(** ** The F-curves of the armature action *)

Module PoseFCurves.

Inductive Error :=
  | AttributeError (name : string)
  | IndexError.

(** What [setup_fcurves] reads of a pose asset action: [Malformed] when it
    has no layer, no strip, a first strip that is no keyframe strip, or no
    slot; otherwise what [pose_strip.channelbag(action.slots[0])] gives,
    [None] or a channelbag whose F-curves are listed by [data_path] and
    [array_index]. *)
Inductive PoseAction :=
  | Malformed
  | NoChannelbag
  | Channels (fcurves : list (string * Z)).

(** The channelbag of the armature action: its F-curves by [data_path] and
    [array_index], each with the name of its group if it has one, and the
    names of its groups.  [fcurves.find] is a lookup, [fcurves.new] adds a
    curve without group, [fcurves.clear()] removes all curves. *)
Record Channelbag := {
  fcurves : gmap (string * Z) (option string);
  groups : gset string
}.

(** [sub in s] *)
Fixpoint py_in (sub s : string) : bool :=
  String.prefix sub s
  || match s with
     | EmptyString => false
     | String _ s' => py_in sub s'
     end.

(** [s.split(sep)] for a separator of one character. *)
Fixpoint py_split (sep : ascii) (s : string) : list string :=
  match s with
  | EmptyString => [EmptyString]
  | String c s' =>
      if bool_decide (c = sep) then EmptyString :: py_split sep s'
      else
        match py_split sep s' with
        | [] => [String c EmptyString]
        | part :: parts => String c part :: parts
        end
  end.

(** A Python dict as the list of its items in insertion order;
    [dict_set k v d] is [d[k] = v]. *)
Fixpoint dict_set {V : Type} (k : string) (v : V) (d : list (string * V))
    : list (string * V) :=
  match d with
  | [] => [(k, v)]
  | (k', v') :: d => if bool_decide (k' = k) then (k, v) :: d else (k', v') :: dict_set k v d
  end.

Definition property_names : list string :=
  ["location"; "rotation_euler"; "rotation_quaternion"; "scale"]%string.

(** The second operand of the test that passes over an F-curve on a basic
    rig. *)
Definition not_basic (data_path : string) : bool :=
  let property_name := List.last (py_split "."%char data_path) EmptyString in
  py_in "bbone" data_path || negb (bool_decide (property_name ∈ property_names)).

Section WithEnv.
Variable env : Env.

(** [self.pose_assets_actions.values()]: the values of the dict that
    [get_available_actions] builds, in the order of the dict. *)
Definition pose_assets_actions_values (props : Props) : list Action :=
  snd <$> foldl (fun d kv => dict_set kv.1 kv.2 d) []
            (omap (fun enum_id =>
                     match lip_sync_2d_viseme_pose props !! enum_id with
                     | Some key => Some (enum_id, key)
                     | None => None
                     end)
                  (viseme_items_mpeg4_v2 env)).

(** The structure of the pose asset actions. *)
Variable pose_action : Action -> PoseAction.

(** The body of the loop over the F-curves of a pose asset, on the channelbag
    and [bone_groups_cache]; the exception raised, if any, comes with the
    state it leaves. *)
Definition copy_fcurve (is_basic_rig : bool) (fcurve : string * Z)
    (st : Channelbag * gset string) : option Error * (Channelbag * gset string) :=
  let channelbag := st.1 in
  let bone_groups_cache := st.2 in
  if bool_decide (is_Some (fcurves channelbag !! fcurve)) then (None, st)
  else if is_basic_rig && not_basic fcurve.1 then (None, st)
  else
    let channelbag :=
      {| fcurves := <[fcurve := None]> (fcurves channelbag);
         groups := groups channelbag |} in
    if py_in "pose.bones[" fcurve.1 then
      match py_split "034"%char fcurve.1 !! 1%nat with
      | None => (Some IndexError, (channelbag, bone_groups_cache))
      | Some bone_name =>
          let st :=
            if bool_decide (bone_name ∈ bone_groups_cache)
            then (channelbag, bone_groups_cache)
            else ({| fcurves := fcurves channelbag;
                     groups := {[ bone_name ]} ∪ groups channelbag |},
                  {[ bone_name ]} ∪ bone_groups_cache) in
          (None,
           ({| fcurves := <[fcurve := Some bone_name]> (fcurves st.1);
               groups := groups st.1 |}, st.2))
      end
    else (None, (channelbag, bone_groups_cache)).

Fixpoint copy_fcurves (is_basic_rig : bool) (pose_fcurves : list (string * Z))
    (st : Channelbag * gset string) : option Error * (Channelbag * gset string) :=
  match pose_fcurves with
  | [] => (None, st)
  | fcurve :: pose_fcurves =>
      match copy_fcurve is_basic_rig fcurve st with
      | (Some e, st) => (Some e, st)
      | (None, st) => copy_fcurves is_basic_rig pose_fcurves st
      end
  end.

(** The loop over the pose asset actions, with [seen_actions]. *)
Fixpoint copy_actions (is_basic_rig : bool) (actions : list Action)
    (seen_actions : gset Action) (st : Channelbag * gset string)
    : option Error * (Channelbag * gset string) :=
  match actions with
  | [] => (None, st)
  | action :: actions =>
      if bool_decide (action ∈ seen_actions)
      then copy_actions is_basic_rig actions seen_actions st
      else
        let seen_actions := {[ action ]} ∪ seen_actions in
        match pose_action action with
        | Malformed => copy_actions is_basic_rig actions seen_actions st
        | NoChannelbag => (Some (AttributeError "fcurves"), st)
        | Channels pose_fcurves =>
            match copy_fcurves is_basic_rig pose_fcurves st with
            | (Some e, st) => (Some e, st)
            | (None, st) => copy_actions is_basic_rig actions seen_actions st
            end
        end
  end.

(** [setup_fcurves] on the channelbag of the armature action;
    [is_basic_rig] and [use_clear_keyframes] are the properties
    [lip_sync_2d_rig_type_basic] and [lip_sync_2d_use_clear_keyframes]. *)
Definition setup_fcurves (props : Props) (is_basic_rig use_clear_keyframes : bool)
    (channelbag : Channelbag) : option Error * Channelbag :=
  if negb (obj_is_armature env) then (None, channelbag)
  else
    let channelbag :=
      if use_clear_keyframes
      then {| fcurves := ∅; groups := groups channelbag |}
      else channelbag in
    let run := copy_actions is_basic_rig (pose_assets_actions_values props) ∅
                 (channelbag, ∅) in
    (run.1, run.2.1).

End WithEnv.

End PoseFCurves.

(** ** The pose-assets animator *)

Module PoseAssets.

(** One call [insert_keyframe_points(pose_action, frame)]. *)
Record Keyframe := {
  kf_action : Action;
  kf_frame : Z
}.

Global Instance Keyframe_eq_dec : EqDecision Keyframe.
Proof. solve_decision. Defined.

(** The instance attributes of [LIPSYNC2D_PoseAssetsAnimator]; [keyframes]
    stands for the target channelbag: the calls of [insert_keyframe_points]
    so far, oldest first. *)
Record Animator := {
  pose_assets_actions : gmap string Action;
  silence_frame_threshold : Z;
  in_between_frame_threshold : Z;
  previous_start : Z;
  previous_viseme : option string;
  inserted_keyframes : Z;
  word_end_frame : Z;
  word_start_frame : Z;
  delay_until_next_word : Z;
  is_last_word : bool;
  is_first_word : bool;
  is_last_viseme : bool;
  close_motion_duration : Z;
  props : Props;
  keyframes : list Keyframe
}.

(** The lip-sync action of the armature as [set_up_action] finds it in
    [bpy.data.actions]: absent, without layer, with a first layer that has no
    strip, or with the channelbag its first strip holds for the slot of the
    pose assets (an empty one when [ensure=True] has to create it). *)
Inductive ArmatureAction :=
  | NoAction
  | NoLayers
  | NoStrips
  | Strip (channelbag : PoseFCurves.Channelbag).

(** What [setup] and [insert_keyframe_points] read in [bpy.data]. *)
Record Data := {
  armature_action : ArmatureAction;
  (** the structure of the pose asset actions *)
  pose_asset : Action -> PoseFCurves.PoseAction;
  (** [insert_keyframe_points] finds F-curves to copy from in the pose
      action: its [pose_fcurves] is not [None] *)
  has_pose_fcurves : Action -> bool
}.

(** How [setup] ends: with an exception, with the attributes
    [pose_assets_actions] and [channelbag] assigned, or having returned
    before [setup_fcurves], which leaves both unassigned. *)
Inductive SetupResult :=
  | Raised (e : PoseFCurves.Error) (a : Animator)
  | Ready (a : Animator) (channelbag : PoseFCurves.Channelbag)
  | Unassigned (a : Animator).

(** The attributes [setup] leaves. *)
Definition animator_of (r : SetupResult) : Animator :=
  match r with
  | Raised _ a | Ready a _ | Unassigned a => a
  end.

(** What [_insert_on_visemes] yields. *)
Record VisemeActionAnimationData := {
  frame : Z;
  viseme : string;
  action : option Action;
  action_name : option Action;
  viseme_index : Z
}.

Section WithEnv.
Context (env : Env).

(** [__init__]; [self.props], [self.pose_assets_actions] and
    [self.channelbag] are only declared there and get their values in
    [setup]: see [SetupResult] for a [setup] that leaves the last two
    unassigned. *)
Definition init (obj_props : Props) : Animator :=
  {| pose_assets_actions := ∅;
     silence_frame_threshold := -1;
     in_between_frame_threshold := -1;
     previous_start := -1;
     previous_viseme := None;
     inserted_keyframes := 0;
     word_end_frame := -1;
     word_start_frame := -1;
     delay_until_next_word := -1;
     is_last_word := false;
     is_first_word := false;
     is_last_viseme := false;
     close_motion_duration := -1;
     props := obj_props;
     keyframes := [] |}.

(** [setup_properties]; the operator has checked that the scene exists, so
    [time_conversion] is set. *)
Definition setup_properties (obj_props : Props) (a : Animator) : Animator :=
  {| pose_assets_actions := pose_assets_actions a;
     silence_frame_threshold :=
       time_to_frame env (lip_sync_2d_sil_threshold obj_props);
     in_between_frame_threshold :=
       time_to_frame env (lip_sync_2d_in_between_threshold obj_props);
     previous_start := -1;
     previous_viseme := None;
     inserted_keyframes := 0;
     word_end_frame := word_end_frame a;
     word_start_frame := word_start_frame a;
     delay_until_next_word := delay_until_next_word a;
     is_last_word := is_last_word a;
     is_first_word := is_first_word a;
     is_last_viseme := is_last_viseme a;
     close_motion_duration :=
       time_to_frame env (lip_sync_2d_close_motion_duration obj_props);
     props := obj_props;
     keyframes := keyframes a |}.

(** [get_available_actions]: the dict comprehension over the viseme ids. *)
Definition get_available_actions (a : Animator) : gmap string Action :=
  list_to_map
    (omap (fun enum_id =>
             match lip_sync_2d_viseme_pose (props a) !! enum_id with
             | Some key => Some (enum_id, key)
             | None => None
             end)
          (viseme_items_mpeg4_v2 env)).

(** The assignment [self.pose_assets_actions = ...]. *)
Definition set_pose_assets_actions (actions : gmap string Action) (a : Animator)
    : Animator :=
  {| pose_assets_actions := actions;
     silence_frame_threshold := silence_frame_threshold a;
     in_between_frame_threshold := in_between_frame_threshold a;
     previous_start := previous_start a;
     previous_viseme := previous_viseme a;
     inserted_keyframes := inserted_keyframes a;
     word_end_frame := word_end_frame a;
     word_start_frame := word_start_frame a;
     delay_until_next_word := delay_until_next_word a;
     is_last_word := is_last_word a;
     is_first_word := is_first_word a;
     is_last_viseme := is_last_viseme a;
     close_motion_duration := close_motion_duration a;
     props := props a;
     keyframes := keyframes a |}.

(** [set_up_action], as far as [setup_animation_properties] uses it: the
    channelbag of the strip it returns for the slot of the pose assets,
    [None] standing for [(None, None)]; on an action that exists
    [action.layers[0]] and [layer.strips[0]] raise [IndexError] when there is
    no layer or no strip.  [self.armature] is the object [setup_properties]
    stored, and [animation_data_create()] gives it its animation data. *)
Definition set_up_action (data : Data)
    : PoseFCurves.Error + option PoseFCurves.Channelbag :=
  if negb (obj_is_armature env) then inr None
  else
    match armature_action data with
    | NoAction =>
        inr (Some {| PoseFCurves.fcurves := ∅; PoseFCurves.groups := ∅ |})
    | NoLayers | NoStrips => inl PoseFCurves.IndexError
    | Strip channelbag => inr (Some channelbag)
    end.

(** [setup_animation_properties]: [setup_fcurves] assigns
    [pose_assets_actions] and [channelbag] before its loop. *)
Definition setup_animation_properties (data : Data) (a : Animator) : SetupResult :=
  match set_up_action data with
  | inl e => Raised e a
  | inr None => Unassigned a
  | inr (Some channelbag) =>
      let run :=
        PoseFCurves.setup_fcurves env (pose_asset data) (props a)
          (lip_sync_2d_rig_type_basic (props a))
          (lip_sync_2d_use_clear_keyframes (props a)) channelbag in
      let a := set_pose_assets_actions (get_available_actions a) a in
      match run.1 with
      | Some e => Raised e a
      | None => Ready a run.2
      end
  end.

(** [setup] *)
Definition setup (data : Data) (obj_props : Props) (a : Animator) : SetupResult :=
  setup_animation_properties data (setup_properties obj_props a).

(** [insert_keyframe_points]: one call recorded, the counter advanced by the
    keyframes written. *)
Definition insert_keyframe_points (pose_action : Action) (frame : Z)
    (a : Animator) : Animator :=
  {| pose_assets_actions := pose_assets_actions a;
     silence_frame_threshold := silence_frame_threshold a;
     in_between_frame_threshold := in_between_frame_threshold a;
     previous_start := previous_start a;
     previous_viseme := previous_viseme a;
     inserted_keyframes := inserted_keyframes a + pose_fcurves env pose_action;
     word_end_frame := word_end_frame a;
     word_start_frame := word_start_frame a;
     delay_until_next_word := delay_until_next_word a;
     is_last_word := is_last_word a;
     is_first_word := is_first_word a;
     is_last_viseme := is_last_viseme a;
     close_motion_duration := close_motion_duration a;
     props := props a;
     keyframes := keyframes a ++ [{| kf_action := pose_action; kf_frame := frame |}] |}.

(** The first assignments of [insert_keyframes]. *)
Definition set_word (word_timing : WordTiming) (delay : Z) (last : bool)
    (word_index : Z) (a : Animator) : Animator :=
  {| pose_assets_actions := pose_assets_actions a;
     silence_frame_threshold := silence_frame_threshold a;
     in_between_frame_threshold := in_between_frame_threshold a;
     previous_start := previous_start a;
     previous_viseme := previous_viseme a;
     inserted_keyframes := inserted_keyframes a;
     word_end_frame := word_frame_end word_timing;
     word_start_frame := word_frame_start word_timing;
     delay_until_next_word := Z.max 0 delay;
     is_last_word := last;
     is_first_word := bool_decide (word_index = 0);
     is_last_viseme := is_last_viseme a;
     close_motion_duration := close_motion_duration a;
     props := props a;
     keyframes := keyframes a |}.

(** [self.is_last_viseme = ...] *)
Definition set_is_last_viseme (b : bool) (a : Animator) : Animator :=
  {| pose_assets_actions := pose_assets_actions a;
     silence_frame_threshold := silence_frame_threshold a;
     in_between_frame_threshold := in_between_frame_threshold a;
     previous_start := previous_start a;
     previous_viseme := previous_viseme a;
     inserted_keyframes := inserted_keyframes a;
     word_end_frame := word_end_frame a;
     word_start_frame := word_start_frame a;
     delay_until_next_word := delay_until_next_word a;
     is_last_word := is_last_word a;
     is_first_word := is_first_word a;
     is_last_viseme := b;
     close_motion_duration := close_motion_duration a;
     props := props a;
     keyframes := keyframes a |}.

(** [self.previous_start = ...; self.previous_viseme = v] *)
Definition set_previous (start : Z) (v : string) (a : Animator) : Animator :=
  {| pose_assets_actions := pose_assets_actions a;
     silence_frame_threshold := silence_frame_threshold a;
     in_between_frame_threshold := in_between_frame_threshold a;
     previous_start := start;
     previous_viseme := Some v;
     inserted_keyframes := inserted_keyframes a;
     word_end_frame := word_end_frame a;
     word_start_frame := word_start_frame a;
     delay_until_next_word := delay_until_next_word a;
     is_last_word := is_last_word a;
     is_first_word := is_first_word a;
     is_last_viseme := is_last_viseme a;
     close_motion_duration := close_motion_duration a;
     props := props a;
     keyframes := keyframes a |}.

(** [insert_silences]; the frames of the word-end branch are sums of
    integers, on which [int(frame)] is the identity. *)
Definition insert_silences (visemes_data : VisemeData) (a : Animator) : Animator :=
  let add_sil_at_word_end :=
    bool_decide (silence_frame_threshold a < delay_until_next_word a)
    || is_last_word a in
  match lip_sync_2d_viseme_pose (props a) !! "sil"%string with
  | None => a
  | Some action =>
      let a1 :=
        if add_sil_at_word_end then
          let corrected_word_end_frame :=
            ShapeKeys_get_corrected_end_frame (word_start_frame a) visemes_data in
          if negb (is_last_word a) then
            let frame1 :=
              corrected_word_end_frame
              + Z.max 1 (Z.min (delay_until_next_word a - in_between_frame_threshold a)
                               (close_motion_duration a)) in
            let frame2 :=
              corrected_word_end_frame + delay_until_next_word a
              - Z.max 1 (in_between_frame_threshold a) in
            insert_keyframe_points action frame2
              (insert_keyframe_points action frame1 a)
          else
            insert_keyframe_points action
              (corrected_word_end_frame + close_motion_duration a) a
        else a in
      if is_first_word a1 then
        let frame :=
          py_max (inject_Z (get_frame_start env))
                 (inject_Z (word_start_frame a1)
                  - py_max 1 (inject_Z (close_motion_duration a1) / 2))%Q in
        insert_keyframe_points action (py_int frame) a1
      else a1
  end.

Definition has_already_a_kframe (a : Animator) (viseme_frame_start : Z) : bool :=
  bool_decide (viseme_frame_start = previous_start a).

(** [not self.previous_viseme]: [None] and the empty string are false. *)
Definition previous_viseme_known (a : Animator) : bool :=
  match previous_viseme a with
  | Some pv => negb (bool_decide (pv = ""%string))
  | None => false
  end.

Definition should_skip_due_to_priority_conflict (a : Animator)
    (current_viseme : string) (frame : Z) : bool :=
  match previous_viseme a with
  | Some pv =>
      if negb (has_already_a_kframe a frame) || negb (previous_viseme_known a)
      then false
      else
        let prev_priority := get_viseme_priority env pv in
        let current_priority := get_viseme_priority env current_viseme in
        bool_decide (current_priority > prev_priority)
  | None => false
  end.

Definition is_prev_kframe_too_close (a : Animator) (viseme_frame_start : Z) : bool :=
  bool_decide (previous_start a >= 0)
  && bool_decide (viseme_frame_start - previous_start a <= in_between_frame_threshold a).

Definition is_redundant (a : Animator) (props : Props) (v : string) : bool :=
  match previous_viseme a with
  | None => false
  | Some pv =>
      if bool_decide (pv = "sil"%string) then false
      else
        let previous_viseme_prop_name := lip_sync_2d_viseme_pose props !! pv in
        let viseme_prop_name := lip_sync_2d_viseme_pose props !! v in
        bool_decide (previous_viseme_prop_name = viseme_prop_name)
  end.

Definition _should_skip_due_to_timing (props : Props) (v : string) : bool :=
  let force_lips_contact := lip_sync_2d_prioritize_accuracy props in
  let is_unskippable := bool_decide (lower v ∈ UNSKIPPABLE_VISEMES env) in
  if force_lips_contact then negb is_unskippable else true.

Definition should_skip_keyframe (a : Animator) (props : Props) (v : string)
    (viseme_frame_start : Z) : bool :=
  if should_skip_due_to_priority_conflict a v viseme_frame_start then true
  else if is_redundant a props v then true
  else if is_prev_kframe_too_close a viseme_frame_start
       then _should_skip_due_to_timing props v
  else false.

(** [should_skip_keyframe] with the record of the checks it evaluates: each
    [if check(...): return ...] evaluates its check only when the ones before
    it returned false. *)
Definition should_skip_keyframe_traced (a : Animator) (props : Props) (v : string)
    (viseme_frame_start : Z) : traced :=
  or_else
    (evaluated PriorityConflict
       (should_skip_due_to_priority_conflict a v viseme_frame_start))
    (or_else
       (evaluated Redundancy (is_redundant a props v))
       (let t := evaluated MinimumSpacing
                   (is_prev_kframe_too_close a viseme_frame_start) in
        if t.1 then (_should_skip_due_to_timing props v, t.2) else (false, t.2))).

(** The body of the loop of [insert_keyframes] over what the generator yields. *)
Definition consume (item : VisemeActionAnimationData) (a : Animator) : Animator :=
  match action item with
  | None => a
  | Some act => insert_keyframe_points act (frame item) a
  end.

(** One iteration of the loop of [_insert_on_visemes]: the generator runs up
    to its [yield], the consumer handles the item, and the generator resumes
    with the two assignments after the [yield]. *)
Definition visit_viseme (props : Props) (visemes_data : VisemeData)
    (word_timing : WordTiming) (viseme_index : Z) (v : string)
    (a : Animator) : Animator :=
  let a := set_is_last_viseme
             (bool_decide (viseme_index + 1 = visemes_len visemes_data)) a in
  let viseme_frame_start :=
    viseme_frame_start_of word_timing visemes_data viseme_index in
  match pose_assets_actions a !! v with
  | None => a
  | Some act =>
      if should_skip_keyframe a props v viseme_frame_start then a
      else
        let item := {| frame := viseme_frame_start;
                       viseme := v;
                       action := Some act;
                       viseme_index := viseme_index;
                       action_name := lip_sync_2d_viseme_pose props !! v |} in
        set_previous viseme_frame_start v (consume item a)
  end.

Fixpoint visit_visemes (props : Props) (visemes_data : VisemeData)
    (word_timing : WordTiming) (l : list (Z * string)) (a : Animator) : Animator :=
  match l with
  | [] => a
  | (viseme_index, v) :: rest =>
      visit_visemes props visemes_data word_timing rest
        (visit_viseme props visemes_data word_timing viseme_index v a)
  end.

(** [_insert_on_visemes], driven by the loop of [insert_keyframes]: when the
    object is no armature the generator first yields an item without action
    (and goes on with the visemes all the same). *)
Definition _insert_on_visemes (props : Props) (visemes_data : VisemeData)
    (word_timing : WordTiming) (a : Animator) : Animator :=
  let a :=
    if negb (obj_is_armature env) then
      consume {| frame := -1; viseme := ""; action := None;
                 action_name := None; viseme_index := -1 |} a
    else a in
  visit_visemes props visemes_data word_timing
    (enumerate (visemes visemes_data)) a.

(** [insert_keyframes] *)
Definition insert_keyframes (props : Props) (visemes_data : VisemeData)
    (word_timing : WordTiming) (delay_until_next_word : Z) (is_last_word : bool)
    (word_index : Z) (a : Animator) : Animator :=
  let a := set_word word_timing delay_until_next_word is_last_word word_index a in
  let a := insert_silences visemes_data a in
  _insert_on_visemes props visemes_data word_timing a.

(** [insert_keyframes] on an animator whose [setup] left [channelbag] and
    [pose_assets_actions] unassigned.  [insert_silences] calls
    [insert_keyframe_points] when the silence pose is set and the word is the
    first one or a silence closes it, and that call reads [self.channelbag]
    unless the pose action has no F-curves to copy from; then the first
    iteration of [_insert_on_visemes] reads [self.pose_assets_actions]. *)
Definition insert_keyframes_unassigned (data : Data) (visemes_data : VisemeData)
    (word_timing : WordTiming) (delay : Z) (last : bool)
    (word_index : Z) (a : Animator) : option PoseFCurves.Error * Animator :=
  let a := set_word word_timing delay last word_index a in
  let add_sil_at_word_end :=
    bool_decide (silence_frame_threshold a < delay_until_next_word a)
    || is_last_word a in
  let silence_reads_channelbag :=
    match lip_sync_2d_viseme_pose (props a) !! "sil"%string with
    | None => false
    | Some action =>
        (add_sil_at_word_end || is_first_word a) && has_pose_fcurves data action
    end in
  if silence_reads_channelbag
  then (Some (PoseFCurves.AttributeError "channelbag"), a)
  else
    match visemes visemes_data with
    | [] => (None, a)
    | _ :: _ =>
        (Some (PoseFCurves.AttributeError "pose_assets_actions"),
         set_is_last_viseme (bool_decide (0 + 1 = visemes_len visemes_data)) a)
    end.

End WithEnv.
End PoseAssets.
(** ** The sprite-sheet animator *)

Module SpriteSheet.

(** One call [fcurve.keyframe_points.insert(frame, value=value)], on the
    F-curve at position [kf_fcurve] of the channelbag. *)
Record Keyframe := {
  kf_fcurve : nat;
  kf_frame : Z;
  kf_value : Z
}.

Global Instance Keyframe_eq_dec : EqDecision Keyframe.
Proof. solve_decision. Defined.

(** The instance attributes of [LIPSYNC_SpriteSheetAnimator] once [setup] has
    assigned [self.channelbag], which it does on a mesh; [fcurves] is the
    number of F-curves of [self.channelbag] and [keyframes] the insertions
    made on them so far, oldest first. *)
Record Animator := {
  inserted_keyframes : Z;
  silence_frame_threshold : Z;
  in_between_frame_threshold : Z;
  previous_start : Z;
  previous_viseme : option string;
  word_end_frame : Z;
  word_start_frame : Z;
  delay_until_next_word : Z;
  is_last_word : bool;
  is_first_word : bool;
  is_last_viseme : bool;
  fcurves : nat;
  keyframes : list Keyframe
}.

(** What [_insert_on_visemes] yields. *)
Record ShapeKeyAnimationData := {
  frame : Z;
  viseme : string;
  viseme_index : Z;
  value : Z;
  shape_key : Z
}.

(** *** State and exceptions

    A method either returns or raises; in both cases the attributes and the
    keyframes written so far remain. *)
Definition M (A : Type) : Type := Animator -> (Exn + A) * Animator.

Definition ret {A} (x : A) : M A := fun a => (inr x, a).

Definition bind {A B} (m : M A) (k : A -> M B) : M B :=
  fun a =>
    match m a with
    | (inr x, a') => k x a'
    | (inl e, a') => (inl e, a')
    end.

Definition raise {A} (e : Exn) : M A := fun a => (inl e, a).

Definition get : M Animator := fun a => (inr a, a).

Definition modify (f : Animator -> Animator) : M unit := fun a => (inr tt, f a).

Global Instance M_ret : MRet M := @ret.
Global Instance M_bind : MBind M := fun A B k m => bind m k.

(** [for x in l: body(x)] *)
Fixpoint for_each {A} (l : list A) (body : A -> M unit) : M unit :=
  match l with
  | [] => ret tt
  | x :: r => body x ;; for_each r body
  end.

(** Attributes after running [m], and the exception it raised, if any. *)
Definition exec {A} (m : M A) (a : Animator) : Animator := (m a).2.

Definition raised {A} (m : M A) (a : Animator) : option Exn :=
  match (m a).1 with inl e => Some e | inr _ => None end.

(** [props[f"lip_sync_2d_viseme_{v}"]] *)
Definition viseme_prop (props : Props) (v : string) : M Z :=
  match lip_sync_2d_viseme props !! v with
  | Some i => ret i
  | None => raise (KeyError ("lip_sync_2d_viseme_" +:+ v))
  end.

Section WithEnv.
Context (env : Env).

(** [__init__], for an object whose channelbag holds [n] F-curves. *)
Definition init (n : nat) : Animator :=
  {| inserted_keyframes := 0;
     silence_frame_threshold := -1;
     in_between_frame_threshold := -1;
     previous_start := -1;
     previous_viseme := None;
     word_end_frame := -1;
     word_start_frame := -1;
     delay_until_next_word := -1;
     is_last_word := false;
     is_first_word := false;
     is_last_viseme := false;
     fcurves := n;
     keyframes := [] |}.

(** [setup_properties] *)
Definition setup_properties (obj_props : Props) (a : Animator) : Animator :=
  {| inserted_keyframes := 0;
     silence_frame_threshold :=
       time_to_frame env (lip_sync_2d_sps_sil_threshold obj_props);
     in_between_frame_threshold :=
       Z.max 1 (time_to_frame env (lip_sync_2d_sps_in_between_threshold obj_props));
     previous_start := -1;
     previous_viseme := None;
     word_end_frame := word_end_frame a;
     word_start_frame := word_start_frame a;
     delay_until_next_word := delay_until_next_word a;
     is_last_word := is_last_word a;
     is_first_word := is_first_word a;
     is_last_viseme := is_last_viseme a;
     fcurves := fcurves a;
     keyframes := keyframes a |}.

(** The first assignments of [insert_keyframes]. *)
Definition set_word (word_timing : WordTiming) (delay : Z) (last : bool)
    (word_index : Z) (a : Animator) : Animator :=
  {| inserted_keyframes := inserted_keyframes a;
     silence_frame_threshold := silence_frame_threshold a;
     in_between_frame_threshold := in_between_frame_threshold a;
     previous_start := previous_start a;
     previous_viseme := previous_viseme a;
     word_end_frame := word_frame_end word_timing;
     word_start_frame := word_frame_start word_timing;
     delay_until_next_word := Z.max 0 delay;
     is_last_word := last;
     is_first_word := bool_decide (word_index = 0);
     is_last_viseme := is_last_viseme a;
     fcurves := fcurves a;
     keyframes := keyframes a |}.

(** [self.is_last_viseme = ...] *)
Definition set_is_last_viseme (b : bool) (a : Animator) : Animator :=
  {| inserted_keyframes := inserted_keyframes a;
     silence_frame_threshold := silence_frame_threshold a;
     in_between_frame_threshold := in_between_frame_threshold a;
     previous_start := previous_start a;
     previous_viseme := previous_viseme a;
     word_end_frame := word_end_frame a;
     word_start_frame := word_start_frame a;
     delay_until_next_word := delay_until_next_word a;
     is_last_word := is_last_word a;
     is_first_word := is_first_word a;
     is_last_viseme := b;
     fcurves := fcurves a;
     keyframes := keyframes a |}.

(** [self.previous_start = ...; self.previous_viseme = v] *)
Definition set_previous (start : Z) (v : string) (a : Animator) : Animator :=
  {| inserted_keyframes := inserted_keyframes a;
     silence_frame_threshold := silence_frame_threshold a;
     in_between_frame_threshold := in_between_frame_threshold a;
     previous_start := start;
     previous_viseme := Some v;
     word_end_frame := word_end_frame a;
     word_start_frame := word_start_frame a;
     delay_until_next_word := delay_until_next_word a;
     is_last_word := is_last_word a;
     is_first_word := is_first_word a;
     is_last_viseme := is_last_viseme a;
     fcurves := fcurves a;
     keyframes := keyframes a |}.

(** [fcurve.keyframe_points.insert(frame, value=value, options={"FAST"})] *)
Definition keyframe_points_insert (fcurve : nat) (frame value : Z)
    (a : Animator) : Animator :=
  {| inserted_keyframes := inserted_keyframes a;
     silence_frame_threshold := silence_frame_threshold a;
     in_between_frame_threshold := in_between_frame_threshold a;
     previous_start := previous_start a;
     previous_viseme := previous_viseme a;
     word_end_frame := word_end_frame a;
     word_start_frame := word_start_frame a;
     delay_until_next_word := delay_until_next_word a;
     is_last_word := is_last_word a;
     is_first_word := is_first_word a;
     is_last_viseme := is_last_viseme a;
     fcurves := fcurves a;
     keyframes := keyframes a
                  ++ [{| kf_fcurve := fcurve; kf_frame := frame; kf_value := value |}] |}.

(** [self.inserted_keyframes += 1] *)
Definition count_keyframe (a : Animator) : Animator :=
  {| inserted_keyframes := inserted_keyframes a + 1;
     silence_frame_threshold := silence_frame_threshold a;
     in_between_frame_threshold := in_between_frame_threshold a;
     previous_start := previous_start a;
     previous_viseme := previous_viseme a;
     word_end_frame := word_end_frame a;
     word_start_frame := word_start_frame a;
     delay_until_next_word := delay_until_next_word a;
     is_last_word := is_last_word a;
     is_first_word := is_first_word a;
     is_last_viseme := is_last_viseme a;
     fcurves := fcurves a;
     keyframes := keyframes a |}.

(** Body of the first loop of [insert_silences]. *)
Definition word_end_silence (props : Props) (visemes_data : VisemeData)
    (fcurve : nat) : M unit :=
  value ← viseme_prop props "sil";
  a ← get;
  let corrected_word_end_frame :=
    ShapeKeys_get_corrected_end_frame (word_start_frame a) visemes_data in
  let frame := corrected_word_end_frame + in_between_frame_threshold a in
  modify (keyframe_points_insert fcurve frame value) ;;
  modify count_keyframe ;;
  if is_last_word a then
    let frame := corrected_word_end_frame + in_between_frame_threshold a in
    modify (keyframe_points_insert fcurve frame value) ;;
    modify count_keyframe
  else ret tt.

(** Body of the second loop of [insert_silences]. *)
Definition first_word_silence (props : Props) (fcurve : nat) : M unit :=
  value ← viseme_prop props "sil";
  a ← get;
  let frame :=
    Z.max (get_frame_start env)
          (word_start_frame a - Z.max 1 (in_between_frame_threshold a)) in
  modify (keyframe_points_insert fcurve frame value).

(** [insert_silences] *)
Definition insert_silences (props : Props) (visemes_data : VisemeData) : M unit :=
  a ← get;
  let add_sil_at_word_end :=
    bool_decide (silence_frame_threshold a < delay_until_next_word a)
    || is_last_word a in
  (if add_sil_at_word_end
   then for_each (seq 0 (fcurves a)) (word_end_silence props visemes_data)
   else ret tt) ;;
  if is_first_word a
  then for_each (seq 0 (fcurves a)) (first_word_silence props)
  else ret tt.

Definition has_already_a_kframe (a : Animator) (viseme_frame_start : Z) : bool :=
  bool_decide (viseme_frame_start = previous_start a).

Definition is_prev_kframe_too_close (a : Animator) (viseme_frame_start : Z) : bool :=
  bool_decide (previous_start a >= 0)
  && bool_decide (viseme_frame_start - previous_start a <= in_between_frame_threshold a).

(** [is_redundant]: returns [False] in its only [return]; otherwise the body
    ends and the call evaluates to [None]. *)
Definition is_redundant (a : Animator) (props : Props) (v : string) : option bool :=
  match previous_viseme a with
  | None => Some false
  | Some pv => if bool_decide (pv = "sil"%string) then Some false else None
  end.

(** The condition of the [if ...: continue] of [_insert_on_visemes]. *)
Definition skip_condition (a : Animator) (props : Props) (v : string)
    (viseme_frame_start : Z) : bool :=
  has_already_a_kframe a viseme_frame_start
  || is_prev_kframe_too_close a viseme_frame_start
  || py_bool (is_redundant a props v).

(** The same condition with the record of the checks it evaluates, in the
    order of the operands of [or]; [has_already_a_kframe] is this backend's
    check of a keyframe on the same frame. *)
Definition skip_condition_traced (a : Animator) (props : Props) (v : string)
    (viseme_frame_start : Z) : traced :=
  or_else
    (evaluated PriorityConflict (has_already_a_kframe a viseme_frame_start))
    (or_else
       (evaluated MinimumSpacing (is_prev_kframe_too_close a viseme_frame_start))
       (evaluated Redundancy (py_bool (is_redundant a props v)))).

(** The body of the loop of [insert_keyframes] over what the generator yields. *)
Definition consume (item : ShapeKeyAnimationData) : M unit :=
  a ← get;
  for_each (seq 0 (fcurves a))
    (fun fcurve =>
       modify (keyframe_points_insert fcurve (frame item) (value item)) ;;
       modify count_keyframe).

(** One iteration of the loop of [_insert_on_visemes], the consumer running
    at the [yield]. *)
Definition visit_viseme (props : Props) (visemes_data : VisemeData)
    (word_timing : WordTiming) (viseme_index : Z) (v : string) : M unit :=
  modify (set_is_last_viseme
            (bool_decide (viseme_index + 1 = visemes_len visemes_data))) ;;
  let viseme_frame_start :=
    viseme_frame_start_of word_timing visemes_data viseme_index in
  sprite_index ← viseme_prop props v;
  a ← get;
  if skip_condition a props v viseme_frame_start then ret tt
  else
    consume {| frame := viseme_frame_start;
               viseme := v;
               viseme_index := viseme_index;
               value := sprite_index;
               shape_key := lip_sync_2d_sprite_sheet_index props |} ;;
    modify (set_previous viseme_frame_start v).

(** [_insert_on_visemes], driven by the loop of [insert_keyframes]. *)
Definition _insert_on_visemes (props : Props) (visemes_data : VisemeData)
    (word_timing : WordTiming) : M unit :=
  for_each (enumerate (visemes visemes_data))
    (fun iv => visit_viseme props visemes_data word_timing iv.1 iv.2).

(** [insert_keyframes] *)
Definition insert_keyframes (props : Props) (visemes_data : VisemeData)
    (word_timing : WordTiming) (delay_until_next_word : Z) (is_last_word : bool)
    (word_index : Z) : M unit :=
  modify (set_word word_timing delay_until_next_word is_last_word word_index) ;;
  insert_silences props visemes_data ;;
  _insert_on_visemes props visemes_data word_timing.

End WithEnv.
End SpriteSheet.

(** ** The operator's loop over the recognized words *)

(** The protocol [LIPSYNC2D_LipSyncAnimator], as far as the loop over the
    words uses it; a call returns the exception it raised, if any, with the
    animator as the call left it. *)
Class LipSyncAnimator (A : Type) := {
  animator_insert_keyframes :
    Env -> Props -> VisemeData -> WordTiming -> Z -> bool -> Z -> A -> option Exn * A
}.

Global Instance PoseAssets_animator : LipSyncAnimator PoseAssets.Animator := {
  animator_insert_keyframes env props vd wt delay last index a :=
    (None, PoseAssets.insert_keyframes env props vd wt delay last index a)
}.

Global Instance SpriteSheet_animator : LipSyncAnimator SpriteSheet.Animator := {
  animator_insert_keyframes env props vd wt delay last index a :=
    let m := SpriteSheet.insert_keyframes env props vd wt delay last index in
    (SpriteSheet.raised m a, SpriteSheet.exec m a)
}.

(** What the dialog inspector (absent from the sources) returns for one
    recognized word: [get_word_timing], [get_visemes], [get_next_word_timing]. *)
Record InspectedWord := {
  word_timing : WordTiming;
  visemes_data : VisemeData;
  next_word_timing : WordTiming
}.

Section Bake.
Context {A : Type} `{LipSyncAnimator A} (env : Env).

(** The loop of [auto_insert_keyframes]. *)
Fixpoint auto_insert_keyframes_from (props : Props) (total_words : Z)
    (words : list (Z * InspectedWord)) (auto_obj : A) : option Exn * A :=
  match words with
  | [] => (None, auto_obj)
  | (index, w) :: rest =>
      let is_last_word := bool_decide (index = total_words - 1) in
      let corrected_word_end_frame :=
        ShapeKeys_get_corrected_end_frame
          (word_frame_start (word_timing w)) (visemes_data w) in
      let delay_until_next_word :=
        word_frame_start (next_word_timing w) - corrected_word_end_frame in
      match animator_insert_keyframes env props (visemes_data w) (word_timing w)
              delay_until_next_word is_last_word index auto_obj with
      | (None, auto_obj') =>
          auto_insert_keyframes_from props total_words rest auto_obj'
      | (Some e, auto_obj') => (Some e, auto_obj')
      end
  end.

Definition auto_insert_keyframes (props : Props) (total_words : Z)
    (recognized_words : list InspectedWord) (auto_obj : A) : option Exn * A :=
  auto_insert_keyframes_from props total_words (enumerate recognized_words) auto_obj.

End Bake.

Section PoseAssetsBake.
Context (env : Env) (data : PoseAssets.Data).

(** The loop of [auto_insert_keyframes] on a pose-assets animator whose
    [setup] left [channelbag] and [pose_assets_actions] unassigned. *)
Fixpoint auto_insert_keyframes_unassigned_from (total_words : Z)
    (words : list (Z * InspectedWord)) (auto_obj : PoseAssets.Animator)
    : option PoseFCurves.Error * PoseAssets.Animator :=
  match words with
  | [] => (None, auto_obj)
  | (index, w) :: rest =>
      let is_last_word := bool_decide (index = total_words - 1) in
      let corrected_word_end_frame :=
        ShapeKeys_get_corrected_end_frame
          (word_frame_start (word_timing w)) (visemes_data w) in
      let delay_until_next_word :=
        word_frame_start (next_word_timing w) - corrected_word_end_frame in
      match PoseAssets.insert_keyframes_unassigned data (visemes_data w)
              (word_timing w) delay_until_next_word is_last_word index auto_obj with
      | (None, auto_obj') =>
          auto_insert_keyframes_unassigned_from total_words rest auto_obj'
      | (Some e, auto_obj') => (Some e, auto_obj')
      end
  end.

(** [execute] with the pose-assets animator, from [auto_obj.setup(obj)] to the
    end of [auto_insert_keyframes]: the exception raised, if any, and the
    animator. *)
Definition bake (props : Props) (recognized_words : list InspectedWord)
    (auto_obj : PoseAssets.Animator)
    : option (PoseFCurves.Error + Exn) * PoseAssets.Animator :=
  let total_words := Z.of_nat (length recognized_words) in
  match PoseAssets.setup env data props auto_obj with
  | PoseAssets.Raised e auto_obj => (Some (inl e), auto_obj)
  | PoseAssets.Ready auto_obj _ =>
      let run := auto_insert_keyframes env props total_words recognized_words
                   auto_obj in
      (inr <$> run.1, run.2)
  | PoseAssets.Unassigned auto_obj =>
      let run := auto_insert_keyframes_unassigned_from total_words
                   (enumerate recognized_words) auto_obj in
      (inl <$> run.1, run.2)
  end.

End PoseAssetsBake.

(** ** A small scene for concrete runs

    Five visemes of the MPEG-4 table, [PP] with the best priority; the lip
    contact visemes are unskippable; 24 frames per second. *)
Definition demo_env_at (frames_per_second : Q) : Env := {|
  get_viseme_priority := fun v => if bool_decide (v = "PP"%string) then 1 else 3;
  UNSKIPPABLE_VISEMES := {[ "pp"%string; "ff"%string ]};
  viseme_items_mpeg4_v2 := ["sil"; "PP"; "FF"; "kk"; "aa"]%string;
  time_to_frame := spec_time_to_frame frames_per_second;
  get_frame_start := 0;
  obj_is_armature := true;
  pose_fcurves := fun _ => 1
|}.

Definition demo_env : Env := demo_env_at 24.

(** Two pose assets on the bone ["jaw"]: the closed mouth keys its location
    and a B-bone property, the open mouth its location and its scale. *)
Definition demo_jaw_path (property : string) : string :=
  "pose.bones[" +:+ String "034"%char "jaw" +:+ String "034"%char "]." +:+ property.

Definition demo_pose_action (action : Action) : PoseFCurves.PoseAction :=
  if bool_decide (action = "Closed"%string) then
    PoseFCurves.Channels [(demo_jaw_path "location", 0); (demo_jaw_path "bbone_easein", 0)]
  else if bool_decide (action = "Open"%string) then
    PoseFCurves.Channels [(demo_jaw_path "location", 0); (demo_jaw_path "scale", 1)]
  else PoseFCurves.Malformed.

Definition demo_channelbag : PoseFCurves.Channelbag :=
  {| PoseFCurves.fcurves := ∅; PoseFCurves.groups := ∅ |}.

(** The armature has no lip-sync action yet, and every pose action has
    F-curves to copy from. *)
Definition demo_data : PoseAssets.Data := {|
  PoseAssets.armature_action := PoseAssets.NoAction;
  PoseAssets.pose_asset := demo_pose_action;
  PoseAssets.has_pose_fcurves := fun _ => true
|}.

(** The pose-assets animator after [setup]. *)
Definition demo_setup (props : Props) : PoseAssets.Animator :=
  PoseAssets.animator_of
    (PoseAssets.setup demo_env demo_data props (PoseAssets.init props)).

(** Thresholds in seconds: one frame between keyframes, five frames of
    silence, [close] seconds to close the lips. *)
Definition demo_props (pose : gmap string Action) (sprite : gmap string Z)
    (accuracy : bool) (close : Q) : Props := {|
  lip_sync_2d_viseme_pose := pose;
  lip_sync_2d_viseme := sprite;
  lip_sync_2d_sprite_sheet_index := 1;
  lip_sync_2d_prioritize_accuracy := accuracy;
  lip_sync_2d_in_between_threshold := (1 # 24)%Q;
  lip_sync_2d_sil_threshold := (5 # 24)%Q;
  lip_sync_2d_sps_in_between_threshold := (1 # 24)%Q;
  lip_sync_2d_sps_sil_threshold := (5 # 24)%Q;
  lip_sync_2d_close_motion_duration := close;
  lip_sync_2d_rig_type_basic := false;
  lip_sync_2d_use_clear_keyframes := false
|}.

(** The same with every threshold negative. *)
Definition demo_negative_props (pose : gmap string Action) : Props := {|
  lip_sync_2d_viseme_pose := pose;
  lip_sync_2d_viseme := ∅;
  lip_sync_2d_sprite_sheet_index := 1;
  lip_sync_2d_prioritize_accuracy := false;
  lip_sync_2d_in_between_threshold := (-1 # 24)%Q;
  lip_sync_2d_sil_threshold := (-5 # 24)%Q;
  lip_sync_2d_sps_in_between_threshold := (-1 # 24)%Q;
  lip_sync_2d_sps_sil_threshold := (-5 # 24)%Q;
  lip_sync_2d_close_motion_duration := (-6 # 24)%Q;
  lip_sync_2d_rig_type_basic := false;
  lip_sync_2d_use_clear_keyframes := false
|}.

(** A word of [vs] starting at frame [start], [parts] frames per viseme, the
    next word starting at frame [next]. *)
Definition demo_word (start : Z) (vs : list string) (parts : Q) (next : Z)
    : InspectedWord := {|
  word_timing := {| word_frame_start := start;
                    word_frame_end := start + py_round (parts * inject_Z (Z.of_nat (length vs))) |};
  visemes_data := {| visemes := vs; visemes_len := Z.of_nat (length vs);
                     visemes_parts := parts |};
  next_word_timing := {| word_frame_start := next; word_frame_end := next |}
|}.

Definition pose_key (act : Action) (frame : Z) : PoseAssets.Keyframe :=
  {| PoseAssets.kf_action := act; PoseAssets.kf_frame := frame |}.

Definition sprite_key (fcurve : nat) (frame value : Z) : SpriteSheet.Keyframe :=
  {| SpriteSheet.kf_fcurve := fcurve; SpriteSheet.kf_frame := frame;
     SpriteSheet.kf_value := value |}.

(** The state of the pose-assets animator once ["kk"] is keyed on frame 10. *)
Definition demo_after_kk : PoseAssets.Animator :=
  PoseAssets.set_previous 10 "kk"
    (demo_setup
       (demo_props {[ "PP"%string := "Closed"%string; "kk"%string := "Open"%string ]}
                   ∅ false (5 # 24))).

(** Properties in which ["PP"] and ["FF"] share the pose [Closed]. *)
Definition demo_lips_props (accuracy : bool) : Props :=
  demo_props {[ "PP"%string := "Closed"%string; "FF"%string := "Closed"%string;
                "kk"%string := "Open"%string ]}
             ∅ accuracy (5 # 24).

(** The state of the pose-assets animator once ["PP"] is keyed on frame 10. *)
Definition demo_after_PP (accuracy : bool) : PoseAssets.Animator :=
  PoseAssets.set_previous 10 "PP"
    (demo_setup (demo_lips_props accuracy)).

(** Properties for the sprite-sheet animator. *)
Definition demo_sprite_props : Props :=
  demo_props ∅ {[ "sil"%string := 0; "aa"%string := 4; "kk"%string := 2 ]}
             false (5 # 24).

(** The state of the sprite-sheet animator once [v] is keyed on frame 0. *)
Definition demo_sprite_after (v : string) : SpriteSheet.Animator :=
  SpriteSheet.set_previous 0 v
    (SpriteSheet.setup_properties demo_env demo_sprite_props (SpriteSheet.init 1)).

(** A one-viseme word on frame 100, whose corrected end frame is 100. *)
Definition demo_word_100 : InspectedWord := demo_word 100 ["PP"]%string 2 140.

(** The pose-assets animator, closing duration [close] seconds, at the point
    where [insert_keyframes] calls [insert_silences] for [w]. *)
Definition demo_pose_at_word (pose : gmap string Action) (close : Q)
    (w : InspectedWord) (last : bool) (index : Z) : PoseAssets.Animator :=
  PoseAssets.set_word (word_timing w) 0 last index
    (demo_setup (demo_props pose ∅ false close)).

(** The same for the sprite-sheet animator with one F-curve. *)
Definition demo_sprite_at_word (w : InspectedWord) (last : bool) (index : Z)
    : SpriteSheet.Animator :=
  SpriteSheet.set_word (word_timing w) 0 last index
    (SpriteSheet.setup_properties demo_env demo_sprite_props (SpriteSheet.init 1)).

(** Poses with a silence pose. *)
Definition demo_rest_poses : gmap string Action :=
  {[ "sil"%string := "Rest"%string; "PP"%string := "Closed"%string;
     "kk"%string := "Open"%string ]}.

(** A one-viseme first word on frame 10, followed at once by the next word. *)
Definition demo_word_10 : InspectedWord := demo_word 10 ["PP"]%string 2 10.

(** A first and last word of two visemes, from frame 10 on. *)
Definition demo_word_PP_kk : InspectedWord := demo_word 10 ["PP"; "kk"]%string 2 40.

(** ** Vocabulary of the statements *)

(** [setup] returned with [channelbag] and [pose_assets_actions] assigned. *)
Definition setup_ready (r : PoseAssets.SetupResult) : bool :=
  match r with
  | PoseAssets.Ready _ _ => true
  | _ => false
  end.

(** [extends a a']: [a'] holds the keyframes of [a] and possibly more. *)
Definition pose_extends (a a' : PoseAssets.Animator) : Prop :=
  exists new, PoseAssets.keyframes a' = PoseAssets.keyframes a ++ new.

(** The start-of-utterance frame computed by [insert_silences]. *)
Definition pose_first_frame (env : Env) (a : PoseAssets.Animator) : Z :=
  py_int (py_max (inject_Z (get_frame_start env))
                 (inject_Z (PoseAssets.word_start_frame a)
                  - py_max 1 (inject_Z (PoseAssets.close_motion_duration a) / 2))%Q).

(** Every attribute but the keyframes and their count. *)
Definition sprite_attrs (s : SpriteSheet.Animator) :=
  (SpriteSheet.silence_frame_threshold s, SpriteSheet.in_between_frame_threshold s,
   SpriteSheet.previous_start s, SpriteSheet.previous_viseme s,
   SpriteSheet.word_end_frame s, SpriteSheet.word_start_frame s,
   SpriteSheet.delay_until_next_word s, SpriteSheet.is_last_word s,
   SpriteSheet.is_first_word s, SpriteSheet.is_last_viseme s, SpriteSheet.fcurves s).

(** The keyframes [insert_silences] writes when the silence sprite is set. *)
Definition sprite_word_end_keys (vd : VisemeData) (s : SpriteSheet.Animator) (value : Z)
    : list SpriteSheet.Keyframe :=
  let frame :=
    ShapeKeys_get_corrected_end_frame (SpriteSheet.word_start_frame s) vd
    + SpriteSheet.in_between_frame_threshold s in
  if bool_decide (SpriteSheet.silence_frame_threshold s
                  < SpriteSheet.delay_until_next_word s)
     || SpriteSheet.is_last_word s
  then flat_map (fun fcurve =>
                   if SpriteSheet.is_last_word s
                   then [sprite_key fcurve frame value; sprite_key fcurve frame value]
                   else [sprite_key fcurve frame value])
                (seq 0 (SpriteSheet.fcurves s))
  else [].

(** The start-of-utterance keyframes among them. *)
Definition sprite_first_word_keys (env : Env) (s : SpriteSheet.Animator) (value : Z)
    : list SpriteSheet.Keyframe :=
  let frame :=
    Z.max (get_frame_start env)
          (SpriteSheet.word_start_frame s
           - Z.max 1 (SpriteSheet.in_between_frame_threshold s)) in
  if SpriteSheet.is_first_word s
  then flat_map (fun fcurve => [sprite_key fcurve frame value])
                (seq 0 (SpriteSheet.fcurves s))
  else [].

(** [pose_appends I P a a']: if [I] holds of [a] it holds of [a'], whose
    keyframes are those of [a] followed by keyframes that satisfy [P]. *)
Definition pose_appends (I : PoseAssets.Animator -> Prop)
    (P : PoseAssets.Keyframe -> Prop) : relation PoseAssets.Animator :=
  fun a a' =>
    I a ->
    I a' /\ exists new,
      PoseAssets.keyframes a' = PoseAssets.keyframes a ++ new /\ Forall P new.

(** The same for the sprite-sheet animator. *)
Definition sprite_appends (I : SpriteSheet.Animator -> Prop)
    (P : SpriteSheet.Keyframe -> Prop) : relation SpriteSheet.Animator :=
  fun s s' =>
    I s ->
    I s' /\ exists new,
      SpriteSheet.keyframes s' = SpriteSheet.keyframes s ++ new /\ Forall P new.

(** A keyframe of the pose of a viseme of the word, on the frame of its slot. *)
Definition pose_viseme_key (acts : gmap string Action) (vd : VisemeData)
    (wt : WordTiming) (k : PoseAssets.Keyframe) : Prop :=
  exists i v,
    (i, v) ∈ enumerate (visemes vd)
    /\ acts !! v = Some (PoseAssets.kf_action k)
    /\ PoseAssets.kf_frame k = viseme_frame_start_of wt vd i.

(** A keyframe of the sprite of a viseme of the word, on the frame of its slot. *)
Definition sprite_viseme_key (props : Props) (vd : VisemeData)
    (wt : WordTiming) (k : SpriteSheet.Keyframe) : Prop :=
  exists i v,
    (i, v) ∈ enumerate (visemes vd)
    /\ lip_sync_2d_viseme props !! v = Some (SpriteSheet.kf_value k)
    /\ SpriteSheet.kf_frame k = viseme_frame_start_of wt vd i.

(** One step of the silence pass of the sprite-sheet animator: the
    attributes stay and keyframes of the silence sprite are appended. *)
Definition sprite_silence_step (props : Props) : relation SpriteSheet.Animator :=
  fun s1 s2 =>
    sprite_attrs s2 = sprite_attrs s1
    /\ exists new,
         SpriteSheet.keyframes s2 = SpriteSheet.keyframes s1 ++ new
         /\ Forall (fun k => lip_sync_2d_viseme props !! "sil"%string
                             = Some (SpriteSheet.kf_value k)) new.

(** [spaced t p fs]: each frame of [fs] is more than [t] frames after the one
    before it, [p] standing before the first, unless the one before it is
    negative: [is_prev_kframe_too_close] tests the distance only when
    [previous_start >= 0], whether [previous_start] is the initial [-1] or
    the frame of a keyframe. *)
Fixpoint spaced (t p : Z) (fs : list Z) : Prop :=
  match fs with
  | [] => True
  | f :: r => (p < 0 \/ f - p > t) /\ spaced t f r
  end.

(** [apart t fs]: each frame of [fs] but the first is more than [t] frames
    after the one before it. *)
Fixpoint apart (t : Z) (fs : list Z) : Prop :=
  match fs with
  | [] => True
  | p :: r => match r with [] => True | f :: _ => f - p > t end /\ apart t r
  end.

(** The keyframes the calls recorded in [ks] wrote on the F-curves. *)
Definition pose_written (env : Env) (ks : list PoseAssets.Keyframe) : Z :=
  foldr (fun k n => pose_fcurves env (PoseAssets.kf_action k) + n) 0 ks.

(** What the pose-assets animator keeps from [setup] to the end of a bake. *)
Definition pose_config (a : PoseAssets.Animator) :=
  (PoseAssets.props a, PoseAssets.pose_assets_actions a,
   PoseAssets.silence_frame_threshold a, PoseAssets.in_between_frame_threshold a,
   PoseAssets.close_motion_duration a).

(** The keyframes of the sprite-sheet animator that its counter has not
    counted. *)
Definition sprite_uncounted (s : SpriteSheet.Animator) : Z :=
  Z.of_nat (length (SpriteSheet.keyframes s)) - SpriteSheet.inserted_keyframes s.

(** The frames of the keyframes of [ks] that are on F-curve [fcurve]. *)
Definition frames_on (fcurve : nat) (ks : list SpriteSheet.Keyframe) : list Z :=
  SpriteSheet.kf_frame <$> filter (fun k => SpriteSheet.kf_fcurve k = fcurve) ks.

(** ** The bake range: property setters and the operator's frame range *)

Module BakeRange.

(** [get_bake_end]: the stored ID property, 0 when indexing raises. *)
Definition get_bake_end (self : gmap string Z) : Z :=
  match self !! "lip_sync_2d_bake_end"%string with
  | Some v => v
  | None => 0
  end.

(** [get_bake_start] *)
Definition get_bake_start (self : gmap string Z) : Z :=
  match self !! "lip_sync_2d_bake_start"%string with
  | Some v => v
  | None => 0
  end.

(** [set_bake_end]; the attribute [self.lip_sync_2d_bake_start] is read
    through its getter. *)
Definition set_bake_end (value : Z) (self : gmap string Z) : gmap string Z :=
  let self :=
    if bool_decide (value < get_bake_start self)
    then <["lip_sync_2d_bake_start"%string := value]> self
    else self in
  <["lip_sync_2d_bake_end"%string := value]> self.

(** [set_bake_start] *)
Definition set_bake_start (value : Z) (self : gmap string Z) : gmap string Z :=
  let self :=
    if bool_decide (value > get_bake_end self)
    then <["lip_sync_2d_bake_end"%string := value]> self
    else self in
  <["lip_sync_2d_bake_start"%string := value]> self.

(** [bpy.context.scene], as far as the frame range goes; an assignment to
    [frame_start] or [frame_end] is taken as a store. *)
Record Scene := {
  frame_start : Z;
  frame_end : Z
}.

(** The attributes [frame_start] and [frame_end] of the operator, which exist
    only once [set_bake_range] has assigned them. *)
Record Operator := {
  saved_frame_start : option Z;
  saved_frame_end : option Z
}.

Inductive Error := AttributeError (name : string).

(** [set_bake_range]; [timeline_start] and [timeline_end] are what
    [LIPSYNC2D_Timeline.get_frame_start()] and [get_frame_end()] return. *)
Definition set_bake_range (self_props : gmap string Z) (use_bake_range : bool)
    (timeline_start timeline_end : Z) (op : Operator) (scene : option Scene)
    : Operator * option Scene :=
  match scene with
  | None => (op, scene)
  | Some _ =>
      let bake_start := get_bake_start self_props in
      let bake_end := get_bake_end self_props in
      if negb use_bake_range then (op, scene)
      else
        ({| saved_frame_start := Some timeline_start;
            saved_frame_end := Some timeline_end |},
         Some {| frame_start := Z.max 0 bake_start;
                 frame_end := Z.max bake_start bake_end |})
  end.

(** [reset_bake_range] *)
Definition reset_bake_range (use_bake_range : bool) (op : Operator)
    (scene : option Scene) : Error + option Scene :=
  match scene with
  | None => inr scene
  | Some sc =>
      if negb use_bake_range then inr scene
      else
        match saved_frame_start op with
        | None => inl (AttributeError "frame_start")
        | Some fs =>
            match saved_frame_end op with
            | None => inl (AttributeError "frame_end")
            | Some fe => inr (Some {| frame_start := fs; frame_end := fe |})
            end
        end
  end.

End BakeRange.

(** ** The rig type check boxes *)

Module RigType.

Record Rig := {
  lip_sync_2d_rig_type_basic : bool;
  lip_sync_2d_rig_type_advanced : bool
}.

(** [update_rig_type_advanced] *)
Definition update_rig_type_advanced (self : Rig) : Rig :=
  let self :=
    if lip_sync_2d_rig_type_advanced self
    then {| lip_sync_2d_rig_type_basic := false;
            lip_sync_2d_rig_type_advanced := lip_sync_2d_rig_type_advanced self |}
    else self in
  {| lip_sync_2d_rig_type_basic := lip_sync_2d_rig_type_basic self;
     lip_sync_2d_rig_type_advanced := true |}.

(** [update_rig_type_basic] *)
Definition update_rig_type_basic (self : Rig) : Rig :=
  let self :=
    if lip_sync_2d_rig_type_basic self
    then {| lip_sync_2d_rig_type_basic := lip_sync_2d_rig_type_basic self;
            lip_sync_2d_rig_type_advanced := false |}
    else self in
  {| lip_sync_2d_rig_type_basic := true;
     lip_sync_2d_rig_type_advanced := lip_sync_2d_rig_type_advanced self |}.

(** A click on a check box: the property takes the opposite value, then its
    [update] callback runs. *)
Definition click_basic (self : Rig) : Rig :=
  update_rig_type_basic
    {| lip_sync_2d_rig_type_basic := negb (lip_sync_2d_rig_type_basic self);
       lip_sync_2d_rig_type_advanced := lip_sync_2d_rig_type_advanced self |}.

Definition click_advanced (self : Rig) : Rig :=
  update_rig_type_advanced
    {| lip_sync_2d_rig_type_basic := lip_sync_2d_rig_type_basic self;
       lip_sync_2d_rig_type_advanced := negb (lip_sync_2d_rig_type_advanced self) |}.

End RigType.

(** ** The choice of the animator *)

Module AnimatorChoice.

Inductive AnimatorClass :=
  | LIPSYNC_SpriteSheetAnimator
  | LIPSYNC2D_ShapeKeysAnimator
  | LIPSYNC2D_PoseAssetsAnimator.

(** [get_lip_sync_type_items]; the argument is the type of the active object,
    [None] when the context or the active object is [None]. *)
Definition get_lip_sync_type_items (active_object_type : option string)
    : list (string * string * string) :=
  match active_object_type with
  | None => []
  | Some type =>
      let items :=
        [("SPRITESHEET", "Sprite Sheet",
          "Use a Sprite Sheet containg all of your visemes");
         ("SHAPEKEYS", "Shape Keys", "Use your Shape Keys to animate mouth")]%string in
      if bool_decide (type = "ARMATURE"%string)
      then [("POSEASSETS", "Pose Assets", "Use Pose Library to animate mouth")%string]
      else items
  end.

(** The dict [automations] of [get_animator]. *)
Definition automations : list (string * AnimatorClass) :=
  [("SPRITESHEET"%string, LIPSYNC_SpriteSheetAnimator);
   ("SHAPEKEYS"%string, LIPSYNC2D_ShapeKeysAnimator);
   ("POSEASSETS"%string, LIPSYNC2D_PoseAssetsAnimator)].

(** [get_animator]: [automations[type]], the class being instantiated by the
    caller. *)
Definition get_animator (lip_sync_2d_lips_type : string) : Exn + AnimatorClass :=
  match (list_to_map automations : gmap string AnimatorClass) !! lip_sync_2d_lips_type with
  | Some cls => inr cls
  | None => inl (KeyError lip_sync_2d_lips_type)
  end.

End AnimatorChoice.

(** ** The list of language models *)

Module VoskHelper.

(** [excluded_lang] *)
Definition excluded_lang : list string := ["kz"; "ua"]%string.

(** The tuples of [all_langs]: the pairs [(name, label)] appended by the loop
    and the triple put in front of them. *)
Inductive Tuple :=
  | Pair (name label : string)
  | Triple (identifier label description : string).

(** [list(l)[0]] and [list(l)[1]] *)
Definition item0 (l : Tuple) : string :=
  match l with
  | Pair name _ => name
  | Triple identifier _ _ => identifier
  end.

Definition item1 (l : Tuple) : string :=
  match l with
  | Pair _ label => label
  | Triple _ label _ => label
  end.

(** [filter_list] of [cache_online_langs_list]: the entries written to the
    cached file, [item["obsolete"]] raising on an entry without the key.  An
    entry of the list is a JSON object with string values. *)
Fixpoint filter_list (full_list : list (gmap string string))
    : Exn + list (gmap string string) :=
  match full_list with
  | [] => inr []
  | item :: full_list =>
      match item !! "obsolete"%string with
      | None => inl (KeyError "obsolete")
      | Some obsolete =>
          match filter_list full_list with
          | inl e => inl e
          | inr filtered =>
              inr (if bool_decide (obsolete = "false"%string)
                   then item :: filtered else filtered)
          end
      end
  end.

Section WithCache.

(** [installed name]: [cache_path / name] exists and is a directory. *)
Variable installed : string -> bool.

(** The body of the loop of [get_available_langs_online] on one entry:
    [None] for [continue], the tuple appended otherwise. *)
Definition lang_entry (l : gmap string string) : Exn + option Tuple :=
  match l !! "lang"%string with
  | None => inl (KeyError "lang")
  | Some lang =>
      if bool_decide (lang = "all"%string) then inr None
      else
        match l !! "obsolete"%string with
        | None => inl (KeyError "obsolete")
        | Some obsolete =>
            if bool_decide (obsolete <> "false"%string) then inr None
            else if bool_decide (lang ∈ excluded_lang) then inr None
            else
              match l !! "name"%string with
              | None => inl (KeyError "name")
              | Some name =>
                  match l !! "lang_text"%string with
                  | None => inl (KeyError "lang_text")
                  | Some lang_text =>
                      let size_text := default "Unknown"%string (l !! "size_text"%string) in
                      let label := lang_text +:+ " (" +:+ size_text +:+ ")" in
                      let label :=
                        if installed name then label +:+ " - Installed" else label in
                      inr (Some (Pair name label))
                  end
              end
        end
  end.

(** The loop over [langs_list], appending to [all_langs]. *)
Fixpoint collect (langs_list : list (gmap string string)) (all_langs : list Tuple)
    : Exn + list Tuple :=
  match langs_list with
  | [] => inr all_langs
  | l :: langs_list =>
      match lang_entry l with
      | inl e => inl e
      | inr None => collect langs_list all_langs
      | inr (Some t) => collect langs_list (all_langs ++ [t])
      end
  end.

(** [all_langs.sort(key=lambda x: x[1])]: a stable sort on the labels, by
    insertion in front of the first tuple whose label is not smaller. *)
Fixpoint insert_by_label (x : Tuple) (all_langs : list Tuple) : list Tuple :=
  match all_langs with
  | [] => [x]
  | y :: rest =>
      if String.leb (item1 x) (item1 y) then x :: y :: rest
      else y :: insert_by_label x rest
  end.

Definition sort_by_label (all_langs : list Tuple) : list Tuple :=
  foldr insert_by_label [] all_langs.

(** [get_available_langs_online]; [langs_list] is the content of the cached
    file, the empty list when there is no file. *)
Definition get_available_langs_online (langs_list : list (gmap string string))
    : Exn + list (string * string * string) :=
  let all_langs :=
    match langs_list with
    | [] => inr []
    | _ :: _ =>
        match collect langs_list [] with
        | inl e => inl e
        | inr all_langs => inr (sort_by_label all_langs)
        end
    end in
  match all_langs with
  | inl e => inl e
  | inr all_langs =>
      let all_langs := Triple "none" "-- None --" "No selection" :: all_langs in
      inr ((fun l => (item0 l, item1 l, item0 l)) <$> all_langs)
  end.

End WithCache.

End VoskHelper.

(** The labels of a list of enum items are in ascending order. *)
Fixpoint ascending (labels : list string) : bool :=
  match labels with
  | a :: (b :: _) as rest => String.leb a b && ascending rest
  | _ => true
  end.

(** The tuple an entry of the cached file contributes, if any. *)
Definition kept_entry (installed : string -> bool) (l : gmap string string)
    : option VoskHelper.Tuple :=
  match VoskHelper.lang_entry installed l with
  | inr (Some t) => Some t
  | _ => None
  end.

(** The keys the loop reads on an entry are there. *)
Definition readable (l : gmap string string) : Prop :=
  exists lang, l !! "lang"%string = Some lang
    /\ (lang = "all"%string
        \/ exists obsolete, l !! "obsolete"%string = Some obsolete
             /\ (obsolete <> "false"%string
                 \/ lang ∈ VoskHelper.excluded_lang
                 \/ (is_Some (l !! "name"%string) /\ is_Some (l !! "lang_text"%string)))).

(** A cached list of models: two entries that are listed, and an obsolete
    one, the entry for all languages and an excluded one that are not. *)
Definition demo_langs_list : list (gmap string string) :=
  [ list_to_map [("lang", "en-us"); ("lang_text", "US English"); ("name", "vosk-model-small-en-us");
                 ("obsolete", "false"); ("size_text", "40M")];
    list_to_map [("lang", "fr"); ("lang_text", "French"); ("name", "vosk-model-fr-0.6");
                 ("obsolete", "true"); ("size_text", "1.4G")];
    list_to_map [("lang", "all")];
    list_to_map [("lang", "ua"); ("lang_text", "Ukrainian"); ("name", "vosk-model-uk");
                 ("obsolete", "false"); ("size_text", "343M")];
    list_to_map [("lang", "de"); ("lang_text", "German"); ("name", "vosk-model-de");
                 ("obsolete", "false")] ]%string.

Definition demo_installed (name : string) : bool :=
  bool_decide (name = "vosk-model-de"%string).

Definition demo_items : list (string * string * string) :=
  [ ("none", "-- None --", "none");
    ("vosk-model-de", "German (Unknown) - Installed", "vosk-model-de");
    ("vosk-model-small-en-us", "US English (40M)", "vosk-model-small-en-us") ]%string.

(** ** The format of the sprite sheet *)

Module SpriteSheetFormat.

(** [update_sprite_sheet_format] on the ID properties of the property group;
    the enum is stored as the index of its item (0 for SQUARE, 1 for
    RECTANGLE, 2 for HLINE, 3 for VLINE), and [self[...]] raises on a
    property that was never assigned. *)
Definition update_sprite_sheet_format (self : gmap string Z) : Exn + gmap string Z :=
  match self !! "lip_sync_2d_sprite_sheet_format"%string with
  | None => inl (KeyError "lip_sync_2d_sprite_sheet_format")
  | Some spritesheet_format =>
      if bool_decide (spritesheet_format = 0) then
        match self !! "lip_sync_2d_sprite_sheet_columns"%string with
        | None => inl (KeyError "lip_sync_2d_sprite_sheet_columns")
        | Some columns => inr (<["lip_sync_2d_sprite_sheet_rows"%string := columns]> self)
        end
      else if bool_decide (spritesheet_format = 2) then
        inr (<["lip_sync_2d_sprite_sheet_rows"%string := 1]> self)
      else if bool_decide (spritesheet_format = 3) then
        inr (<["lip_sync_2d_sprite_sheet_columns"%string := 1]> self)
      else inr self
  end.

(** [update_sprite_sheet_rows] *)
Definition update_sprite_sheet_rows (self : gmap string Z) : Exn + gmap string Z :=
  match self !! "lip_sync_2d_sprite_sheet_format"%string with
  | None => inr self
  | Some spritesheet_format =>
      if bool_decide (spritesheet_format = 0) then
        match self !! "lip_sync_2d_sprite_sheet_rows"%string with
        | None => inl (KeyError "lip_sync_2d_sprite_sheet_rows")
        | Some rows => inr (<["lip_sync_2d_sprite_sheet_columns"%string := rows]> self)
        end
      else inr self
  end.

End SpriteSheetFormat.

(** ** The models of the cache *)

Module VoskOffline.

(** The dict [all_dir_names] of [get_available_langs_offline], filled entry
    by entry: the condition of the comprehension, then the key, then the
    value; a later entry of the same name replaces the earlier one. *)
Fixpoint all_dir_names (langs_list : list (gmap string string))
    (acc : gmap string (string * string * string))
    : Exn + gmap string (string * string * string) :=
  match langs_list with
  | [] => inr acc
  | lang :: langs_list =>
      match lang !! "obsolete"%string with
      | None => inl (KeyError "obsolete")
      | Some obsolete =>
          if bool_decide (obsolete = "false"%string) then
            match lang !! "name"%string with
            | None => inl (KeyError "name")
            | Some name =>
                match lang !! "lang_text"%string with
                | None => inl (KeyError "lang_text")
                | Some lang_text =>
                    let size_text := default "Unknown"%string (lang !! "size_text"%string) in
                    all_dir_names langs_list
                      (<[name := (name, "✔ " +:+ lang_text +:+ " (" +:+ size_text +:+ ")", name)]>
                         acc)
                end
            end
          else all_dir_names langs_list acc
      end
  end.

(** [get_available_langs_offline]: [ext_path_is_dir] tells whether the cache
    directory is there, [cached_langs_list] is the content of
    [languages_list.json] if the file is there, and [iterdir] lists the
    entries of the cache directory by name, each with [is_dir()]. *)
Definition get_available_langs_offline (ext_path_is_dir : bool)
    (cached_langs_list : option (list (gmap string string)))
    (iterdir : list (string * bool)) : Exn + list (string * string * string) :=
  if negb ext_path_is_dir then inr []
  else
    let all_offline_langs :=
      match cached_langs_list with
      | None => inr []
      | Some langs_list =>
          match all_dir_names langs_list ∅ with
          | inl e => inl e
          | inr all_dir_names =>
              inr (omap (fun model_dir : string * bool =>
                           if model_dir.2 then all_dir_names !! model_dir.1 else None)
                        iterdir)
          end
      end in
    match all_offline_langs with
    | inl e => inl e
    | inr all_offline_langs =>
        inr (("none", "-- None --", "No selection")%string :: all_offline_langs)
    end.

End VoskOffline.

(** [name] is the name of an entry of the list that is not obsolete. *)
Definition current_model (langs_list : list (gmap string string)) (name : string) : Prop :=
  Exists (fun lang => lang !! "obsolete"%string = Some "false"%string
                      /\ lang !! "name"%string = Some name) langs_list.

Global Instance current_model_dec langs_list name : Decision (current_model langs_list name).
Proof. unfold current_model. apply _. Defined.

(** A list in which every entry tells whether it is obsolete. *)
Definition demo_cached_list : list (gmap string string) :=
  [ list_to_map [("lang", "en-us"); ("lang_text", "US English"); ("name", "vosk-model-small-en-us");
                 ("obsolete", "false"); ("size_text", "40M")];
    list_to_map [("lang", "fr"); ("lang_text", "French"); ("name", "vosk-model-fr-0.6");
                 ("obsolete", "true"); ("size_text", "1.4G")];
    list_to_map [("lang", "de"); ("lang_text", "German"); ("name", "vosk-model-de");
                 ("obsolete", "false")] ]%string.

(** An assignment to one of the two bounds of the bake range. *)
Inductive BakeEdit :=
  | SetBakeStart (value : Z)
  | SetBakeEnd (value : Z).

Definition bake_edit_value (e : BakeEdit) : Z :=
  match e with
  | SetBakeStart value => value
  | SetBakeEnd value => value
  end.

Definition apply_bake_edit (self : gmap string Z) (e : BakeEdit) : gmap string Z :=
  match e with
  | SetBakeStart value => BakeRange.set_bake_start value self
  | SetBakeEnd value => BakeRange.set_bake_end value self
  end.

(** ** The operator: [poll] *)

Module AnalyzeAudio.

(** The active object, as far as the operator reads it. *)
Record Object := {
  type : string;
  lip_sync_2d_lips_type : string;
  (** [obj.lipsync2d_props] is not [None] *)
  has_lipsync2d_props : bool
}.

(** The context: [context.scene is not None] and [context.active_object]. *)
Record Context := {
  has_scene : bool;
  active_object : option Object
}.

(** [LIPSYNC_SpriteSheetAnimator.poll]; [model_state] is what
    [LIPSYNC2D_AP_Preferences.get_model_state()] returns. *)
Definition SpriteSheet_poll (model_state : string) (context : Context) : bool :=
  (has_scene context || bool_decide (active_object context <> None))
  && bool_decide (model_state <> "DOWNLOADING"%string).

(** [LIPSYNC2D_PoseAssetsAnimator.poll] *)
Definition PoseAssets_poll (model_state : string) (context : Context) : bool :=
  match active_object context with
  | None => false
  | Some obj =>
      if bool_decide (type obj <> "ARMATURE"%string) then false
      else if negb (has_lipsync2d_props obj) then false
      else has_scene context && bool_decide (model_state <> "DOWNLOADING"%string)
  end.

(** [LIPSYNC2D_OT_AnalyzeAudio.poll]; the [poll] of the shape-keys animator
    is not among the sources and is a parameter. *)
Definition poll (ShapeKeys_poll : string -> Context -> bool) (model_state : string)
    (context : Context) : Exn + bool :=
  match active_object context with
  | None => inr false
  | Some obj =>
      match AnimatorChoice.get_animator (lip_sync_2d_lips_type obj) with
      | inl e => inl e
      | inr AnimatorChoice.LIPSYNC_SpriteSheetAnimator =>
          inr (SpriteSheet_poll model_state context)
      | inr AnimatorChoice.LIPSYNC2D_ShapeKeysAnimator =>
          inr (ShapeKeys_poll model_state context)
      | inr AnimatorChoice.LIPSYNC2D_PoseAssetsAnimator =>
          inr (PoseAssets_poll model_state context)
      end
  end.

End AnalyzeAudio.


(** The F-curve [fcurve] belongs to the pose asset of a viseme and is one
    that [setup_fcurves] copies on this kind of rig. *)
Definition wanted_fcurve (env : Env) (pose_action : Action -> PoseFCurves.PoseAction)
    (props : Props) (is_basic_rig : bool) (fcurve : string * Z) : Prop :=
  is_basic_rig && PoseFCurves.not_basic fcurve.1 = false
  /\ exists enum_id action pose_fcurves,
       enum_id ∈ viseme_items_mpeg4_v2 env
       /\ lip_sync_2d_viseme_pose props !! enum_id = Some action
       /\ pose_action action = PoseFCurves.Channels pose_fcurves
       /\ fcurve ∈ pose_fcurves.

(** The group [setup_fcurves] gives to a new F-curve: the bone named between
    the first two double quotes of a path that contains [pose.bones[]. *)
Definition bone_group (data_path : string) : option string :=
  if PoseFCurves.py_in "pose.bones[" data_path
  then PoseFCurves.py_split "034"%char data_path !! 1%nat
  else None.

(** From [st] to [st'] the channelbag keeps its F-curves, with their groups,
    and its groups; a curve that is new satisfies [allowed] and has the group
    of its bone, which is a group of the channelbag as long as the cache of
    the groups is within the groups, and so it stays. *)
Definition fcurves_grow (allowed : string * Z -> Prop)
    (st st' : PoseFCurves.Channelbag * gset string) : Prop :=
  (forall k g, PoseFCurves.fcurves st.1 !! k = Some g ->
               PoseFCurves.fcurves st'.1 !! k = Some g)
  /\ PoseFCurves.groups st.1 ⊆ PoseFCurves.groups st'.1
  /\ (forall k g, PoseFCurves.fcurves st'.1 !! k = Some g ->
                  PoseFCurves.fcurves st.1 !! k = Some g
                  \/ (PoseFCurves.fcurves st.1 !! k = None /\ allowed k
                      /\ g = bone_group k.1
                      /\ (st.2 ⊆ PoseFCurves.groups st.1 ->
                          forall name, g = Some name -> name ∈ PoseFCurves.groups st'.1)))
  /\ (st.2 ⊆ PoseFCurves.groups st.1 -> st'.2 ⊆ PoseFCurves.groups st'.1).

(** The pose asset [action] has been copied to the channelbag [cb]. *)
Definition action_copied (pose_action : Action -> PoseFCurves.PoseAction)
    (is_basic_rig : bool) (cb : PoseFCurves.Channelbag) (action : Action) : Prop :=
  pose_action action <> PoseFCurves.NoChannelbag
  /\ forall pose_fcurves k,
       pose_action action = PoseFCurves.Channels pose_fcurves -> k ∈ pose_fcurves ->
       is_basic_rig && PoseFCurves.not_basic k.1 = false ->
       is_Some (PoseFCurves.fcurves cb !! k).

(** The channelbag [setup_fcurves] makes of it on a basic rig. *)
Definition demo_basic_channelbag : PoseFCurves.Channelbag :=
  {| PoseFCurves.fcurves :=
       {[ (demo_jaw_path "location", 0) := Some "jaw"%string;
          (demo_jaw_path "scale", 1) := Some "jaw"%string ]};
     PoseFCurves.groups := {[ "jaw"%string ]} |}.

(** The paths of the F-curves of [action] that name a bone have it between
    double quotes, and [action] has a channelbag for its first slot. *)
Definition well_formed_pose (pose_action : Action -> PoseFCurves.PoseAction)
    (action : Action) : Prop :=
  pose_action action <> PoseFCurves.NoChannelbag
  /\ forall pose_fcurves k,
       pose_action action = PoseFCurves.Channels pose_fcurves -> k ∈ pose_fcurves ->
       PoseFCurves.py_in "pose.bones[" k.1 = true ->
       is_Some (PoseFCurves.py_split "034"%char k.1 !! 1%nat).

(** The doubles written [0.1] and [6.6]. *)
Definition demo_tenth : Q := float_round (1 # 10).

Definition demo_span : Q := float_round (66 # 10).

(** * Verification *)

(** ** Facts on the numerics *)

Lemma py_round_comp (x y : Q) : (x == y)%Q -> py_round x = py_round y.
Proof.
  intros E. unfold py_round.
  rewrite (Qfloor_comp _ _ E).
  assert (E' : (x - inject_Z (Qfloor y) == y - inject_Z (Qfloor y))%Q)
    by (rewrite E; reflexivity).
  rewrite (Qcompare_comp _ _ E' (1 # 2)%Q (1 # 2)%Q (Qeq_refl _)).
  reflexivity.
Qed.

Lemma py_round_Z (z : Z) : py_round (inject_Z z) = z.
Proof.
  unfold py_round. rewrite Qfloor_Z.
  assert (E : (inject_Z z - inject_Z z == 0)%Q) by ring.
  rewrite (Qcompare_comp _ _ E (1 # 2)%Q (1 # 2)%Q (Qeq_refl _)).
  reflexivity.
Qed.

Lemma py_int_Z (z : Z) : py_int (inject_Z z) = z.
Proof. unfold py_int. rewrite Qfloor_Z, Qceiling_Z. by destruct (Qle_bool _ _). Qed.

Lemma py_int_comp (x y : Q) : (x == y)%Q -> py_int x = py_int y.
Proof.
  intros E. unfold py_int.
  rewrite (Qfloor_comp _ _ E), (Qceiling_comp _ _ E).
  destruct (Qle_bool 0 x) eqn:Hx, (Qle_bool 0 y) eqn:Hy; try reflexivity.
  - apply Qle_bool_iff in Hx. rewrite E in Hx. apply Qle_bool_iff in Hx. congruence.
  - apply Qle_bool_iff in Hy. rewrite <- E in Hy. apply Qle_bool_iff in Hy. congruence.
Qed.

Lemma py_round_near (x : Q) :
  (x - (1 # 2) <= inject_Z (py_round x) <= x + (1 # 2))%Q.
Proof.
  unfold py_round.
  pose proof (Qfloor_le x) as Hl. pose proof (Qlt_floor x) as Hu.
  rewrite inject_Z_plus in Hu. change (inject_Z 1) with 1%Q in Hu.
  destruct (x - inject_Z (Qfloor x) ?= 1 # 2)%Q eqn:Hc.
  - apply Qeq_alt in Hc.
    destruct (Z.even (Qfloor x)); rewrite ?inject_Z_plus;
      change (inject_Z 1) with 1%Q; lra.
  - apply Qlt_alt in Hc. lra.
  - apply Qgt_alt in Hc. rewrite inject_Z_plus. change (inject_Z 1) with 1%Q. lra.
Qed.

Lemma float_exponent_comp (x y : Q) : (x == y)%Q -> float_exponent x = float_exponent y.
Proof.
  intros E. unfold float_exponent.
  assert (Ea : (Qabs x == Qabs y)%Q) by (by rewrite E).
  rewrite (Qleb_comp 1%Q 1%Q (Qeq_refl _) _ _ Ea).
  rewrite (Qfloor_comp _ _ Ea).
  assert (Ei : (/ Qabs x == / Qabs y)%Q) by (by rewrite Ea).
  by rewrite (Qceiling_comp _ _ Ei).
Qed.

Lemma float_round_comp (x y : Q) : (x == y)%Q -> (float_round x == float_round y)%Q.
Proof.
  intros E. unfold float_round.
  assert (Eb : Qeq_bool x 0 = Qeq_bool y 0).
  { destruct (Qeq_bool x 0) eqn:Hx, (Qeq_bool y 0) eqn:Hy; try reflexivity.
    - apply Qeq_bool_iff in Hx. rewrite E in Hx. apply Qeq_bool_iff in Hx. congruence.
    - apply Qeq_bool_iff in Hy. rewrite <- E in Hy. apply Qeq_bool_iff in Hy. congruence. }
  rewrite Eb, (float_exponent_comp _ _ E).
  destruct (Qeq_bool y 0); [reflexivity |].
  set (e := Z.max _ _).
  assert (Eq : (x / pow2 e == y / pow2 e)%Q) by (by rewrite E).
  by rewrite (py_round_comp _ _ Eq).
Qed.

Lemma float_round_zero (x : Q) : (x == 0)%Q -> float_round x = 0%Q.
Proof.
  intros E. unfold float_round. apply Qeq_bool_iff in E. by rewrite E.
Qed.

Lemma pow2_pos (e : Z) : (0 < pow2 e)%Q.
Proof.
  unfold pow2. destruct (0 <=? e) eqn:He.
  - apply Z.leb_le in He. change 0%Q with (inject_Z 0). rewrite <- Zlt_Qlt.
    by apply Z.pow_pos_nonneg.
  - apply Z.leb_gt in He. apply Qinv_lt_0_compat.
    change 0%Q with (inject_Z 0). rewrite <- Zlt_Qlt.
    apply Z.pow_pos_nonneg; lia.
Qed.

Lemma pow2_le_1 (e : Z) : e <= 0 -> (pow2 e <= 1)%Q.
Proof.
  intros He. unfold pow2. destruct (0 <=? e) eqn:Hb.
  - apply Z.leb_le in Hb. assert (e = 0) as -> by lia. by compute.
  - assert (H1 : 1 <= 2 ^ (- e)) by (apply (Z.pow_le_mono_r 2 0 (- e)); lia).
    rewrite Zle_Qle in H1. change (inject_Z 1) with 1%Q in H1.
    set (q := inject_Z (2 ^ (- e))) in *.
    assert (Hq : (0 < q)%Q) by lra.
    apply (Qmult_le_l _ _ q Hq).
    rewrite Qmult_inv_r by lra. lra.
Qed.

(** The exponent of a number below [2^53] is at most 52. *)
Lemma float_exponent_small (x : Q) :
  (Qabs x < inject_Z (2 ^ 53))%Q -> float_exponent x <= 52.
Proof.
  intros Hx. unfold float_exponent.
  destruct (Qle_bool 1 (Qabs x)) eqn:H1.
  - pose proof (Qfloor_le (Qabs x)) as Hf.
    assert (Hlt : Qfloor (Qabs x) < 2 ^ 53).
    { rewrite Zlt_Qlt. eapply Qle_lt_trans; [exact Hf | exact Hx]. }
    destruct (Z.le_gt_cases (Qfloor (Qabs x)) 0) as [H0 | H0].
    + rewrite Z.log2_nonpos by exact H0. lia.
    + apply Z.log2_lt_pow2 in Hlt; lia.
  - pose proof (Z.log2_up_nonneg (Qceiling (/ Qabs x))). lia.
Qed.

(** Below [2^53] rounding to a double moves a number by at most one half. *)
Lemma float_round_near (x : Q) :
  (Qabs x < inject_Z (2 ^ 53))%Q -> (Qabs (float_round x - x) <= 1 # 2)%Q.
Proof.
  intros Hx. unfold float_round.
  destruct (Qeq_bool x 0) eqn:H0.
  - apply Qeq_bool_iff in H0. apply Qabs_Qle_condition. lra.
  - pose proof (float_exponent_small x Hx) as He.
    set (e := Z.max _ _).
    assert (He0 : e <= 0) by lia.
    pose proof (pow2_pos e) as Hs. pose proof (pow2_le_1 e He0) as Hs1.
    pose proof (py_round_near (x / pow2 e)) as [Hl Hu].
    set (r := inject_Z (py_round (x / pow2 e))) in *.
    set (s := pow2 e) in *.
    assert (Ex : (x == (x / s) * s)%Q) by (field; lra).
    set (q := (x / s)%Q) in *.
    apply Qabs_Qle_condition. split; nra.
Qed.

(** Integers below [2^53] are doubles. *)
Lemma float_of_int_exact (i : Z) :
  Z.abs i < 2 ^ 53 -> (float_of_int i == inject_Z i)%Q.
Proof.
  intros Hi. unfold float_of_int, float_round.
  destruct (Qeq_bool (inject_Z i) 0) eqn:H0.
  - apply Qeq_bool_iff in H0. by rewrite H0.
  - assert (He : float_exponent (inject_Z i) <= 52).
    { apply float_exponent_small. change (Qabs (inject_Z i)) with (inject_Z (Z.abs i)).
      by rewrite <- Zlt_Qlt. }
    set (e := Z.max _ _).
    assert (He0 : e <= 0) by lia.
    unfold pow2. destruct (0 <=? e) eqn:Hb.
    + apply Z.leb_le in Hb. assert (e = 0) as -> by lia.
      change (inject_Z (2 ^ 0)) with 1%Q.
      rewrite (py_round_comp _ (inject_Z i)) by (field).
      rewrite py_round_Z. ring.
    + assert (Hp : 0 < 2 ^ (- e)) by (apply Z.pow_pos_nonneg; lia).
      rewrite Zlt_Qlt in Hp. change (inject_Z 0) with 0%Q in Hp.
      rewrite (py_round_comp _ (inject_Z (i * 2 ^ (- e)))).
      * rewrite py_round_Z, inject_Z_mult. field. lra.
      * rewrite inject_Z_mult. field. lra.
Qed.

Lemma float_mul_0_l (y : Q) : float_mul (float_of_int 0) y = 0%Q.
Proof. apply float_round_zero. change (float_of_int 0) with 0%Q. ring. Qed.

Lemma float_mul_0_r (x : Q) : float_mul x (float_of_int 0) = 0%Q.
Proof. apply float_round_zero. change (float_of_int 0) with 0%Q. ring. Qed.

Lemma float_mul_int_exact (x : Q) (i : Z) :
  Z.abs i < 2 ^ 53 ->
  (float_mul x (float_of_int i) == float_round (x * inject_Z i))%Q.
Proof.
  intros Hi. unfold float_mul. apply float_round_comp.
  by rewrite (float_of_int_exact i Hi).
Qed.

(** [round] moves by at most one when its argument moves by at most one half. *)
Lemma py_round_close (x y : Q) :
  (Qabs (y - x) <= 1 # 2)%Q -> Z.abs (py_round y - py_round x) <= 1.
Proof.
  intros H. apply Qabs_Qle_condition in H. destruct H as [Hl Hu].
  pose proof (py_round_near x) as [Hxl Hxu].
  pose proof (py_round_near y) as [Hyl Hyu].
  assert (H1 : py_round y < py_round x + 2).
  { rewrite Zlt_Qlt, inject_Z_plus. change (inject_Z 2) with 2%Q. lra. }
  assert (H2 : py_round x < py_round y + 2).
  { rewrite Zlt_Qlt, inject_Z_plus. change (inject_Z 2) with 2%Q. lra. }
  lia.
Qed.

Example py_round_halves :
  py_round (1 # 2) = 0 /\ py_round (3 # 2) = 2 /\ py_round (5 # 2) = 2
  /\ py_round (-5 # 2) = -2 /\ py_round (20 # 3) = 7.
Proof. repeat split. Qed.

Example py_int_truncates :
  py_int (15 # 2) = 7 /\ py_int (-15 # 2) = -7 /\ py_int (inject_Z 9) = 9.
Proof. repeat split. Qed.

Example lower_PP : lower "PP" = "pp"%string /\ lower "kk" = "kk"%string.
Proof. repeat split. Qed.

(** ** Corrected end frame *)

(** C5 (amended): the corrected end frame is the word start plus the rounded
    product of the slot duration and [n - 1], the product being rounded to a
    double before [round] sees it.  It is the word start for a single slot;
    it is within one frame of [w + round(p * (n - 1))] taken on real numbers
    when the product is below [2^53]; and when the double holds the product
    exactly it is [w + round(p * (n - 1))], hence [w + round(span*(n-1)/n)]
    for a slot duration that is exactly [span/n]. *)
Theorem corrected_end_frame_formula (w : Z) (data : VisemeData) :
  (visemes_len data = 1 -> get_corrected_end_frame w data = w)
  /\ (Z.abs (visemes_len data - 1) < 2 ^ 53 ->
      (Qabs (visemes_parts data * inject_Z (visemes_len data - 1))
       < inject_Z (2 ^ 53))%Q ->
      Z.abs (get_corrected_end_frame w data
             - (w + py_round (visemes_parts data
                              * inject_Z (visemes_len data - 1)))) <= 1)
  /\ (Z.abs (visemes_len data - 1) < 2 ^ 53 ->
      (float_round (visemes_parts data * inject_Z (visemes_len data - 1))
       == visemes_parts data * inject_Z (visemes_len data - 1))%Q ->
      get_corrected_end_frame w data
        = w + py_round (visemes_parts data * inject_Z (visemes_len data - 1))
      /\ forall span : Q,
           1 < visemes_len data ->
           (visemes_parts data == span / inject_Z (visemes_len data))%Q ->
           get_corrected_end_frame w data
             = w + py_round (span * inject_Z (visemes_len data - 1)
                             / inject_Z (visemes_len data))).
Proof.
  unfold get_corrected_end_frame. split; [| split].
  - intros ->. change (1 - 1) with 0.
    rewrite float_mul_0_r. change (py_round 0) with 0. lia.
  - intros Hn Hp.
    rewrite (py_round_comp _ _ (float_mul_int_exact _ _ Hn)).
    pose proof (py_round_close _ _ (float_round_near _ Hp)). lia.
  - intros Hn Hexact.
    assert (E : get_corrected_end_frame w data
                = w + py_round (visemes_parts data
                                * inject_Z (visemes_len data - 1))).
    { unfold get_corrected_end_frame. f_equal. apply py_round_comp.
      by rewrite (float_mul_int_exact _ _ Hn). }
    split; [exact E |].
    intros span Hgt Hspan. unfold get_corrected_end_frame in E. rewrite E.
    f_equal. apply py_round_comp. rewrite Hspan. field.
    intros H0. unfold Qeq, inject_Z in H0. simpl in H0. lia.
Qed.

Lemma corrected_end_frame_formula_witness :
  let one := {| visemes := ["PP"]%string; visemes_len := 1;
                visemes_parts := (10 # 3)%Q |} in
  let two := {| visemes := ["PP"; "aa"]%string; visemes_len := 2;
                visemes_parts := inject_Z 12 |} in
  get_corrected_end_frame 5 one = 5
  /\ Z.abs (visemes_len two - 1) < 2 ^ 53
  /\ (Qabs (visemes_parts two * inject_Z (visemes_len two - 1))
      < inject_Z (2 ^ 53))%Q
  /\ (float_round (visemes_parts two * inject_Z (visemes_len two - 1))
      == visemes_parts two * inject_Z (visemes_len two - 1))%Q
  /\ Z.abs (get_corrected_end_frame 0 two - 12) <= 1
  /\ get_corrected_end_frame 0 two = 12
  /\ get_corrected_end_frame 0 two
     = 0 + py_round (inject_Z 24 * inject_Z (2 - 1) / inject_Z 2).
Proof.
  intros one two.
  destruct (corrected_end_frame_formula 5 one) as (H1 & _ & _).
  destruct (corrected_end_frame_formula 0 two) as (_ & H2 & H3).
  assert (Hn : Z.abs (visemes_len two - 1) < 2 ^ 53) by (vm_compute; reflexivity).
  assert (Hp : (Qabs (visemes_parts two * inject_Z (visemes_len two - 1))
                < inject_Z (2 ^ 53))%Q) by (vm_compute; reflexivity).
  assert (He : (float_round (visemes_parts two * inject_Z (visemes_len two - 1))
                == visemes_parts two * inject_Z (visemes_len two - 1))%Q)
    by (vm_compute; reflexivity).
  destruct (H3 Hn He) as [H4 H5].
  split; [exact (H1 eq_refl) |].
  split; [exact Hn |]. split; [exact Hp |]. split; [exact He |].
  split; [exact (H2 Hn Hp) |]. split; [exact H4 |].
  apply (H5 (inject_Z 24)); [vm_compute; reflexivity | vm_compute; reflexivity].
Defined.

(** C5, as stated, fails on doubles.  With six slots of [0.1] frame the
    product [0.1 * 5] is rounded to the double [0.5], so the code adds
    [round(0.5) = 0] where [round] of the real product of that double adds 1.
    With the span [6.6] in six slots of [6.6 / 6] the code adds 5, where
    [round(6.6 * 5 / 6)] is 6, computed on doubles as on real numbers. *)
Lemma corrected_end_frame_rounds_the_product :
  let six := ["PP"; "aa"; "E"; "O"; "U"; "kk"]%string in
  let tenths := {| visemes := six; visemes_len := 6;
                   visemes_parts := demo_tenth |} in
  let sixths := {| visemes := six; visemes_len := 6;
                   visemes_parts := float_div demo_span (float_of_int 6) |} in
  1 <= visemes_len tenths
  /\ get_corrected_end_frame 10 tenths = 10
  /\ 10 + py_round (visemes_parts tenths * inject_Z (visemes_len tenths - 1)) = 11
  /\ 1 < visemes_len sixths
  /\ get_corrected_end_frame 10 sixths = 15
  /\ 10 + py_round (float_div (float_mul demo_span (float_of_int (6 - 1)))
                      (float_of_int 6)) = 16
  /\ 10 + py_round ((66 # 10) * inject_Z (6 - 1) / inject_Z 6) = 16.
Proof. intros six tenths sixths. repeat split; by vm_compute. Qed.

(** ** The skip checks of the pose-assets animator *)

Section PoseChecks.
Context (env : Env).
Implicit Types (a : PoseAssets.Animator) (props : Props) (v : string) (f : Z).

Lemma priority_conflict_spec a v pv f :
  f = PoseAssets.previous_start a ->
  PoseAssets.previous_viseme a = Some pv -> pv ≠ ""%string ->
  PoseAssets.should_skip_due_to_priority_conflict env a v f
  = bool_decide (get_viseme_priority env v > get_viseme_priority env pv).
Proof.
  intros Hf Hpv Hne.
  unfold PoseAssets.should_skip_due_to_priority_conflict,
    PoseAssets.has_already_a_kframe, PoseAssets.previous_viseme_known.
  rewrite Hpv, (bool_decide_eq_true_2 _ Hf), (bool_decide_eq_false_2 _ Hne).
  reflexivity.
Qed.

Lemma priority_conflict_unknown a v f :
  PoseAssets.previous_viseme a = None ->
  PoseAssets.should_skip_due_to_priority_conflict env a v f = false.
Proof.
  intros Hpv. unfold PoseAssets.should_skip_due_to_priority_conflict.
  by rewrite Hpv.
Qed.

Lemma too_close_spec a f :
  PoseAssets.is_prev_kframe_too_close a f = true
  <-> PoseAssets.previous_start a >= 0
      /\ f - PoseAssets.previous_start a <= PoseAssets.in_between_frame_threshold a.
Proof.
  unfold PoseAssets.is_prev_kframe_too_close.
  rewrite andb_true_iff, !bool_decide_eq_true. reflexivity.
Qed.

Lemma should_skip_keyframe_unfold a props v f :
  PoseAssets.should_skip_keyframe env a props v f
  = PoseAssets.should_skip_due_to_priority_conflict env a v f
    || PoseAssets.is_redundant a props v
    || (PoseAssets.is_prev_kframe_too_close a f
        && PoseAssets._should_skip_due_to_timing env props v).
Proof.
  unfold PoseAssets.should_skip_keyframe.
  destruct (PoseAssets.should_skip_due_to_priority_conflict env a v f),
    (PoseAssets.is_redundant a props v),
    (PoseAssets.is_prev_kframe_too_close a f); reflexivity.
Qed.

End PoseChecks.

(** ** Priority conflicts *)

(** C1 (amended): on a slot whose frame is [previous_start], with a known
    previous viseme, the priority check of the pose-assets animator skips
    exactly when the current priority is numerically greater; a greater
    priority is always skipped, a tie or a better priority goes on to the
    redundancy and spacing checks, and those skip it when the frame and the
    threshold are non-negative and accuracy is not prioritized; the
    sprite-sheet animator skips every slot on the frame of the previous
    keyframe, whatever the priorities. *)
Theorem priority_conflict_check (env : Env) (a : PoseAssets.Animator)
    (s : SpriteSheet.Animator) (props : Props) (v pv : string) (f : Z) :
  f = PoseAssets.previous_start a ->
  PoseAssets.previous_viseme a = Some pv ->
  pv ≠ ""%string ->
  (PoseAssets.should_skip_due_to_priority_conflict env a v f = true
   <-> get_viseme_priority env v > get_viseme_priority env pv)
  /\ (get_viseme_priority env v > get_viseme_priority env pv ->
      PoseAssets.should_skip_keyframe env a props v f = true)
  /\ (get_viseme_priority env v <= get_viseme_priority env pv ->
      PoseAssets.should_skip_keyframe env a props v f
      = PoseAssets.is_redundant a props v
        || (PoseAssets.is_prev_kframe_too_close a f
            && PoseAssets._should_skip_due_to_timing env props v))
  /\ (0 <= f -> 0 <= PoseAssets.in_between_frame_threshold a ->
      lip_sync_2d_prioritize_accuracy props = false ->
      PoseAssets.should_skip_keyframe env a props v f = true)
  /\ (f = SpriteSheet.previous_start s ->
      SpriteSheet.skip_condition s props v f = true).
Proof.
  intros Hf Hpv Hne.
  pose proof (priority_conflict_spec env a v pv f Hf Hpv Hne) as Hp.
  rewrite should_skip_keyframe_unfold, Hp.
  repeat split.
  - apply bool_decide_eq_true_1.
  - apply bool_decide_eq_true_2.
  - intros Hgt. by rewrite (bool_decide_eq_true_2 _ Hgt).
  - intros Hle. rewrite bool_decide_eq_false_2 by lia. reflexivity.
  - intros Hf0 Hthr Hacc.
    assert (Hclose : PoseAssets.is_prev_kframe_too_close a f = true)
      by (apply too_close_spec; lia).
    rewrite Hclose. unfold PoseAssets._should_skip_due_to_timing.
    rewrite Hacc. simpl. apply orb_true_r.
  - intros Hs. unfold SpriteSheet.skip_condition, SpriteSheet.has_already_a_kframe.
    by rewrite (bool_decide_eq_true_2 _ Hs).
Qed.

Lemma priority_conflict_check_witness :
  let props := PoseAssets.props demo_after_kk in
  10 = PoseAssets.previous_start demo_after_kk
  /\ PoseAssets.previous_viseme demo_after_kk = Some "kk"%string
  /\ (PoseAssets.should_skip_due_to_priority_conflict demo_env demo_after_kk "PP" 10 = true
   <-> get_viseme_priority demo_env "PP" > get_viseme_priority demo_env "kk")
  /\ PoseAssets.should_skip_keyframe demo_env demo_after_kk props "PP" 10 = true.
Proof.
  intros props.
  destruct (priority_conflict_check demo_env demo_after_kk (SpriteSheet.init 1)
              props "PP" "kk" 10 eq_refl eq_refl ltac:(discriminate))
    as (H1 & _ & _ & H4 & _).
  split; [reflexivity | split; [reflexivity |]].
  split; [exact H1 |].
  apply H4; [lia | vm_compute; discriminate | reflexivity].
Defined.

(** C1, as stated, fails: ["kk"] (priority 3) and ["PP"] (priority 1) fall on
    frame 10 of the same word; the keyframe written is the one of ["kk"],
    which came first, and ["PP"] is skipped by the spacing check. *)
Lemma priority_three_keeps_the_frame :
  let props := demo_props {[ "PP"%string := "Closed"%string; "kk"%string := "Open"%string ]}
                          ∅ false (5 # 24) in
  let word := demo_word 10 ["kk"; "PP"]%string (1 # 2) 40 in
  let run := bake demo_env demo_data props [word] (PoseAssets.init props) in
  get_viseme_priority demo_env "kk" = 3
  /\ get_viseme_priority demo_env "PP" = 1
  /\ viseme_frame_start_of (word_timing word) (visemes_data word) 0 = 10
  /\ viseme_frame_start_of (word_timing word) (visemes_data word) 1 = 10
  /\ PoseAssets.keyframes run.2 = [pose_key "Open" 10].
Proof. vm_compute. repeat split. Qed.

(** ** Minimum spacing *)

Lemma should_skip_keyframe_set_is_last_viseme env b a props v f :
  PoseAssets.should_skip_keyframe env (PoseAssets.set_is_last_viseme b a) props v f
  = PoseAssets.should_skip_keyframe env a props v f.
Proof. reflexivity. Qed.

(** C3 (amended): on a too-close slot the pose-assets animator skips when
    accuracy is not prioritized; when it is, a slot that the priority and
    redundancy checks let through is skipped exactly when the lower-cased
    viseme is not unskippable, and an unskippable viseme with a pose is then
    keyed on its frame. *)
Theorem minimum_spacing_resolution (env : Env) (a : PoseAssets.Animator)
    (props : Props) (v : string) (f : Z) :
  PoseAssets.previous_start a >= 0 ->
  f - PoseAssets.previous_start a <= PoseAssets.in_between_frame_threshold a ->
  (lip_sync_2d_prioritize_accuracy props = false ->
   PoseAssets.should_skip_keyframe env a props v f = true)
  /\ (lip_sync_2d_prioritize_accuracy props = true ->
      PoseAssets.should_skip_due_to_priority_conflict env a v f = false ->
      PoseAssets.is_redundant a props v = false ->
      (PoseAssets.should_skip_keyframe env a props v f = true
       <-> lower v ∉ UNSKIPPABLE_VISEMES env)
      /\ (lower v ∈ UNSKIPPABLE_VISEMES env ->
          forall (act : Action) (vd : VisemeData) (wt : WordTiming) (i : Z),
            PoseAssets.pose_assets_actions a !! v = Some act ->
            viseme_frame_start_of wt vd i = f ->
            PoseAssets.keyframes (PoseAssets.visit_viseme env props vd wt i v a)
            = PoseAssets.keyframes a ++ [pose_key act f])).
Proof.
  intros Hprev Hgap.
  assert (Hclose : PoseAssets.is_prev_kframe_too_close a f = true)
    by (apply too_close_spec; lia).
  split.
  - intros Hacc. rewrite should_skip_keyframe_unfold, Hclose.
    unfold PoseAssets._should_skip_due_to_timing. rewrite Hacc.
    apply orb_true_r.
  - intros Hacc Hprio Hred.
    assert (Hskip : PoseAssets.should_skip_keyframe env a props v f
                    = negb (bool_decide (lower v ∈ UNSKIPPABLE_VISEMES env))).
    { rewrite should_skip_keyframe_unfold, Hprio, Hred, Hclose.
      unfold PoseAssets._should_skip_due_to_timing. by rewrite Hacc. }
    split.
    + rewrite Hskip, negb_true_iff, bool_decide_eq_false. reflexivity.
    + intros Hin act vd wt i Hact Hframe.
      unfold PoseAssets.visit_viseme.
      change (PoseAssets.pose_assets_actions (PoseAssets.set_is_last_viseme _ a))
        with (PoseAssets.pose_assets_actions a).
      rewrite Hact, Hframe, should_skip_keyframe_set_is_last_viseme, Hskip.
      rewrite (bool_decide_eq_true_2 _ Hin). reflexivity.
Qed.

Lemma minimum_spacing_resolution_witness :
  PoseAssets.previous_start (demo_after_PP false) >= 0
  /\ 11 - PoseAssets.previous_start (demo_after_PP false)
     <= PoseAssets.in_between_frame_threshold (demo_after_PP false)
  /\ PoseAssets.should_skip_keyframe demo_env (demo_after_PP false)
       (demo_lips_props false) "kk" 11 = true.
Proof.
  split; [vm_compute; discriminate | split; [vm_compute; discriminate |]].
  destruct (minimum_spacing_resolution demo_env (demo_after_PP false)
              (demo_lips_props false) "kk" 11) as [H _].
  - vm_compute; discriminate.
  - vm_compute; discriminate.
  - apply H. reflexivity.
Defined.

(** C3, as stated, fails: accuracy is prioritized, ["FF"] is unskippable and
    its slot on frame 11 is too close to the keyframe of ["PP"] on frame 10,
    yet the slot is skipped, as redundant, and the word writes one keyframe. *)
Lemma unskippable_viseme_skipped_when_redundant :
  let props := demo_lips_props true in
  let a := demo_after_PP true in
  let run := bake demo_env demo_data props [demo_word 10 ["PP"; "FF"]%string 1 40]
               (PoseAssets.init props) in
  lip_sync_2d_prioritize_accuracy props = true
  /\ lower "FF" ∈ UNSKIPPABLE_VISEMES demo_env
  /\ PoseAssets.previous_start a >= 0
  /\ 11 - PoseAssets.previous_start a <= PoseAssets.in_between_frame_threshold a
  /\ PoseAssets.should_skip_keyframe demo_env a props "FF" 11 = true
  /\ PoseAssets.keyframes run.2 = [pose_key "Closed" 10].
Proof.
  repeat split; try (vm_compute; (reflexivity || discriminate)).
Qed.

(** ** Order of the skip checks *)

(** C2 (amended): the pose-assets animator evaluates the priority check, then
    the redundancy check, then the spacing check, and stops at the first one
    that skips; the sprite-sheet animator evaluates the same-frame check, then
    the spacing check, then the redundancy check, and stops at the first one
    that holds. *)
Theorem skip_checks_order (env : Env) (a : PoseAssets.Animator)
    (s : SpriteSheet.Animator) (props : Props) (v : string) (f : Z) :
  let t := PoseAssets.should_skip_keyframe_traced env a props v f in
  let u := SpriteSheet.skip_condition_traced s props v f in
  (t.1 = PoseAssets.should_skip_keyframe env a props v f
   /\ t.2 `prefix_of` [PriorityConflict; Redundancy; MinimumSpacing]
   /\ (PoseAssets.should_skip_due_to_priority_conflict env a v f = true ->
       t.2 = [PriorityConflict])
   /\ (PoseAssets.should_skip_due_to_priority_conflict env a v f = false ->
       PoseAssets.is_redundant a props v = true ->
       t.2 = [PriorityConflict; Redundancy])
   /\ (PoseAssets.should_skip_due_to_priority_conflict env a v f = false ->
       PoseAssets.is_redundant a props v = false ->
       t.2 = [PriorityConflict; Redundancy; MinimumSpacing]))
  /\ (u.1 = SpriteSheet.skip_condition s props v f
      /\ u.2 `prefix_of` [PriorityConflict; MinimumSpacing; Redundancy]
      /\ (SpriteSheet.has_already_a_kframe s f = true -> u.2 = [PriorityConflict])
      /\ (SpriteSheet.has_already_a_kframe s f = false ->
          SpriteSheet.is_prev_kframe_too_close s f = true ->
          u.2 = [PriorityConflict; MinimumSpacing])
      /\ (SpriteSheet.has_already_a_kframe s f = false ->
          SpriteSheet.is_prev_kframe_too_close s f = false ->
          u.2 = [PriorityConflict; MinimumSpacing; Redundancy])).
Proof.
  intros t u. split.
  - subst t. unfold PoseAssets.should_skip_keyframe_traced,
      PoseAssets.should_skip_keyframe, or_else, evaluated.
    destruct (PoseAssets.should_skip_due_to_priority_conflict env a v f);
      [| destruct (PoseAssets.is_redundant a props v);
         [| destruct (PoseAssets.is_prev_kframe_too_close a f)]];
      simpl; repeat split; try discriminate; try reflexivity;
      by eexists.
  - subst u. unfold SpriteSheet.skip_condition_traced,
      SpriteSheet.skip_condition, or_else, evaluated.
    destruct (SpriteSheet.has_already_a_kframe s f);
      [| destruct (SpriteSheet.is_prev_kframe_too_close s f)];
      simpl; repeat split; try discriminate; try reflexivity;
      by eexists.
Qed.

Lemma skip_checks_order_witness :
  (PoseAssets.should_skip_keyframe_traced demo_env demo_after_kk
     (PoseAssets.props demo_after_kk) "PP" 20).2
  = [PriorityConflict; Redundancy; MinimumSpacing]
  /\ (SpriteSheet.skip_condition_traced (demo_sprite_after "aa")
        demo_sprite_props "kk" 1).2
     = [PriorityConflict; MinimumSpacing].
Proof.
  destruct (skip_checks_order demo_env demo_after_kk (demo_sprite_after "aa")
              (PoseAssets.props demo_after_kk) "PP" 20)
    as ((_ & _ & _ & _ & Hp) & _).
  destruct (skip_checks_order demo_env demo_after_kk (demo_sprite_after "aa")
              demo_sprite_props "kk" 1)
    as (_ & (_ & _ & _ & Hs & _)).
  split; [apply Hp | apply Hs]; reflexivity.
Defined.

(** C2, as stated, fails: on a slot that no check holds back, the
    sprite-sheet animator evaluates the spacing check before the redundancy
    check. *)
Lemma sprite_sheet_checks_spacing_first :
  let u := SpriteSheet.skip_condition_traced (demo_sprite_after "aa")
             demo_sprite_props "kk" 10 in
  u = (false, [PriorityConflict; MinimumSpacing; Redundancy])
  /\ ¬ u.2 `prefix_of` [PriorityConflict; Redundancy; MinimumSpacing].
Proof.
  split; [reflexivity |].
  intros [k Hk]. vm_compute in Hk. discriminate.
Qed.

(** ** Redundancy *)

Lemma pose_is_redundant_spec a props v pv :
  PoseAssets.previous_viseme a = Some pv -> pv ≠ "sil"%string ->
  PoseAssets.is_redundant a props v = true
  <-> lip_sync_2d_viseme_pose props !! pv = lip_sync_2d_viseme_pose props !! v.
Proof.
  intros Hpv Hne. unfold PoseAssets.is_redundant.
  rewrite Hpv, (bool_decide_eq_false_2 _ Hne). apply bool_decide_eq_true.
Qed.

Lemma sprite_is_redundant_falsy s props v :
  py_bool (SpriteSheet.is_redundant s props v) = false.
Proof.
  unfold SpriteSheet.is_redundant.
  destruct (SpriteSheet.previous_viseme s); [case_bool_decide |]; reflexivity.
Qed.

(** C4 (the code departs from it): [is_redundant] of the sprite-sheet
    animator never holds.  Two slots of ["aa"], ten frames apart, have the
    same sprite index 4; the previous viseme is known and is not the silence,
    yet [is_redundant] ends without a [return], the slot is not skipped and
    the same sprite is keyed twice; the pose-assets animator, on the same
    word, keys the pose once. *)
Theorem sprite_sheet_is_redundant_returns_nothing :
  let word := demo_word 0 ["aa"; "aa"]%string 10 20 in
  let sprite_run :=
    SpriteSheet.exec
      (SpriteSheet._insert_on_visemes demo_sprite_props (visemes_data word)
         (word_timing word))
      (SpriteSheet.setup_properties demo_env demo_sprite_props (SpriteSheet.init 1)) in
  let pose_props := demo_props {[ "aa"%string := "Wide"%string ]} ∅ false (5 # 24) in
  let pose_run :=
    PoseAssets._insert_on_visemes demo_env pose_props (visemes_data word)
      (word_timing word)
      (demo_setup pose_props) in
  (forall s props v, py_bool (SpriteSheet.is_redundant s props v) = false)
  /\ SpriteSheet.previous_viseme (demo_sprite_after "aa") = Some "aa"%string
  /\ lip_sync_2d_viseme demo_sprite_props !! "aa"%string = Some 4
  /\ SpriteSheet.is_redundant (demo_sprite_after "aa") demo_sprite_props "aa" = None
  /\ SpriteSheet.skip_condition (demo_sprite_after "aa") demo_sprite_props "aa" 10 = false
  /\ SpriteSheet.keyframes sprite_run = [sprite_key 0 0 4; sprite_key 0 10 4]
  /\ PoseAssets.keyframes pose_run = [pose_key "Wide" 0].
Proof.
  intros word sprite_run pose_props pose_run.
  split; [exact sprite_is_redundant_falsy |].
  vm_compute. repeat split.
Qed.

(** ** Keyframes written by the pose-assets animator *)

Section PoseLog.
Context (env : Env).
Implicit Types (a : PoseAssets.Animator) (props : Props) (v : string).

Global Instance pose_extends_preorder : PreOrder pose_extends.
Proof.
  split.
  - intros a. exists []. by rewrite app_nil_r.
  - intros a b c [n1 H1] [n2 H2]. exists (n1 ++ n2).
    by rewrite H2, H1, app_assoc.
Qed.

Lemma pose_insert_silences_unset vd a :
  lip_sync_2d_viseme_pose (PoseAssets.props a) !! "sil"%string = None ->
  PoseAssets.insert_silences env vd a = a.
Proof. intros H. unfold PoseAssets.insert_silences. by rewrite H. Qed.

Lemma pose_insert_silences_last vd a act :
  lip_sync_2d_viseme_pose (PoseAssets.props a) !! "sil"%string = Some act ->
  PoseAssets.is_last_word a = true ->
  PoseAssets.keyframes (PoseAssets.insert_silences env vd a)
  = PoseAssets.keyframes a
    ++ pose_key act (ShapeKeys_get_corrected_end_frame (PoseAssets.word_start_frame a) vd
                     + PoseAssets.close_motion_duration a)
    :: (if PoseAssets.is_first_word a then [pose_key act (pose_first_frame env a)] else []).
Proof.
  intros Hsil Hlast. unfold PoseAssets.insert_silences.
  rewrite Hsil, Hlast, orb_true_r. simpl.
  destruct (PoseAssets.is_first_word a); simpl.
  - by rewrite <- app_assoc.
  - reflexivity.
Qed.

Lemma pose_insert_silences_first vd a act :
  lip_sync_2d_viseme_pose (PoseAssets.props a) !! "sil"%string = Some act ->
  PoseAssets.is_first_word a = true ->
  exists ends,
    PoseAssets.keyframes (PoseAssets.insert_silences env vd a)
    = PoseAssets.keyframes a ++ ends ++ [pose_key act (pose_first_frame env a)].
Proof.
  intros Hsil Hfirst. unfold PoseAssets.insert_silences. rewrite Hsil.
  destruct (bool_decide _ || PoseAssets.is_last_word a);
    [destruct (PoseAssets.is_last_word a) |]; simpl; rewrite Hfirst; simpl.
  - eexists [_]. by rewrite <- app_assoc.
  - eexists [_; _]. by rewrite <- !app_assoc.
  - by exists [].
Qed.

(** Silence insertion writes keyframes of the silence pose only, and leaves
    every attribute but the keyframes and their count as it was. *)
Lemma pose_insert_silences_keys vd a :
  exists sil_keys,
    PoseAssets.keyframes (PoseAssets.insert_silences env vd a)
    = PoseAssets.keyframes a ++ sil_keys
    /\ Forall (fun k => lip_sync_2d_viseme_pose (PoseAssets.props a) !! "sil"%string
                        = Some (PoseAssets.kf_action k)) sil_keys.
Proof.
  unfold PoseAssets.insert_silences.
  destruct (lip_sync_2d_viseme_pose (PoseAssets.props a) !! "sil"%string) as [act|] eqn:Hsil.
  - destruct (bool_decide _ || PoseAssets.is_last_word a);
      [destruct (PoseAssets.is_last_word a) |]; simpl;
      destruct (PoseAssets.is_first_word a); simpl;
      first [ exists []; split; [by rewrite app_nil_r | constructor]
            | rewrite <- ?app_assoc; eexists; (split; [reflexivity |]);
              repeat constructor ].
  - exists []. split; [by rewrite app_nil_r | constructor].
Qed.

Lemma pose_insert_silences_attrs vd a :
  let a' := PoseAssets.insert_silences env vd a in
  PoseAssets.previous_start a' = PoseAssets.previous_start a
  /\ PoseAssets.previous_viseme a' = PoseAssets.previous_viseme a
  /\ PoseAssets.in_between_frame_threshold a' = PoseAssets.in_between_frame_threshold a
  /\ PoseAssets.pose_assets_actions a' = PoseAssets.pose_assets_actions a
  /\ PoseAssets.props a' = PoseAssets.props a.
Proof.
  unfold PoseAssets.insert_silences.
  destruct (lip_sync_2d_viseme_pose (PoseAssets.props a) !! "sil"%string);
    [| done].
  destruct (bool_decide _ || PoseAssets.is_last_word a);
    [destruct (PoseAssets.is_last_word a) |]; simpl;
    destruct (PoseAssets.is_first_word a); done.
Qed.

(** The two outcomes of one slot: nothing but [is_last_viseme] changes, or
    one keyframe of the viseme's pose is written on the slot's frame, which
    becomes [previous_start]. *)
Lemma pose_visit_viseme_cases props vd wt i v a :
  let a' := PoseAssets.visit_viseme env props vd wt i v a in
  let f := viseme_frame_start_of wt vd i in
  (a' = PoseAssets.set_is_last_viseme (bool_decide (i + 1 = visemes_len vd)) a)
  \/ (exists act,
         PoseAssets.pose_assets_actions a !! v = Some act
         /\ PoseAssets.should_skip_keyframe env a props v f = false
         /\ PoseAssets.keyframes a' = PoseAssets.keyframes a ++ [pose_key act f]
         /\ PoseAssets.previous_start a' = f
         /\ PoseAssets.previous_viseme a' = Some v
         /\ PoseAssets.pose_assets_actions a' = PoseAssets.pose_assets_actions a).
Proof.
  intros a' f. subst a'. unfold PoseAssets.visit_viseme. fold f.
  change (PoseAssets.pose_assets_actions (PoseAssets.set_is_last_viseme _ a))
    with (PoseAssets.pose_assets_actions a).
  destruct (PoseAssets.pose_assets_actions a !! v) as [act|] eqn:Hact; [| by left].
  rewrite should_skip_keyframe_set_is_last_viseme.
  destruct (PoseAssets.should_skip_keyframe env a props v f) eqn:Hskip; [by left |].
  right. exists act. repeat split.
Qed.

(** The loop over the slots keeps what every slot keeps. *)
Lemma pose_visit_visemes_ind (R : relation PoseAssets.Animator) `{!PreOrder R}
    props vd wt (l : list (Z * string)) :
  (forall i v a, (i, v) ∈ l -> R a (PoseAssets.visit_viseme env props vd wt i v a)) ->
  forall a, R a (PoseAssets.visit_visemes env props vd wt l a).
Proof.
  induction l as [| [i v] l IH]; intros Hbody a; simpl.
  - reflexivity.
  - transitivity (PoseAssets.visit_viseme env props vd wt i v a).
    + apply Hbody. left.
    + apply IH. intros i' v' a' Hin. apply Hbody. by right.
Qed.

End PoseLog.

(** ** Keyframes written by the sprite-sheet animator *)

Section SpriteLog.
Context (env : Env).
Implicit Types (s : SpriteSheet.Animator) (props : Props) (v : string).

Lemma sprite_attrs_fields s1 s :
  sprite_attrs s1 = sprite_attrs s ->
  SpriteSheet.silence_frame_threshold s1 = SpriteSheet.silence_frame_threshold s
  /\ SpriteSheet.in_between_frame_threshold s1 = SpriteSheet.in_between_frame_threshold s
  /\ SpriteSheet.previous_start s1 = SpriteSheet.previous_start s
  /\ SpriteSheet.previous_viseme s1 = SpriteSheet.previous_viseme s
  /\ SpriteSheet.word_start_frame s1 = SpriteSheet.word_start_frame s
  /\ SpriteSheet.delay_until_next_word s1 = SpriteSheet.delay_until_next_word s
  /\ SpriteSheet.is_last_word s1 = SpriteSheet.is_last_word s
  /\ SpriteSheet.is_first_word s1 = SpriteSheet.is_first_word s
  /\ SpriteSheet.fcurves s1 = SpriteSheet.fcurves s.
Proof. unfold sprite_attrs. intros H. simplify_eq. repeat split; assumption. Qed.

Lemma sprite_exec_bind {A B} (m : SpriteSheet.M A) (k : A -> SpriteSheet.M B) s :
  SpriteSheet.exec (m ≫= k) s
  = match m s with
    | (inr x, s') => SpriteSheet.exec (k x) s'
    | (inl _, s') => s'
    end.
Proof.
  unfold SpriteSheet.exec, mbind, SpriteSheet.M_bind, SpriteSheet.bind.
  by destruct (m s) as [[e|x] s'].
Qed.

(** A loop keeps what each of its iterations keeps, whether it ends or
    raises. *)
Lemma sprite_for_each_ind (R : relation SpriteSheet.Animator) `{!PreOrder R}
    {A} (body : A -> SpriteSheet.M unit) (l : list A) :
  (forall x s, x ∈ l -> R s (SpriteSheet.exec (body x) s)) ->
  forall s, R s (SpriteSheet.exec (SpriteSheet.for_each l body) s).
Proof.
  induction l as [| x l IH]; intros Hbody s; simpl.
  - reflexivity.
  - rewrite sprite_exec_bind.
    pose proof (Hbody x s ltac:(left)) as Hx. unfold SpriteSheet.exec in Hx.
    destruct (body x s) as [[e|[]] s']; simpl in Hx; [exact Hx |].
    transitivity s'; [exact Hx |].
    apply IH. intros y s2 Hin. apply Hbody. by right.
Qed.

(** A loop whose iterations return and append the keyframes [keys x]. *)
Lemma sprite_for_each_keys (I : SpriteSheet.Animator -> Prop) {A}
    (keys : A -> list SpriteSheet.Keyframe) (body : A -> SpriteSheet.M unit)
    (l : list A) :
  (forall x s, I s ->
     exists s', body x s = (inr tt, s') /\ I s'
                /\ SpriteSheet.keyframes s' = SpriteSheet.keyframes s ++ keys x) ->
  forall s, I s ->
    exists s', SpriteSheet.for_each l body s = (inr tt, s') /\ I s'
               /\ SpriteSheet.keyframes s'
                  = SpriteSheet.keyframes s ++ flat_map keys l.
Proof.
  intros Hbody. induction l as [| x l IH]; intros s Hs; simpl.
  - exists s. by rewrite app_nil_r.
  - destruct (Hbody x s Hs) as (s1 & E1 & I1 & K1).
    destruct (IH s1 I1) as (s2 & E2 & I2 & K2).
    exists s2. split; [| split; [exact I2 |]].
    + unfold mbind, SpriteSheet.M_bind, SpriteSheet.bind. by rewrite E1.
    + by rewrite K2, K1, app_assoc.
Qed.

Lemma sprite_insert_silences_run props vd s value :
  lip_sync_2d_viseme props !! "sil"%string = Some value ->
  exists s',
    SpriteSheet.insert_silences env props vd s = (inr tt, s')
    /\ sprite_attrs s' = sprite_attrs s
    /\ SpriteSheet.keyframes s'
       = SpriteSheet.keyframes s
         ++ sprite_word_end_keys vd s value ++ sprite_first_word_keys env s value.
Proof.
  intros Hsil.
  pose (I := fun s1 => sprite_attrs s1 = sprite_attrs s).
  assert (Hend : exists s1,
             (if bool_decide (SpriteSheet.silence_frame_threshold s
                              < SpriteSheet.delay_until_next_word s)
                 || SpriteSheet.is_last_word s
              then SpriteSheet.for_each (seq 0 (SpriteSheet.fcurves s))
                     (SpriteSheet.word_end_silence props vd)
              else SpriteSheet.ret tt) s = (inr tt, s1)
             /\ I s1
             /\ SpriteSheet.keyframes s1
                = SpriteSheet.keyframes s ++ sprite_word_end_keys vd s value).
  { unfold sprite_word_end_keys.
    destruct (bool_decide _ || SpriteSheet.is_last_word s).
    - apply (sprite_for_each_keys I); [| reflexivity].
      intros fcurve s1 Hs1. unfold I in Hs1.
      destruct (sprite_attrs_fields _ _ Hs1) as (_ & Eibt & _ & _ & Ews & _ & El & _).
      unfold SpriteSheet.word_end_silence, SpriteSheet.viseme_prop.
      rewrite Hsil.
      unfold mbind, SpriteSheet.M_bind, SpriteSheet.bind, SpriteSheet.get,
        SpriteSheet.modify, SpriteSheet.ret.
      rewrite El, Ews, Eibt.
      destruct (SpriteSheet.is_last_word s) eqn:Hlast; simpl;
        eexists; (split; [reflexivity |]); simpl;
        rewrite <- ?app_assoc; split; [exact Hs1 | reflexivity | exact Hs1 | reflexivity].
    - exists s. unfold I. by rewrite app_nil_r. }
  assert (Hfirst : forall s1, I s1 -> exists s2,
             (if SpriteSheet.is_first_word s
              then SpriteSheet.for_each (seq 0 (SpriteSheet.fcurves s))
                     (SpriteSheet.first_word_silence env props)
              else SpriteSheet.ret tt) s1 = (inr tt, s2)
             /\ I s2
             /\ SpriteSheet.keyframes s2
                = SpriteSheet.keyframes s1 ++ sprite_first_word_keys env s value).
  { intros s1 Hs1. unfold sprite_first_word_keys.
    destruct (SpriteSheet.is_first_word s).
    - apply (sprite_for_each_keys I); [| exact Hs1].
      intros fcurve s2 Hs2. unfold I in Hs2.
      destruct (sprite_attrs_fields _ _ Hs2) as (_ & Eibt & _ & _ & Ews & _).
      unfold SpriteSheet.first_word_silence, SpriteSheet.viseme_prop.
      rewrite Hsil.
      unfold mbind, SpriteSheet.M_bind, SpriteSheet.bind, SpriteSheet.get,
        SpriteSheet.modify, SpriteSheet.ret.
      rewrite Ews, Eibt. simpl.
      eexists; (split; [reflexivity |]). simpl. split; [exact Hs2 | reflexivity].
    - exists s1. by rewrite app_nil_r. }
  destruct Hend as (s1 & E1 & I1 & K1).
  destruct (Hfirst s1 I1) as (s2 & E2 & I2 & K2).
  exists s2. split; [| split; [exact I2 |]].
  - unfold SpriteSheet.insert_silences, mbind, SpriteSheet.M_bind,
      SpriteSheet.bind, SpriteSheet.get.
    by rewrite E1.
  - by rewrite K2, K1, app_assoc.
Qed.

End SpriteLog.

(** ** Silence at the end of the last word *)

Lemma Forall_flat_map_keys {A K} (P : K -> Prop) (f : A -> list K) (l : list A) :
  (forall x, Forall P (f x)) -> Forall P (flat_map f l).
Proof.
  intros Hf. induction l as [| x l IH]; simpl.
  - constructor.
  - apply Forall_app. split; [apply Hf | exact IH].
Qed.

Lemma length_flat_map_keys {A K} (f : A -> list K) (l : list A) :
  (forall x, (1 <= length (f x))%nat) -> (length l <= length (flat_map f l))%nat.
Proof.
  intros Hf. induction l as [| x l IH]; simpl.
  - lia.
  - rewrite length_app. specialize (Hf x). lia.
Qed.

(** C6 (amended): for a last word, the pose-assets animator with a silence
    pose writes one end-of-word silence keyframe, on frame
    [corrected_end_frame + close_motion_duration] (followed only by the
    start-of-utterance keyframe when the word is also the first), and writes
    nothing when the silence pose is unset; the sprite-sheet animator writes
    its end-of-word silence keyframes, at least one per F-curve, on frame
    [corrected_end_frame + in_between_frame_threshold] (followed only by its
    start-of-utterance keyframes when the word is also the first). *)
Theorem last_word_silence (env : Env) (a : PoseAssets.Animator)
    (s : SpriteSheet.Animator) (props : Props) (vd : VisemeData) :
  PoseAssets.is_last_word a = true ->
  SpriteSheet.is_last_word s = true ->
  (forall act,
      lip_sync_2d_viseme_pose (PoseAssets.props a) !! "sil"%string = Some act ->
      PoseAssets.keyframes (PoseAssets.insert_silences env vd a)
      = PoseAssets.keyframes a
        ++ pose_key act
             (ShapeKeys_get_corrected_end_frame (PoseAssets.word_start_frame a) vd
              + PoseAssets.close_motion_duration a)
        :: (if PoseAssets.is_first_word a
            then [pose_key act (pose_first_frame env a)] else []))
  /\ (lip_sync_2d_viseme_pose (PoseAssets.props a) !! "sil"%string = None ->
      PoseAssets.insert_silences env vd a = a)
  /\ (forall value,
        lip_sync_2d_viseme props !! "sil"%string = Some value ->
        exists new,
          SpriteSheet.keyframes
            (SpriteSheet.exec (SpriteSheet.insert_silences env props vd) s)
          = SpriteSheet.keyframes s ++ new ++ sprite_first_word_keys env s value
          /\ (SpriteSheet.fcurves s <= length new)%nat
          /\ Forall (fun k =>
                       SpriteSheet.kf_frame k
                       = ShapeKeys_get_corrected_end_frame
                           (SpriteSheet.word_start_frame s) vd
                         + SpriteSheet.in_between_frame_threshold s
                       /\ SpriteSheet.kf_value k = value) new).
Proof.
  intros Hlast Hslast. split; [| split].
  - intros act Hsil. by apply pose_insert_silences_last.
  - apply pose_insert_silences_unset.
  - intros value Hsil.
    destruct (sprite_insert_silences_run env props vd s value Hsil)
      as (s' & E & _ & K).
    exists (sprite_word_end_keys vd s value).
    unfold SpriteSheet.exec. rewrite E. simpl. rewrite K.
    unfold sprite_word_end_keys.
    rewrite Hslast, orb_true_r.
    split; [reflexivity | split].
    + etransitivity; [| apply length_flat_map_keys; intros x; simpl; lia].
      by rewrite length_seq.
    + apply Forall_flat_map_keys. intros x. by repeat constructor.
Qed.

Lemma last_word_silence_witness :
  let a := demo_pose_at_word demo_rest_poses (6 # 24) demo_word_100 true 1 in
  PoseAssets.is_last_word a = true
  /\ SpriteSheet.is_last_word (demo_sprite_at_word demo_word_100 true 1) = true
  /\ PoseAssets.keyframes
       (PoseAssets.insert_silences demo_env (visemes_data demo_word_100) a)
     = [pose_key "Rest" 106].
Proof.
  intros a. split; [reflexivity | split; [reflexivity |]].
  destruct (last_word_silence demo_env a (demo_sprite_at_word demo_word_100 true 1)
              demo_sprite_props (visemes_data demo_word_100) eq_refl eq_refl)
    as (H & _ & _).
  rewrite (H "Rest"%string eq_refl). reflexivity.
Defined.

(** C6, as stated, fails: the word is the last one, its corrected end frame is
    100 and the closing motion lasts 6 frames; without a silence pose the
    pose-assets animator writes no silence keyframe, and the sprite-sheet
    animator writes its silence on frame 101. *)
Lemma last_word_silence_not_at_106 :
  let a := demo_pose_at_word {[ "PP"%string := "Closed"%string ]} (6 # 24)
             demo_word_100 true 1 in
  let s := demo_sprite_at_word demo_word_100 true 1 in
  let vd := visemes_data demo_word_100 in
  PoseAssets.is_last_word a = true
  /\ ShapeKeys_get_corrected_end_frame (PoseAssets.word_start_frame a) vd = 100
  /\ PoseAssets.close_motion_duration a = 6
  /\ PoseAssets.keyframes (PoseAssets.insert_silences demo_env vd a) = []
  /\ SpriteSheet.is_last_word s = true
  /\ ShapeKeys_get_corrected_end_frame (SpriteSheet.word_start_frame s) vd = 100
  /\ SpriteSheet.keyframes
       (SpriteSheet.exec (SpriteSheet.insert_silences demo_env demo_sprite_props vd) s)
     = [sprite_key 0 101 0; sprite_key 0 101 0].
Proof. vm_compute. repeat split. Qed.

(** ** Silence before the first word *)

Lemma py_max_comp (a a' b b' : Q) :
  (a == a')%Q -> (b == b')%Q -> (py_max a b == py_max a' b')%Q.
Proof.
  intros Ea Eb. unfold py_max.
  rewrite (Qcompare_comp _ _ Ea _ _ Eb).
  by destruct (a' ?= b')%Q.
Qed.

Lemma py_max_inject_Z (x y : Z) :
  py_max (inject_Z x) (inject_Z y) = inject_Z (Z.max x y).
Proof.
  unfold py_max, Qcompare, Z.max. simpl. rewrite !Z.mul_1_r.
  by destruct (x ?= y).
Qed.

(** With an even closing duration the start-of-utterance frame is an
    integer expression. *)
Lemma pose_first_frame_even env (a : PoseAssets.Animator) :
  Z.even (PoseAssets.close_motion_duration a) = true ->
  pose_first_frame env a
  = Z.max (get_frame_start env)
          (PoseAssets.word_start_frame a
           - Z.max 1 (PoseAssets.close_motion_duration a / 2)).
Proof.
  intros Heven. apply Z.even_spec in Heven as [k Hk].
  unfold pose_first_frame. rewrite Hk.
  replace (2 * k / 2) with k by (symmetry; rewrite Z.mul_comm; apply Z.div_mul; lia).
  rewrite <- (py_int_Z (Z.max _ _)). apply py_int_comp.
  rewrite <- py_max_inject_Z. apply py_max_comp; [reflexivity |].
  unfold Z.sub, Qminus. rewrite inject_Z_plus, inject_Z_opp.
  apply Qplus_comp; [reflexivity |]. apply Qopp_comp.
  rewrite <- py_max_inject_Z. apply py_max_comp; [reflexivity |].
  rewrite inject_Z_mult. field.
Qed.

(** C7 (amended): for a first word, the pose-assets animator with a silence
    pose writes, last in the silence pass, one start-of-utterance keyframe on
    frame [int(max(frame_start, word_start - max(1, close/2)))], the division
    being exact and [int] truncating; with an even closing duration this is
    [max(frame_start, word_start - max(1, close div 2))]; it writes nothing
    when the silence pose is unset; the sprite-sheet animator writes its
    start-of-utterance keyframes on frame
    [max(frame_start, word_start - max(1, in_between_frame_threshold))]. *)
Theorem first_word_silence_frame (env : Env) (a : PoseAssets.Animator)
    (s : SpriteSheet.Animator) (props : Props) (vd : VisemeData) :
  PoseAssets.is_first_word a = true ->
  SpriteSheet.is_first_word s = true ->
  (forall act,
      lip_sync_2d_viseme_pose (PoseAssets.props a) !! "sil"%string = Some act ->
      exists ends,
        PoseAssets.keyframes (PoseAssets.insert_silences env vd a)
        = PoseAssets.keyframes a ++ ends
          ++ [pose_key act
                (py_int (py_max (inject_Z (get_frame_start env))
                           (inject_Z (PoseAssets.word_start_frame a)
                            - py_max 1 (inject_Z (PoseAssets.close_motion_duration a) / 2))%Q))])
  /\ (Z.even (PoseAssets.close_motion_duration a) = true ->
      py_int (py_max (inject_Z (get_frame_start env))
                (inject_Z (PoseAssets.word_start_frame a)
                 - py_max 1 (inject_Z (PoseAssets.close_motion_duration a) / 2))%Q)
      = Z.max (get_frame_start env)
              (PoseAssets.word_start_frame a
               - Z.max 1 (PoseAssets.close_motion_duration a / 2)))
  /\ (lip_sync_2d_viseme_pose (PoseAssets.props a) !! "sil"%string = None ->
      PoseAssets.insert_silences env vd a = a)
  /\ (forall value,
        lip_sync_2d_viseme props !! "sil"%string = Some value ->
        exists ends,
          SpriteSheet.keyframes
            (SpriteSheet.exec (SpriteSheet.insert_silences env props vd) s)
          = SpriteSheet.keyframes s ++ ends
            ++ flat_map
                 (fun fcurve =>
                    [sprite_key fcurve
                       (Z.max (get_frame_start env)
                              (SpriteSheet.word_start_frame s
                               - Z.max 1 (SpriteSheet.in_between_frame_threshold s)))
                       value])
                 (seq 0 (SpriteSheet.fcurves s))).
Proof.
  intros Hfirst Hsfirst. repeat split.
  - intros act Hsil. by apply pose_insert_silences_first.
  - apply pose_first_frame_even.
  - apply pose_insert_silences_unset.
  - intros value Hsil.
    destruct (sprite_insert_silences_run env props vd s value Hsil)
      as (s' & E & _ & K).
    exists (sprite_word_end_keys vd s value).
    unfold SpriteSheet.exec. rewrite E. simpl. rewrite K.
    unfold sprite_first_word_keys. by rewrite Hsfirst.
Qed.

Lemma first_word_silence_frame_witness :
  let a := demo_pose_at_word demo_rest_poses (6 # 24) demo_word_10 false 0 in
  PoseAssets.is_first_word a = true
  /\ SpriteSheet.is_first_word (demo_sprite_at_word demo_word_10 false 0) = true
  /\ PoseAssets.close_motion_duration a = 6
  /\ PoseAssets.keyframes
       (PoseAssets.insert_silences demo_env (visemes_data demo_word_10) a)
     = [pose_key "Rest" 7].
Proof.
  intros a. split; [reflexivity | split; [reflexivity | split; [reflexivity |]]].
  destruct (first_word_silence_frame demo_env a
              (demo_sprite_at_word demo_word_10 false 0)
              demo_sprite_props (visemes_data demo_word_10) eq_refl eq_refl)
    as (H & Heven & _ & _).
  destruct (H "Rest"%string eq_refl) as [ends Hends].
  rewrite (Heven eq_refl) in Hends. reflexivity.
Defined.

(** C7, as stated, fails: the first word starts on frame 10, the timeline on
    frame 0 and the closing motion lasts 5 frames; the pose-assets animator
    writes the silence on frame 7, where [max(0, 10 - max(1, 5/2))] is 8 with
    an integer division and 15/2 with an exact one; without a silence pose it
    writes nothing; the sprite-sheet animator writes it on frame 9. *)
Lemma first_word_silence_on_frame_7 :
  let a := demo_pose_at_word demo_rest_poses (5 # 24) demo_word_10 false 0 in
  let b := demo_pose_at_word {[ "PP"%string := "Closed"%string ]} (5 # 24)
             demo_word_10 false 0 in
  let s := demo_sprite_at_word demo_word_10 false 0 in
  let vd := visemes_data demo_word_10 in
  PoseAssets.is_first_word a = true
  /\ PoseAssets.word_start_frame a = 10
  /\ PoseAssets.close_motion_duration a = 5
  /\ get_frame_start demo_env = 0
  /\ PoseAssets.keyframes (PoseAssets.insert_silences demo_env vd a)
     = [pose_key "Rest" 7]
  /\ Z.max 0 (10 - Z.max 1 (5 / 2)) = 8
  /\ (py_max 0 (10 - py_max 1 (5 / 2)) == 15 # 2)%Q
  /\ PoseAssets.is_first_word b = true
  /\ PoseAssets.keyframes (PoseAssets.insert_silences demo_env vd b) = []
  /\ SpriteSheet.is_first_word s = true
  /\ SpriteSheet.keyframes
       (SpriteSheet.exec (SpriteSheet.insert_silences demo_env demo_sprite_props vd) s)
     = [sprite_key 0 9 0].
Proof. vm_compute. repeat split. Qed.

(** ** Order of the keyframes of one word *)

Global Instance pose_appends_preorder I P : PreOrder (pose_appends I P).
Proof.
  split.
  - intros a Ha. split; [exact Ha |]. exists []. by rewrite app_nil_r.
  - intros a b c Hab Hbc Ha.
    destruct (Hab Ha) as (Hb & n1 & K1 & F1).
    destruct (Hbc Hb) as (Hc & n2 & K2 & F2).
    split; [exact Hc |]. exists (n1 ++ n2). split.
    + by rewrite K2, K1, app_assoc.
    + by apply Forall_app.
Qed.

Global Instance sprite_appends_preorder I P : PreOrder (sprite_appends I P).
Proof.
  split.
  - intros a Ha. split; [exact Ha |]. exists []. by rewrite app_nil_r.
  - intros a b c Hab Hbc Ha.
    destruct (Hab Ha) as (Hb & n1 & K1 & F1).
    destruct (Hbc Hb) as (Hc & n2 & K2 & F2).
    split; [exact Hc |]. exists (n1 ++ n2). split.
    + by rewrite K2, K1, app_assoc.
    + by apply Forall_app.
Qed.

Lemma pose_insert_on_visemes_keys env props vd wt (a : PoseAssets.Animator) :
  exists vis_keys,
    PoseAssets.keyframes (PoseAssets._insert_on_visemes env props vd wt a)
    = PoseAssets.keyframes a ++ vis_keys
    /\ Forall (pose_viseme_key (PoseAssets.pose_assets_actions a) vd wt) vis_keys.
Proof.
  unfold PoseAssets._insert_on_visemes.
  assert (Hd : (if negb (obj_is_armature env)
                then PoseAssets.consume env
                       {| PoseAssets.frame := -1; PoseAssets.viseme := "";
                          PoseAssets.action := None; PoseAssets.action_name := None;
                          PoseAssets.viseme_index := -1 |} a
                else a) = a) by (by destruct (negb _)).
  rewrite Hd.
  set (acts := PoseAssets.pose_assets_actions a).
  pose (I := fun x => PoseAssets.pose_assets_actions x = acts).
  destruct (pose_visit_visemes_ind env (pose_appends I (pose_viseme_key acts vd wt))
              props vd wt (enumerate (visemes vd))) with (a := a) as (_ & new & K & F);
    [| reflexivity | by exists new].
  intros i v x Hin Hx. unfold I in Hx.
  destruct (pose_visit_viseme_cases env props vd wt i v x)
    as [-> | (act & Hact & _ & K & _ & _ & Hacts)].
  - split; [exact Hx |]. exists []. split; [by rewrite app_nil_r | constructor].
  - split; [unfold I; congruence |]. eexists. split; [exact K |].
    repeat constructor. exists i, v. rewrite <- Hx. by repeat split.
Qed.

Lemma sprite_visit_viseme_appends props vd wt i v (s : SpriteSheet.Animator) :
  (i, v) ∈ enumerate (visemes vd) ->
  sprite_appends (fun _ => True) (sprite_viseme_key props vd wt) s
    (SpriteSheet.exec (SpriteSheet.visit_viseme props vd wt i v) s).
Proof.
  intros Hin _. split; [done |].
  unfold SpriteSheet.visit_viseme.
  rewrite sprite_exec_bind. unfold SpriteSheet.modify at 1. simpl.
  rewrite sprite_exec_bind. unfold SpriteSheet.viseme_prop.
  destruct (lip_sync_2d_viseme props !! v) as [idx|] eqn:Hidx.
  2: { exists []. split; [by rewrite app_nil_r | constructor]. }
  unfold SpriteSheet.ret at 1. simpl.
  rewrite sprite_exec_bind. unfold SpriteSheet.get at 1. simpl.
  destruct (SpriteSheet.skip_condition _ props v _).
  { exists []. split; [by rewrite app_nil_r | constructor]. }
  rewrite sprite_exec_bind.
  set (s1 := SpriteSheet.set_is_last_viseme _ s).
  set (item := SpriteSheet.Build_ShapeKeyAnimationData _ _ _ _ _).
  assert (Hc : sprite_appends (fun _ => True) (sprite_viseme_key props vd wt) s1
                 (SpriteSheet.exec (SpriteSheet.consume item) s1)).
  { unfold SpriteSheet.consume. rewrite sprite_exec_bind.
    unfold SpriteSheet.get at 1. simpl.
    apply (sprite_for_each_ind _). intros fcurve s2 _ _. split; [done |].
    rewrite sprite_exec_bind. unfold SpriteSheet.modify. simpl.
    eexists. split; [reflexivity |]. repeat constructor.
    exists i, v. by repeat split. }
  destruct (Hc I) as (_ & new & K & F). unfold SpriteSheet.exec in K.
  destruct (SpriteSheet.consume item s1) as [[e|[]] s2]; simpl in K.
  - by exists new.
  - unfold SpriteSheet.exec, SpriteSheet.modify. simpl. by exists new.
Qed.

Lemma sprite_insert_on_visemes_keys props vd wt (s : SpriteSheet.Animator) :
  exists vis_keys,
    SpriteSheet.keyframes
      (SpriteSheet.exec (SpriteSheet._insert_on_visemes props vd wt) s)
    = SpriteSheet.keyframes s ++ vis_keys
    /\ Forall (sprite_viseme_key props vd wt) vis_keys.
Proof.
  unfold SpriteSheet._insert_on_visemes.
  destruct (sprite_for_each_ind
              (sprite_appends (fun _ => True) (sprite_viseme_key props vd wt))
              (fun iv => SpriteSheet.visit_viseme props vd wt iv.1 iv.2)
              (enumerate (visemes vd))) with (s := s) as (_ & new & K & F);
    [| done | by exists new].
  intros [i v] s1 Hin. by apply sprite_visit_viseme_appends.
Qed.

Global Instance sprite_silence_step_preorder props :
  PreOrder (sprite_silence_step props).
Proof.
  split.
  - intros s. split; [reflexivity |]. exists []. by rewrite app_nil_r.
  - intros s1 s2 s3 (A1 & n1 & K1 & F1) (A2 & n2 & K2 & F2).
    split; [congruence |]. exists (n1 ++ n2). split.
    + by rewrite K2, K1, app_assoc.
    + by apply Forall_app.
Qed.

(** Whatever its outcome, the silence pass of the sprite-sheet animator
    keeps the attributes and appends keyframes of the silence sprite only. *)
Lemma sprite_insert_silences_step env props vd (s : SpriteSheet.Animator) :
  sprite_silence_step props s
    (SpriteSheet.exec (SpriteSheet.insert_silences env props vd) s).
Proof.
  set (R := sprite_silence_step props).
  assert (Hend : forall fcurve s1,
             R s1 (SpriteSheet.exec (SpriteSheet.word_end_silence props vd fcurve) s1)).
  { intros fcurve s1.
    unfold SpriteSheet.word_end_silence, SpriteSheet.viseme_prop.
    destruct (lip_sync_2d_viseme props !! "sil"%string) as [value|] eqn:Hsil;
      [| reflexivity].
    unfold SpriteSheet.exec, mbind, SpriteSheet.M_bind, SpriteSheet.bind,
      SpriteSheet.get, SpriteSheet.modify, SpriteSheet.ret. simpl.
    destruct (SpriteSheet.is_last_word s1);
      (split; [reflexivity |]); simpl; rewrite <- ?app_assoc;
      eexists; (split; [reflexivity |]); by repeat constructor. }
  assert (Hfirst : forall fcurve s1,
             R s1 (SpriteSheet.exec (SpriteSheet.first_word_silence env props fcurve) s1)).
  { intros fcurve s1.
    unfold SpriteSheet.first_word_silence, SpriteSheet.viseme_prop.
    destruct (lip_sync_2d_viseme props !! "sil"%string) as [value|] eqn:Hsil;
      [| reflexivity].
    unfold SpriteSheet.exec, mbind, SpriteSheet.M_bind, SpriteSheet.bind,
      SpriteSheet.get, SpriteSheet.modify, SpriteSheet.ret. simpl.
    split; [reflexivity |]. simpl.
    eexists. split; [reflexivity |]. by repeat constructor. }
  assert (Hblock1 : forall (b : bool) s1,
             R s1 (SpriteSheet.exec
                     (if b then SpriteSheet.for_each (seq 0 (SpriteSheet.fcurves s))
                                  (SpriteSheet.word_end_silence props vd)
                      else SpriteSheet.ret tt) s1)).
  { intros [] s1; [| reflexivity]. apply (sprite_for_each_ind R). auto. }
  assert (Hblock2 : forall (b : bool) s1,
             R s1 (SpriteSheet.exec
                     (if b then SpriteSheet.for_each (seq 0 (SpriteSheet.fcurves s))
                                  (SpriteSheet.first_word_silence env props)
                      else SpriteSheet.ret tt) s1)).
  { intros [] s1; [| reflexivity]. apply (sprite_for_each_ind R). auto. }
  unfold SpriteSheet.insert_silences.
  rewrite sprite_exec_bind. unfold SpriteSheet.get at 1. simpl.
  rewrite sprite_exec_bind.
  set (b := bool_decide (SpriteSheet.silence_frame_threshold s
                         < SpriteSheet.delay_until_next_word s)
            || SpriteSheet.is_last_word s).
  pose proof (Hblock1 b s) as H1.
  set (block := if b then SpriteSheet.for_each (seq 0 (SpriteSheet.fcurves s))
                            (SpriteSheet.word_end_silence props vd)
                else SpriteSheet.ret tt) in *.
  unfold SpriteSheet.exec in H1 at 1.
  destruct (block s) as [[e|[]] s1]; simpl in H1; [exact H1 |].
  transitivity s1; [exact H1 | apply Hblock2].
Qed.

Lemma sprite_insert_silences_keys env props vd (s : SpriteSheet.Animator) :
  exists sil_keys,
    SpriteSheet.keyframes
      (SpriteSheet.exec (SpriteSheet.insert_silences env props vd) s)
    = SpriteSheet.keyframes s ++ sil_keys
    /\ Forall (fun k => lip_sync_2d_viseme props !! "sil"%string
                        = Some (SpriteSheet.kf_value k)) sil_keys.
Proof. by destruct (sprite_insert_silences_step env props vd s) as (_ & H). Qed.

(** C8 (amended): in both animators the keyframes of a word are written
    silences first: the keyframes [insert_keyframes] adds are those the
    silence pass adds, all of the silence pose (sprite), followed by those of
    the viseme slots of the word. *)
Theorem silences_before_visemes (env : Env) (a : PoseAssets.Animator)
    (s : SpriteSheet.Animator) (props : Props) (vd : VisemeData)
    (wt : WordTiming) (delay : Z) (last : bool) (index : Z) :
  (exists sil_keys vis_keys,
      PoseAssets.keyframes
        (PoseAssets.insert_silences env vd (PoseAssets.set_word wt delay last index a))
      = PoseAssets.keyframes a ++ sil_keys
      /\ PoseAssets.keyframes
           (PoseAssets.insert_keyframes env props vd wt delay last index a)
         = PoseAssets.keyframes a ++ sil_keys ++ vis_keys
      /\ Forall (fun k => lip_sync_2d_viseme_pose (PoseAssets.props a) !! "sil"%string
                          = Some (PoseAssets.kf_action k)) sil_keys
      /\ Forall (pose_viseme_key (PoseAssets.pose_assets_actions a) vd wt) vis_keys)
  /\ (exists sil_keys vis_keys,
        SpriteSheet.keyframes
          (SpriteSheet.exec (SpriteSheet.insert_silences env props vd)
             (SpriteSheet.set_word wt delay last index s))
        = SpriteSheet.keyframes s ++ sil_keys
        /\ SpriteSheet.keyframes
             (SpriteSheet.exec
                (SpriteSheet.insert_keyframes env props vd wt delay last index) s)
           = SpriteSheet.keyframes s ++ sil_keys ++ vis_keys
        /\ Forall (fun k => lip_sync_2d_viseme props !! "sil"%string
                            = Some (SpriteSheet.kf_value k)) sil_keys
        /\ Forall (sprite_viseme_key props vd wt) vis_keys).
Proof.
  split.
  - set (a1 := PoseAssets.set_word wt delay last index a).
    destruct (pose_insert_silences_keys env vd a1) as (sil_keys & Ks & Fs).
    destruct (pose_insert_silences_attrs env vd a1) as (_ & _ & _ & Hacts & _).
    destruct (pose_insert_on_visemes_keys env props vd wt
                (PoseAssets.insert_silences env vd a1)) as (vis_keys & Kv & Fv).
    exists sil_keys, vis_keys. split; [| split; [| split]].
    + exact Ks.
    + unfold PoseAssets.insert_keyframes. fold a1.
      rewrite Kv, Ks. symmetry. apply app_assoc.
    + exact Fs.
    + by rewrite Hacts in Fv.
  - set (s1 := SpriteSheet.set_word wt delay last index s).
    destruct (sprite_insert_silences_keys env props vd s1) as (sil_keys & Ks & Fs).
    unfold SpriteSheet.insert_keyframes.
    rewrite sprite_exec_bind. unfold SpriteSheet.modify at 1. simpl. fold s1.
    rewrite sprite_exec_bind.
    unfold SpriteSheet.exec in Ks at 1.
    unfold SpriteSheet.exec at 1.
    destruct (SpriteSheet.insert_silences env props vd s1) as [[e|[]] s2];
      simpl in Ks; simpl.
    + exists sil_keys, []. rewrite app_nil_r.
      split; [| split; [| split]]; [exact Ks | exact Ks | exact Fs | constructor].
    + destruct (sprite_insert_on_visemes_keys props vd wt s2)
        as (vis_keys & Kv & Fv).
      exists sil_keys, vis_keys.
      split; [| split; [| split]]; [exact Ks | | exact Fs | exact Fv].
      rewrite Kv, Ks. symmetry. apply app_assoc.
Qed.

(** C8, as stated, fails: for the only word of an utterance the pose-assets
    animator writes the two silence keyframes first and the two viseme
    keyframes after them. *)
Lemma silence_keyframes_come_first :
  let props := demo_props demo_rest_poses ∅ false (6 # 24) in
  let run := bake demo_env demo_data props [demo_word_PP_kk] (PoseAssets.init props) in
  let silences := [pose_key "Rest" 18; pose_key "Rest" 7] in
  let visemes := [pose_key "Closed" 10; pose_key "Open" 12] in
  PoseAssets.keyframes
    (PoseAssets.insert_silences demo_env (visemes_data demo_word_PP_kk)
       (PoseAssets.set_word (word_timing demo_word_PP_kk) 28 true 0
          (demo_setup props)))
  = silences
  /\ PoseAssets.keyframes run.2 = silences ++ visemes
  /\ PoseAssets.keyframes run.2 ≠ visemes ++ silences.
Proof. vm_compute. repeat split. discriminate. Qed.

(** ** The state carried from slot to slot *)

(** The two outcomes of one slot of the sprite-sheet animator: the keyframes
    and the previous keyframe stay, or the sprite of the viseme is keyed on
    every F-curve on the slot's frame, which becomes [previous_start]. *)
Lemma sprite_visit_viseme_cases props vd wt i v (s : SpriteSheet.Animator) :
  let s' := SpriteSheet.exec (SpriteSheet.visit_viseme props vd wt i v) s in
  let f := viseme_frame_start_of wt vd i in
  (SpriteSheet.keyframes s' = SpriteSheet.keyframes s
   /\ SpriteSheet.previous_start s' = SpriteSheet.previous_start s
   /\ SpriteSheet.previous_viseme s' = SpriteSheet.previous_viseme s)
  \/ (exists value,
         lip_sync_2d_viseme props !! v = Some value
         /\ SpriteSheet.skip_condition s props v f = false
         /\ SpriteSheet.keyframes s'
            = SpriteSheet.keyframes s
              ++ flat_map (fun fcurve => [sprite_key fcurve f value])
                          (seq 0 (SpriteSheet.fcurves s))
         /\ SpriteSheet.previous_start s' = f
         /\ SpriteSheet.previous_viseme s' = Some v).
Proof.
  intros s' f. subst s'. unfold SpriteSheet.visit_viseme. fold f.
  rewrite sprite_exec_bind. unfold SpriteSheet.modify at 1. simpl.
  rewrite sprite_exec_bind. unfold SpriteSheet.viseme_prop.
  destruct (lip_sync_2d_viseme props !! v) as [value|] eqn:Hv; [| by left].
  unfold SpriteSheet.ret at 1. simpl.
  rewrite sprite_exec_bind. unfold SpriteSheet.get at 1. simpl.
  set (s1 := SpriteSheet.set_is_last_viseme _ s).
  change (SpriteSheet.skip_condition s1 props v f)
    with (SpriteSheet.skip_condition s props v f).
  destruct (SpriteSheet.skip_condition s props v f) eqn:Hskip; [by left |].
  right. exists value. split; [reflexivity | split; [reflexivity |]].
  rewrite sprite_exec_bind.
  set (item := SpriteSheet.Build_ShapeKeyAnimationData _ _ _ _ _).
  assert (Hc : exists s2,
             SpriteSheet.consume item s1 = (inr tt, s2)
             /\ SpriteSheet.keyframes s2
                = SpriteSheet.keyframes s
                  ++ flat_map (fun fcurve => [sprite_key fcurve f value])
                              (seq 0 (SpriteSheet.fcurves s))).
  { unfold SpriteSheet.consume, mbind at 1, SpriteSheet.M_bind at 1,
      SpriteSheet.bind at 1, SpriteSheet.get at 1. simpl.
    destruct (sprite_for_each_keys
                (fun x => True)
                (fun fcurve => [sprite_key fcurve f value])
                (fun fcurve =>
                   SpriteSheet.modify (SpriteSheet.keyframe_points_insert fcurve f value)
                   ≫= fun _ => SpriteSheet.modify SpriteSheet.count_keyframe)
                (seq 0 (SpriteSheet.fcurves s))) with (s := s1)
      as (s2 & E & _ & K); [| done |].
    { intros fcurve s2 _. eexists. split; [reflexivity |]. by split. }
    by exists s2. }
  destruct Hc as (s2 & E & K). rewrite E.
  unfold SpriteSheet.exec, SpriteSheet.modify. simpl. by rewrite K.
Qed.

(** C10: silence insertion leaves [previous_start] and [previous_viseme] as
    they were, in both animators, so the skip decision of any later slot is
    the one that would be taken without the silences; a slot changes them
    only when it writes its viseme keyframe, to the frame and the viseme of
    that keyframe. *)
Theorem silences_keep_scheduler_state (env : Env) (a : PoseAssets.Animator)
    (s : SpriteSheet.Animator) (props : Props) (vd : VisemeData) :
  let a' := PoseAssets.insert_silences env vd a in
  let s' := SpriteSheet.exec (SpriteSheet.insert_silences env props vd) s in
  (PoseAssets.previous_start a' = PoseAssets.previous_start a
   /\ PoseAssets.previous_viseme a' = PoseAssets.previous_viseme a
   /\ forall p v f,
        PoseAssets.should_skip_keyframe env a' p v f
        = PoseAssets.should_skip_keyframe env a p v f)
  /\ (SpriteSheet.previous_start s' = SpriteSheet.previous_start s
      /\ SpriteSheet.previous_viseme s' = SpriteSheet.previous_viseme s
      /\ forall p v f,
           SpriteSheet.skip_condition s' p v f = SpriteSheet.skip_condition s p v f)
  /\ (forall p wt i v,
        let a2 := PoseAssets.visit_viseme env p vd wt i v a in
        let f := viseme_frame_start_of wt vd i in
        (PoseAssets.keyframes a2 = PoseAssets.keyframes a
         /\ PoseAssets.previous_start a2 = PoseAssets.previous_start a
         /\ PoseAssets.previous_viseme a2 = PoseAssets.previous_viseme a)
        \/ (exists act,
               PoseAssets.keyframes a2 = PoseAssets.keyframes a ++ [pose_key act f]
               /\ PoseAssets.previous_start a2 = f
               /\ PoseAssets.previous_viseme a2 = Some v))
  /\ (forall wt i v,
        let s2 := SpriteSheet.exec (SpriteSheet.visit_viseme props vd wt i v) s in
        let f := viseme_frame_start_of wt vd i in
        (SpriteSheet.keyframes s2 = SpriteSheet.keyframes s
         /\ SpriteSheet.previous_start s2 = SpriteSheet.previous_start s
         /\ SpriteSheet.previous_viseme s2 = SpriteSheet.previous_viseme s)
        \/ (exists value,
               SpriteSheet.keyframes s2
               = SpriteSheet.keyframes s
                 ++ flat_map (fun fcurve => [sprite_key fcurve f value])
                             (seq 0 (SpriteSheet.fcurves s))
               /\ SpriteSheet.previous_start s2 = f
               /\ SpriteSheet.previous_viseme s2 = Some v)).
Proof.
  intros a' s'. split; [| split; [| split]].
  - destruct (pose_insert_silences_attrs env vd a) as (Hs & Hv & Ht & _).
    fold a' in Hs, Hv, Ht. split; [exact Hs | split; [exact Hv |]].
    intros p v f.
    unfold PoseAssets.should_skip_keyframe,
      PoseAssets.should_skip_due_to_priority_conflict, PoseAssets.is_redundant,
      PoseAssets.is_prev_kframe_too_close, PoseAssets.has_already_a_kframe,
      PoseAssets.previous_viseme_known.
    by rewrite Hs, Hv, Ht.
  - destruct (sprite_insert_silences_step env props vd s) as (Hattrs & _).
    fold s' in Hattrs.
    destruct (sprite_attrs_fields _ _ Hattrs) as (_ & Ht & Hs & Hv & _).
    split; [exact Hs | split; [exact Hv |]].
    intros p v f.
    unfold SpriteSheet.skip_condition, SpriteSheet.has_already_a_kframe,
      SpriteSheet.is_prev_kframe_too_close, SpriteSheet.is_redundant.
    by rewrite Hs, Hv, Ht.
  - intros p wt i v a2 f.
    destruct (pose_visit_viseme_cases env p vd wt i v a)
      as [E | (act & _ & _ & K & Hs & Hv & _)].
    + left. subst a2. by rewrite E.
    + right. by exists act.
  - intros wt i v s2 f.
    destruct (sprite_visit_viseme_cases props vd wt i v s)
      as [H | (value & _ & _ & K & Hs & Hv)].
    + by left.
    + right. by exists value.
Qed.

(** ** A bake with any configuration *)

Section PoseBake.
Context (env : Env).
Implicit Types (a : PoseAssets.Animator) (props : Props).

Lemma get_available_actions_lookup a v act :
  v ∈ viseme_items_mpeg4_v2 env ->
  lip_sync_2d_viseme_pose (PoseAssets.props a) !! v = Some act ->
  PoseAssets.get_available_actions env a !! v = Some act.
Proof.
  intros Hin Hv. unfold PoseAssets.get_available_actions.
  apply elem_of_list_to_map_1'.
  - intros act' Hin'. apply list_elem_of_omap in Hin' as (id & _ & Hid).
    destruct (lip_sync_2d_viseme_pose (PoseAssets.props a) !! id) eqn:E;
      simplify_eq. congruence.
  - apply list_elem_of_omap. exists v. split; [exact Hin |]. by rewrite Hv.
Qed.

Lemma pose_extends_elem a a' k :
  pose_extends a a' -> k ∈ PoseAssets.keyframes a -> k ∈ PoseAssets.keyframes a'.
Proof. intros [new ->] Hk. apply elem_of_app. by left. Qed.

Lemma pose_insert_keyframes_extends props vd wt delay last index a :
  pose_extends a (PoseAssets.insert_keyframes env props vd wt delay last index a).
Proof.
  unfold PoseAssets.insert_keyframes.
  set (a1 := PoseAssets.set_word wt delay last index a).
  destruct (pose_insert_silences_keys env vd a1) as (ks & Ks & _).
  destruct (pose_insert_on_visemes_keys env props vd wt
              (PoseAssets.insert_silences env vd a1)) as (kv & Kv & _).
  exists (ks ++ kv). rewrite Kv, Ks. symmetry. apply app_assoc.
Qed.

(** The word loop never raises with the pose-assets animator, and only adds
    keyframes. *)
Lemma pose_auto_insert_keyframes_from props total (l : list (Z * InspectedWord)) a :
  (auto_insert_keyframes_from env props total l a).1 = None
  /\ pose_extends a (auto_insert_keyframes_from env props total l a).2.
Proof.
  revert a. induction l as [| [index w] l IH]; intros a; simpl.
  - split; reflexivity.
  - destruct (IH (PoseAssets.insert_keyframes env props (visemes_data w) (word_timing w)
                    (word_frame_start (next_word_timing w)
                     - ShapeKeys_get_corrected_end_frame
                         (word_frame_start (word_timing w)) (visemes_data w))
                    (bool_decide (index = total - 1)) index a)) as (Hnone & Hext).
    split; [exact Hnone |].
    etransitivity; [apply pose_insert_keyframes_extends | exact Hext].
Qed.

(** With no previous keyframe, the first slot of a word whose viseme has a
    pose is keyed on the first frame of the word. *)
Lemma pose_first_slot_keyed props vd wt v act a :
  PoseAssets.previous_viseme a = None ->
  PoseAssets.previous_start a = -1 ->
  PoseAssets.pose_assets_actions a !! v = Some act ->
  PoseAssets.keyframes (PoseAssets.visit_viseme env props vd wt 0 v a)
  = PoseAssets.keyframes a ++ [pose_key act (word_frame_start wt)].
Proof.
  intros Hpv Hps Hact.
  assert (Hskip : PoseAssets.should_skip_keyframe env a props v
                    (viseme_frame_start_of wt vd 0) = false).
  { rewrite should_skip_keyframe_unfold, priority_conflict_unknown by exact Hpv.
    unfold PoseAssets.is_redundant, PoseAssets.is_prev_kframe_too_close.
    by rewrite Hpv, Hps. }
  destruct (pose_visit_viseme_cases env props vd wt 0 v a)
    as [E | (act' & Hact' & _ & K & _)].
  - exfalso. revert E. unfold PoseAssets.visit_viseme.
    change (PoseAssets.pose_assets_actions (PoseAssets.set_is_last_viseme _ a))
      with (PoseAssets.pose_assets_actions a).
    rewrite Hact, should_skip_keyframe_set_is_last_viseme, Hskip.
    intros E. apply (f_equal PoseAssets.previous_viseme) in E. simpl in E.
    congruence.
  - rewrite K. assert (act' = act) as -> by congruence.
    unfold viseme_frame_start_of.
    rewrite float_mul_0_l. change (py_round 0) with 0. by rewrite Z.add_0_r.
Qed.

(** Whatever its outcome, [setup] leaves the attributes [setup_properties]
    has set, with [pose_assets_actions] assigned or not. *)
Lemma pose_setup_animator (data : PoseAssets.Data) props a :
  let configured := PoseAssets.setup_properties env props a in
  let ready :=
    PoseAssets.set_pose_assets_actions
      (PoseAssets.get_available_actions env configured) configured in
  PoseAssets.animator_of (PoseAssets.setup env data props a) = configured
  \/ PoseAssets.animator_of (PoseAssets.setup env data props a) = ready.
Proof.
  intros configured ready.
  unfold PoseAssets.setup, PoseAssets.setup_animation_properties.
  fold configured.
  destruct (PoseAssets.set_up_action env data) as [e | [channelbag |]];
    [by left | | by left].
  destruct (PoseFCurves.setup_fcurves _ _ _ _ _ _).1; by right.
Qed.

(** A [setup] that returns ready has assigned the available actions. *)
Lemma pose_setup_ready (data : PoseAssets.Data) props a :
  setup_ready (PoseAssets.setup env data props a) = true ->
  let configured := PoseAssets.setup_properties env props a in
  exists channelbag,
    PoseAssets.setup env data props a
    = PoseAssets.Ready
        (PoseAssets.set_pose_assets_actions
           (PoseAssets.get_available_actions env configured) configured)
        channelbag.
Proof.
  intros Hready configured. revert Hready.
  unfold PoseAssets.setup, PoseAssets.setup_animation_properties.
  fold configured.
  destruct (PoseAssets.set_up_action env data) as [e | [channelbag |]];
    [discriminate | | discriminate].
  destruct (PoseFCurves.setup_fcurves _ _ _ _ _ _) as [[e |] channelbag'];
    [discriminate |].
  intros _. by eexists.
Qed.

(** On an animator left unassigned the loop over the words writes nothing. *)
Lemma pose_unassigned_loop_keeps (data : PoseAssets.Data) total
    (l : list (Z * InspectedWord)) a :
  let run := auto_insert_keyframes_unassigned_from data total l a in
  PoseAssets.keyframes run.2 = PoseAssets.keyframes a
  /\ PoseAssets.inserted_keyframes run.2 = PoseAssets.inserted_keyframes a.
Proof.
  revert a. induction l as [| [index w] l IH]; intros a; simpl.
  - split; reflexivity.
  - unfold PoseAssets.insert_keyframes_unassigned.
    destruct (match lip_sync_2d_viseme_pose _ !! "sil"%string with
              | Some _ => _ | None => _ end); [split; reflexivity |].
    destruct (visemes (visemes_data w)); [| split; reflexivity].
    destruct (IH (PoseAssets.set_word (word_timing w)
                    (word_frame_start (next_word_timing w)
                     - ShapeKeys_get_corrected_end_frame
                         (word_frame_start (word_timing w)) (visemes_data w))
                    (bool_decide (index = total - 1)) index a)) as [Hk Hc].
    split; [exact Hk | exact Hc].
Qed.

End PoseBake.

(** C9 (amended): the configuration is not validated.  Whatever the sign of
    the thresholds and of the frame rate behind [time_to_frame],
    [setup_properties] of the pose-assets animator stores the frame counts of
    its three settings as they are, and the one of the sprite-sheet animator
    stores the silence threshold as it is and the in-between threshold
    raised to at least one frame.  When the [setup] of the pose-assets
    animator returns with its channelbag and its actions assigned, the
    animator holds these frame counts, the loop over the words raises
    nothing, and the words are processed: the first viseme of the first
    word, if it has a pose, is keyed on the first frame of the word. *)
Theorem bake_runs_on_any_configuration (env : Env) (data : PoseAssets.Data)
    (props : Props) (w : InspectedWord) (rest : list InspectedWord)
    (a0 : PoseAssets.Animator) (s0 : SpriteSheet.Animator) :
  let configured := PoseAssets.setup_properties env props a0 in
  let sprite := SpriteSheet.setup_properties env props s0 in
  (PoseAssets.silence_frame_threshold configured
   = time_to_frame env (lip_sync_2d_sil_threshold props)
   /\ PoseAssets.in_between_frame_threshold configured
      = time_to_frame env (lip_sync_2d_in_between_threshold props)
   /\ PoseAssets.close_motion_duration configured
      = time_to_frame env (lip_sync_2d_close_motion_duration props))
  /\ (SpriteSheet.silence_frame_threshold sprite
      = time_to_frame env (lip_sync_2d_sps_sil_threshold props)
      /\ SpriteSheet.in_between_frame_threshold sprite
         = Z.max 1 (time_to_frame env (lip_sync_2d_sps_in_between_threshold props)))
  /\ (setup_ready (PoseAssets.setup env data props a0) = true ->
      let ready := PoseAssets.animator_of (PoseAssets.setup env data props a0) in
      let run := bake env data props (w :: rest) a0 in
      (PoseAssets.silence_frame_threshold ready
       = PoseAssets.silence_frame_threshold configured
       /\ PoseAssets.in_between_frame_threshold ready
          = PoseAssets.in_between_frame_threshold configured
       /\ PoseAssets.close_motion_duration ready
          = PoseAssets.close_motion_duration configured)
      /\ run.1 = None
      /\ forall v vs act,
           visemes (visemes_data w) = v :: vs ->
           v ∈ viseme_items_mpeg4_v2 env ->
           lip_sync_2d_viseme_pose props !! v = Some act ->
           pose_key act (word_frame_start (word_timing w))
           ∈ PoseAssets.keyframes run.2).
Proof.
  intros configured sprite.
  split; [split; [reflexivity | split; reflexivity] |].
  split; [split; reflexivity |].
  intros Hready ready run.
  destruct (pose_setup_ready env data props a0 Hready) as [channelbag E].
  fold configured in E.
  subst ready run. unfold bake. rewrite E. simpl PoseAssets.animator_of.
  set (ready := PoseAssets.set_pose_assets_actions _ configured).
  split; [split; [reflexivity | split; reflexivity] |].
  unfold auto_insert_keyframes, enumerate. simpl.
  set (wt := word_timing w). pose (vd := visemes_data w).
  set (delay := word_frame_start (next_word_timing w) - _).
  set (last := bool_decide (0 = _)).
  destruct (pose_auto_insert_keyframes_from env props
              (Z.of_nat (S (length rest))) (enumerate_from (0 + 1) rest)
              (PoseAssets.insert_keyframes env props (visemes_data w) wt delay last 0 ready))
    as (Hnone & Hext).
  split; [by rewrite Hnone |].
  intros v vs act Hvs Hin Hact.
  apply (pose_extends_elem _ _ _ Hext).
  unfold PoseAssets.insert_keyframes, PoseAssets._insert_on_visemes.
  set (a1 := PoseAssets.insert_silences env (visemes_data w)
               (PoseAssets.set_word wt delay last 0 ready)).
  assert (Hd : (if negb (obj_is_armature env)
                then PoseAssets.consume env
                       {| PoseAssets.frame := -1; PoseAssets.viseme := "";
                          PoseAssets.action := None; PoseAssets.action_name := None;
                          PoseAssets.viseme_index := -1 |} a1
                else a1) = a1) by (by destruct (negb _)).
  rewrite Hd, Hvs. simpl.
  destruct (pose_insert_silences_attrs env (visemes_data w)
              (PoseAssets.set_word wt delay last 0 ready))
    as (Hps & Hpv & _ & Hacts & _). fold a1 in Hps, Hpv, Hacts. fold vd.
  eapply pose_extends_elem.
  - apply (pose_visit_visemes_ind env pose_extends).
    intros i' v' a' _. destruct (pose_visit_viseme_cases env props vd wt i' v' a')
      as [-> | (act' & _ & _ & K & _)].
    + exists []. simpl. by rewrite app_nil_r.
    + by eexists.
  - rewrite (pose_first_slot_keyed env props vd wt v act a1).
    + apply elem_of_app. right. by left.
    + by rewrite Hpv.
    + by rewrite Hps.
    + rewrite Hacts. simpl. apply get_available_actions_lookup; [exact Hin | exact Hact].
Qed.

Lemma bake_runs_on_any_configuration_witness :
  let props := demo_negative_props demo_rest_poses in
  let run := bake demo_env demo_data props [demo_word_PP_kk] (PoseAssets.init props) in
  setup_ready (PoseAssets.setup demo_env demo_data props (PoseAssets.init props)) = true
  /\ visemes (visemes_data demo_word_PP_kk) = ["PP"; "kk"]%string
  /\ "PP"%string ∈ viseme_items_mpeg4_v2 demo_env
  /\ lip_sync_2d_viseme_pose props !! "PP"%string = Some "Closed"%string
  /\ PoseAssets.in_between_frame_threshold
       (demo_setup props) = -1
  /\ run.1 = None
  /\ pose_key "Closed" 10 ∈ PoseAssets.keyframes run.2.
Proof.
  intros props run.
  assert (Hready : setup_ready (PoseAssets.setup demo_env demo_data props
                                  (PoseAssets.init props)) = true)
    by (vm_compute; reflexivity).
  assert (Hin : "PP"%string ∈ viseme_items_mpeg4_v2 demo_env)
    by (vm_compute; right; left).
  destruct (bake_runs_on_any_configuration demo_env demo_data props demo_word_PP_kk []
              (PoseAssets.init props) (SpriteSheet.init 1))
    as (_ & _ & H).
  destruct (H Hready) as ((_ & H2 & _) & H4 & H5).
  split; [exact Hready |]. split; [reflexivity |]. split; [exact Hin |].
  split; [reflexivity |].
  split; [| split];
    [unfold demo_setup; rewrite H2; reflexivity | exact H4
    | exact (H5 "PP"%string ["kk"%string] "Closed"%string eq_refl Hin eq_refl)].
Defined.

(** C9, as stated, fails: with every threshold negative, and also with a
    negative frame rate, the setup raises nothing, the thresholds become
    negative frame counts and the keyframes of the word are written. *)
Lemma negative_configuration_is_baked :
  let negative := demo_negative_props demo_rest_poses in
  let positive := demo_props demo_rest_poses ∅ false (6 # 24) in
  let run1 := bake demo_env demo_data negative [demo_word_PP_kk] (PoseAssets.init negative) in
  let run2 := bake (demo_env_at (-24)) demo_data positive [demo_word_PP_kk]
                (PoseAssets.init positive) in
  let keys := [pose_key "Rest" 6; pose_key "Rest" 9;
               pose_key "Closed" 10; pose_key "Open" 12] in
  (lip_sync_2d_in_between_threshold negative < 0)%Q
  /\ setup_ready (PoseAssets.setup demo_env demo_data negative
                    (PoseAssets.init negative)) = true
  /\ PoseAssets.in_between_frame_threshold run1.2 = -1
  /\ PoseAssets.silence_frame_threshold run1.2 = -5
  /\ run1.1 = None
  /\ PoseAssets.keyframes run1.2 = keys
  /\ setup_ready (PoseAssets.setup (demo_env_at (-24)) demo_data positive
                    (PoseAssets.init positive)) = true
  /\ PoseAssets.in_between_frame_threshold run2.2 = -1
  /\ run2.1 = None
  /\ PoseAssets.keyframes run2.2 = keys
  /\ SpriteSheet.silence_frame_threshold
       (SpriteSheet.setup_properties demo_env negative (SpriteSheet.init 1)) = -5
  /\ SpriteSheet.in_between_frame_threshold
       (SpriteSheet.setup_properties demo_env negative (SpriteSheet.init 1)) = 1.
Proof. vm_compute. repeat split. Qed.

(** * Further properties of the animators *)

(** ** Silences between two words *)

(** X1: for a word that is not the last one and is followed by a gap longer
    than the silence threshold, the pose-assets animator with a silence pose
    writes two end-of-word silence keyframes, a closing one and a rest one;
    when [1 <= in_between_frame_threshold < delay] they are in order and lie
    strictly between the corrected end of the word and that end plus the
    delay (the start of the next word). *)
Theorem pose_between_words_silences (env : Env) (vd : VisemeData)
    (a : PoseAssets.Animator) (act : Action) :
  lip_sync_2d_viseme_pose (PoseAssets.props a) !! "sil"%string = Some act ->
  PoseAssets.is_last_word a = false ->
  PoseAssets.silence_frame_threshold a < PoseAssets.delay_until_next_word a ->
  let c := ShapeKeys_get_corrected_end_frame (PoseAssets.word_start_frame a) vd in
  let d := PoseAssets.delay_until_next_word a in
  let t := PoseAssets.in_between_frame_threshold a in
  let f1 := c + Z.max 1 (Z.min (d - t) (PoseAssets.close_motion_duration a)) in
  let f2 := c + d - Z.max 1 t in
  PoseAssets.keyframes (PoseAssets.insert_silences env vd a)
  = PoseAssets.keyframes a
    ++ [pose_key act f1; pose_key act f2]
    ++ (if PoseAssets.is_first_word a then [pose_key act (pose_first_frame env a)] else [])
  /\ (1 <= t -> t < d -> c < f1 /\ f1 <= f2 /\ f2 < c + d).
Proof.
  intros Hsil Hlast Hgap c d t f1 f2. split.
  - unfold PoseAssets.insert_silences.
    rewrite Hsil, Hlast, (bool_decide_eq_true_2 _ Hgap). simpl.
    destruct (PoseAssets.is_first_word a); simpl; by rewrite <- ?app_assoc.
  - subst f1 f2. lia.
Qed.

Lemma pose_between_words_silences_witness :
  let a := PoseAssets.set_word (word_timing demo_word_PP_kk) 28 false 1
             (demo_setup (demo_props demo_rest_poses ∅ false (6 # 24))) in
  PoseAssets.is_last_word a = false
  /\ PoseAssets.silence_frame_threshold a < PoseAssets.delay_until_next_word a
  /\ PoseAssets.keyframes
       (PoseAssets.insert_silences demo_env (visemes_data demo_word_PP_kk) a)
     = [pose_key "Rest" 18; pose_key "Rest" 39].
Proof.
  intros a.
  destruct (pose_between_words_silences demo_env (visemes_data demo_word_PP_kk) a "Rest")
    as [H _]; [reflexivity | reflexivity | reflexivity |].
  split; [reflexivity | split; [reflexivity |]].
  rewrite H. reflexivity.
Defined.

(** X2: a word that is neither the first nor the last and whose gap to the
    next word does not exceed the silence threshold gets no silence at all:
    the pose-assets animator is left as it was, and the sprite-sheet animator
    too, without reading the silence sprite (so without [KeyError]). *)
Theorem no_silence_inside_a_phrase (env : Env) (props : Props) (vd : VisemeData)
    (a : PoseAssets.Animator) (s : SpriteSheet.Animator) :
  PoseAssets.is_last_word a = false ->
  PoseAssets.is_first_word a = false ->
  PoseAssets.delay_until_next_word a <= PoseAssets.silence_frame_threshold a ->
  SpriteSheet.is_last_word s = false ->
  SpriteSheet.is_first_word s = false ->
  SpriteSheet.delay_until_next_word s <= SpriteSheet.silence_frame_threshold s ->
  PoseAssets.insert_silences env vd a = a
  /\ SpriteSheet.insert_silences env props vd s = (inr tt, s).
Proof.
  intros Hl Hf Hd Hsl Hsf Hsd. split.
  - unfold PoseAssets.insert_silences.
    rewrite Hl, bool_decide_eq_false_2 by lia. simpl.
    destruct (_ !! _); [| reflexivity]. by rewrite Hf.
  - unfold SpriteSheet.insert_silences, mbind, SpriteSheet.M_bind,
      SpriteSheet.bind, SpriteSheet.get.
    rewrite Hsl, Hsf, bool_decide_eq_false_2 by lia. reflexivity.
Qed.

Lemma no_silence_inside_a_phrase_witness :
  let a := demo_pose_at_word demo_rest_poses (6 # 24) demo_word_10 false 1 in
  let s := demo_sprite_at_word demo_word_10 false 1 in
  PoseAssets.delay_until_next_word a <= PoseAssets.silence_frame_threshold a
  /\ PoseAssets.insert_silences demo_env (visemes_data demo_word_10) a = a
  /\ SpriteSheet.insert_silences demo_env demo_sprite_props (visemes_data demo_word_10) s
     = (inr tt, s).
Proof.
  intros a s. split; [vm_compute; discriminate |].
  apply (no_silence_inside_a_phrase demo_env demo_sprite_props
           (visemes_data demo_word_10) a s);
    first [reflexivity | vm_compute; discriminate].
Defined.

(** ** What a bake keeps *)

Lemma pose_written_app env (k1 k2 : list PoseAssets.Keyframe) :
  pose_written env (k1 ++ k2) = pose_written env k1 + pose_written env k2.
Proof.
  unfold pose_written. induction k1 as [| k k1 IH]; simpl; [reflexivity |].
  rewrite IH. lia.
Qed.

(** [pose_keeps J]: the steps that keep the property [J] of the animator. *)
Lemma pose_keeps_preorder (J : PoseAssets.Animator -> Prop) :
  PreOrder (fun a a' => J a -> J a').
Proof. split; [by intros a | intros a b c Hab Hbc Ha; auto]. Qed.

Lemma same_image_preorder {A B} (f : A -> B) :
  PreOrder (fun x y => f y = f x).
Proof. split; [by intros x | intros x y z Hxy Hyz; congruence]. Qed.

Lemma pose_insert_keyframe_points_config env act f a :
  pose_config (PoseAssets.insert_keyframe_points env act f a) = pose_config a.
Proof. reflexivity. Qed.

Lemma pose_insert_silences_config env vd a :
  pose_config (PoseAssets.insert_silences env vd a) = pose_config a.
Proof.
  unfold PoseAssets.insert_silences.
  destruct (_ !! _); [| reflexivity].
  destruct (bool_decide _ || PoseAssets.is_last_word a);
    [destruct (PoseAssets.is_last_word a) |]; simpl;
    destruct (PoseAssets.is_first_word a); reflexivity.
Qed.

Lemma pose_visit_viseme_config env props vd wt i v a :
  pose_config (PoseAssets.visit_viseme env props vd wt i v a) = pose_config a.
Proof.
  unfold PoseAssets.visit_viseme.
  destruct (_ !! v); [| reflexivity].
  destruct (PoseAssets.should_skip_keyframe _ _ _ _ _); reflexivity.
Qed.

Lemma pose_insert_keyframes_config env props vd wt delay last index a :
  pose_config (PoseAssets.insert_keyframes env props vd wt delay last index a)
  = pose_config a.
Proof.
  unfold PoseAssets.insert_keyframes, PoseAssets._insert_on_visemes.
  set (a1 := PoseAssets.insert_silences env vd _).
  assert (H1 : pose_config a1 = pose_config a)
    by (subst a1; by rewrite pose_insert_silences_config).
  set (a2 := if negb (obj_is_armature env) then _ else a1).
  assert (H2 : pose_config a2 = pose_config a)
    by (subst a2; by destruct (negb _)).
  rewrite <- H2.
  apply (pose_visit_visemes_ind env (fun x y => pose_config y = pose_config x)
           (PreOrder0 := same_image_preorder pose_config)).
  intros i v x _. apply pose_visit_viseme_config.
Qed.

Lemma pose_auto_insert_keyframes_ind env (R : relation PoseAssets.Animator)
    `{!PreOrder R} props total (l : list (Z * InspectedWord)) :
  (forall vd wt delay last index a,
      R a (PoseAssets.insert_keyframes env props vd wt delay last index a)) ->
  forall a, R a (auto_insert_keyframes_from env props total l a).2.
Proof.
  intros Hstep. induction l as [| [index w] l IH]; intros a; simpl.
  - reflexivity.
  - etransitivity; [apply Hstep | apply IH].
Qed.

(** The counter and the keyframes advance together. *)
Lemma pose_insert_keyframes_counts env props vd wt delay last index a :
  PoseAssets.inserted_keyframes a = pose_written env (PoseAssets.keyframes a) ->
  let a' := PoseAssets.insert_keyframes env props vd wt delay last index a in
  PoseAssets.inserted_keyframes a' = pose_written env (PoseAssets.keyframes a').
Proof.
  set (J := fun x => PoseAssets.inserted_keyframes x
                     = pose_written env (PoseAssets.keyframes x)).
  assert (Hk : forall act f x, J x -> J (PoseAssets.insert_keyframe_points env act f x)).
  { intros act f x Hx. unfold J in *. simpl.
    rewrite pose_written_app, Hx. f_equal.
    unfold pose_written. simpl. symmetry. apply Z.add_0_r. }
  intros Ha. change (J (PoseAssets.insert_keyframes env props vd wt delay last index a)).
  change (J a) in Ha.
  unfold PoseAssets.insert_keyframes, PoseAssets._insert_on_visemes.
  set (a0 := PoseAssets.set_word wt delay last index a).
  assert (H0 : J a0) by exact Ha.
  assert (H1 : J (PoseAssets.insert_silences env vd a0)).
  { unfold PoseAssets.insert_silences.
    destruct (_ !! _); [| exact H0].
    destruct (PoseAssets.is_first_word a0) eqn:Hf;
      destruct (bool_decide _ || PoseAssets.is_last_word a0);
      [destruct (PoseAssets.is_last_word a0) | | destruct (PoseAssets.is_last_word a0) |];
      cbv beta iota zeta;
      match goal with
      | |- context [PoseAssets.is_first_word ?X] =>
          change (PoseAssets.is_first_word X) with (PoseAssets.is_first_word a0)
      end;
      rewrite Hf; cbv beta iota; repeat apply Hk; exact H0. }
  set (a1 := PoseAssets.insert_silences env vd a0) in *.
  assert (H2 : J (if negb (obj_is_armature env)
                  then PoseAssets.consume env
                         {| PoseAssets.frame := -1; PoseAssets.viseme := "";
                            PoseAssets.action := None; PoseAssets.action_name := None;
                            PoseAssets.viseme_index := -1 |} a1
                  else a1)) by (by destruct (negb _)).
  revert H2.
  apply (pose_visit_visemes_ind env (fun x y => J x -> J y)
           (PreOrder0 := pose_keeps_preorder J)).
  intros i v x _ Hx. unfold PoseAssets.visit_viseme.
  destruct (_ !! v); [| exact Hx].
  destruct (PoseAssets.should_skip_keyframe _ _ _ _ _); [exact Hx |].
  apply (Hk _ _ (PoseAssets.set_is_last_viseme _ x)). exact Hx.
Qed.

(** X3: at the end of a bake with the pose-assets animator, started on a
    fresh animator, the counter [inserted_keyframes] that the operator
    reports is the number of keyframes the recorded calls of
    [insert_keyframe_points] wrote, the silences included. *)
Theorem pose_bake_counts_every_keyframe (env : Env) (data : PoseAssets.Data)
    (props props0 : Props) (words : list InspectedWord) :
  let run := bake env data props words (PoseAssets.init props0) in
  PoseAssets.inserted_keyframes run.2
  = pose_written env (PoseAssets.keyframes run.2).
Proof.
  intros run. subst run. unfold bake.
  set (J := fun x => PoseAssets.inserted_keyframes x
                     = pose_written env (PoseAssets.keyframes x)).
  assert (H0 : J (PoseAssets.animator_of
                    (PoseAssets.setup env data props (PoseAssets.init props0)))).
  { destruct (pose_setup_animator env data props (PoseAssets.init props0))
      as [-> | ->]; reflexivity. }
  destruct (PoseAssets.setup env data props (PoseAssets.init props0))
    as [e a | a channelbag | a]; simpl in H0; simpl.
  - exact H0.
  - revert H0. unfold auto_insert_keyframes.
    apply (pose_auto_insert_keyframes_ind env (fun x y => J x -> J y)
             (PreOrder0 := pose_keeps_preorder J)).
    intros vd wt delay last index a'. apply pose_insert_keyframes_counts.
  - destruct (pose_unassigned_loop_keeps data (Z.of_nat (length words))
                (enumerate words) a) as [Hk Hc].
    unfold J in *. by rewrite Hk, Hc.
Qed.

(** ** Which visemes can be keyed *)

(** X8: a viseme has an available pose action exactly when it is one of the
    visemes of the table and its pose property is set, and the action is the
    one the property holds. *)
Theorem available_actions_spec (env : Env) (a : PoseAssets.Animator)
    (v : string) (act : Action) :
  PoseAssets.get_available_actions env a !! v = Some act
  <-> v ∈ viseme_items_mpeg4_v2 env
      /\ lip_sync_2d_viseme_pose (PoseAssets.props a) !! v = Some act.
Proof.
  split.
  - intros H. unfold PoseAssets.get_available_actions in H.
    apply elem_of_list_to_map_2 in H.
    apply list_elem_of_omap in H as (id & Hin & Hid).
    destruct (lip_sync_2d_viseme_pose (PoseAssets.props a) !! id) eqn:E;
      simplify_eq. by split.
  - intros [Hin Hv]. by apply get_available_actions_lookup.
Qed.

(** X9: a word none of whose visemes has an available pose action writes no
    viseme keyframe and leaves [previous_start] and [previous_viseme] as they
    were: such visemes are passed over, without any error. *)
Theorem pose_unmapped_visemes_are_passed_over (env : Env) (props : Props)
    (vd : VisemeData) (wt : WordTiming) (a : PoseAssets.Animator) :
  (forall v, v ∈ visemes vd -> PoseAssets.pose_assets_actions a !! v = None) ->
  let a' := PoseAssets._insert_on_visemes env props vd wt a in
  PoseAssets.keyframes a' = PoseAssets.keyframes a
  /\ PoseAssets.inserted_keyframes a' = PoseAssets.inserted_keyframes a
  /\ PoseAssets.previous_start a' = PoseAssets.previous_start a
  /\ PoseAssets.previous_viseme a' = PoseAssets.previous_viseme a.
Proof.
  intros Hnone a'. subst a'. unfold PoseAssets._insert_on_visemes.
  set (a1 := if negb (obj_is_armature env) then _ else a).
  assert (H1 : a1 = a) by (subst a1; by destruct (negb _)).
  rewrite H1. clear a1 H1.
  set (f := fun x : PoseAssets.Animator =>
              (PoseAssets.keyframes x, PoseAssets.inserted_keyframes x,
               PoseAssets.previous_start x, PoseAssets.previous_viseme x,
               PoseAssets.pose_assets_actions x)).
  assert (Hall : forall (l : list (Z * string)) x,
             (forall i v, (i, v) ∈ l -> PoseAssets.pose_assets_actions x !! v = None) ->
             f (PoseAssets.visit_visemes env props vd wt l x) = f x).
  { induction l as [| [i v] l IH]; intros x Hx; simpl; [reflexivity |].
    assert (Hv : PoseAssets.visit_viseme env props vd wt i v x
                 = PoseAssets.set_is_last_viseme
                     (bool_decide (i + 1 = visemes_len vd)) x).
    { unfold PoseAssets.visit_viseme.
      change (PoseAssets.pose_assets_actions (PoseAssets.set_is_last_viseme _ x))
        with (PoseAssets.pose_assets_actions x).
      by rewrite (Hx i v) by left. }
    rewrite Hv, IH; [reflexivity |].
    intros i' v' Hin. apply (Hx i' v'). by right. }
  assert (Henum : forall (l : list string) n i v,
             (i, v) ∈ enumerate_from n l -> v ∈ l).
  { induction l as [| u l IH]; intros n i v Hin; simpl in Hin.
    - by apply elem_of_nil in Hin.
    - apply elem_of_cons in Hin as [Heq | Hin]; [simplify_eq; left |].
      right. by apply (IH (n + 1) i v). }
  assert (Hf : f (PoseAssets.visit_visemes env props vd wt (enumerate (visemes vd)) a)
               = f a).
  { apply Hall. intros i v Hin. apply Hnone. by apply (Henum _ 0 i v). }
  unfold f in Hf. injection Hf. intros. repeat split; assumption.
Qed.

Lemma pose_unmapped_visemes_are_passed_over_witness :
  let props := demo_props demo_rest_poses ∅ false (6 # 24) in
  let a := demo_setup props in
  let w := demo_word 10 ["aa"; "E"]%string 2 40 in
  PoseAssets.keyframes
    (PoseAssets._insert_on_visemes demo_env props (visemes_data w) (word_timing w) a)
  = PoseAssets.keyframes a.
Proof.
  intros props a w.
  apply (pose_unmapped_visemes_are_passed_over demo_env props (visemes_data w)
           (word_timing w) a).
  intros v Hv. simpl in Hv.
  apply elem_of_cons in Hv as [-> | Hv]; [reflexivity |].
  apply elem_of_cons in Hv as [-> | Hv]; [reflexivity |].
  by apply elem_of_nil in Hv.
Defined.

(** ** Redundant and close slots within a word *)

Lemma enumerate_from_elem {A} (l : list A) (n i : Z) (x : A) :
  (i, x) ∈ enumerate_from n l -> x ∈ l.
Proof.
  revert n. induction l as [| u l IH]; intros n Hin; simpl in Hin.
  - by apply elem_of_nil in Hin.
  - apply elem_of_cons in Hin as [Heq | Hin]; [simplify_eq; left |].
    right. by apply (IH (n + 1)).
Qed.

(** Once a viseme of pose [act] is keyed, slots of the same pose write
    nothing. *)
Lemma pose_same_pose_slots_skipped env props vd wt act (l : list (Z * string)) :
  forall a pv,
    PoseAssets.previous_viseme a = Some pv ->
    pv ≠ "sil"%string ->
    lip_sync_2d_viseme_pose props !! pv = Some act ->
    (forall i v, (i, v) ∈ l -> lip_sync_2d_viseme_pose props !! v = Some act) ->
    PoseAssets.keyframes (PoseAssets.visit_visemes env props vd wt l a)
    = PoseAssets.keyframes a.
Proof.
  induction l as [| [i v] l IH]; intros a pv Hpv Hne Hact Hl; simpl; [reflexivity |].
  assert (Hred : PoseAssets.is_redundant a props v = true).
  { apply (pose_is_redundant_spec a props v pv Hpv Hne).
    rewrite Hact. symmetry. apply (Hl i v). left. }
  destruct (pose_visit_viseme_cases env props vd wt i v a)
    as [E | (act' & _ & Hskip & _)].
  - rewrite E. rewrite (IH _ pv); [reflexivity | exact Hpv | exact Hne | exact Hact |].
    intros i' v' Hin. apply (Hl i' v'). by right.
  - rewrite should_skip_keyframe_unfold, Hred, orb_true_r in Hskip. discriminate.
Qed.

(** X7: a word whose visemes all have the same pose, none of them being the
    silence viseme, writes at most one viseme keyframe, whatever the state
    the previous word left. *)
Theorem pose_one_keyframe_per_repeated_pose (env : Env) (props : Props)
    (vd : VisemeData) (wt : WordTiming) (a : PoseAssets.Animator) (act : Action) :
  (forall v, v ∈ visemes vd ->
     lip_sync_2d_viseme_pose props !! v = Some act /\ v ≠ "sil"%string) ->
  exists new,
    PoseAssets.keyframes (PoseAssets._insert_on_visemes env props vd wt a)
    = PoseAssets.keyframes a ++ new
    /\ (length new <= 1)%nat.
Proof.
  intros Hall. unfold PoseAssets._insert_on_visemes.
  set (a1 := if negb (obj_is_armature env) then _ else a).
  assert (H1 : a1 = a) by (subst a1; by destruct (negb _)).
  rewrite H1. clear a1 H1.
  assert (Hl : forall i v, (i, v) ∈ enumerate (visemes vd) ->
                 lip_sync_2d_viseme_pose props !! v = Some act /\ v ≠ "sil"%string).
  { intros i v Hin. apply Hall. by apply (enumerate_from_elem _ 0 i). }
  set (l := enumerate (visemes vd)) in *. clearbody l. revert Hl a.
  induction l as [| [i v] l IH]; intros Hl a; simpl.
  - exists []. split; [by rewrite app_nil_r | simpl; lia].
  - destruct (pose_visit_viseme_cases env props vd wt i v a)
      as [E | (act' & _ & _ & K & _ & Hpv & _)].
    + rewrite E. destruct (IH ltac:(intros i' v' Hin; apply (Hl i' v'); by right)
                             (PoseAssets.set_is_last_viseme
                                (bool_decide (i + 1 = visemes_len vd)) a))
        as (new & Hk & Hlen).
      by exists new.
    + destruct (Hl i v ltac:(left)) as [Hact Hne].
      rewrite (pose_same_pose_slots_skipped env props vd wt act l _ v Hpv Hne Hact).
      * eexists. split; [exact K | simpl; lia].
      * intros i' v' Hin. apply (Hl i' v'). by right.
Qed.

Lemma pose_one_keyframe_per_repeated_pose_witness :
  let props := demo_lips_props false in
  let a := demo_setup props in
  let w := demo_word 10 ["PP"; "FF"; "PP"]%string 4 40 in
  exists new,
    PoseAssets.keyframes
      (PoseAssets._insert_on_visemes demo_env props (visemes_data w) (word_timing w) a)
    = PoseAssets.keyframes a ++ new
    /\ (length new <= 1)%nat.
Proof.
  intros props a w.
  apply (pose_one_keyframe_per_repeated_pose demo_env props (visemes_data w)
           (word_timing w) a "Closed").
  intros v Hv. simpl in Hv.
  repeat (apply elem_of_cons in Hv as [-> | Hv]; [by split |]).
  by apply elem_of_nil in Hv.
Defined.

Lemma spaced_app (t p : Z) (l1 l2 : list Z) :
  spaced t p l1 -> spaced t (default p (last l1)) l2 -> spaced t p (l1 ++ l2).
Proof.
  revert p. induction l1 as [| f l1 IH]; intros p H1 H2; simpl in *.
  - exact H2.
  - destruct H1 as [Hf H1]. split; [exact Hf |]. apply IH; [exact H1 |].
    destruct l1 as [| g l1]; [exact H2 |].
    rewrite last_cons_cons in H2.
    destruct (last (g :: l1)) eqn:El; [exact H2 | by apply last_None in El].
Qed.

(** The steps of the pose-assets animator that keep the threshold [t] and
    append keyframes spaced by more than [t] frames, the last of them on
    [previous_start]. *)
Lemma pose_spaced_preorder (t : Z) :
  PreOrder (fun a a' : PoseAssets.Animator =>
              PoseAssets.in_between_frame_threshold a = t ->
              PoseAssets.in_between_frame_threshold a' = t
              /\ exists new,
                   PoseAssets.keyframes a' = PoseAssets.keyframes a ++ new
                   /\ spaced t (PoseAssets.previous_start a) (PoseAssets.kf_frame <$> new)
                   /\ PoseAssets.previous_start a'
                      = default (PoseAssets.previous_start a)
                          (last (PoseAssets.kf_frame <$> new))).
Proof.
  split.
  - intros a Ht. split; [exact Ht |]. exists []. by rewrite app_nil_r.
  - intros a b c Hab Hbc Ht.
    destruct (Hab Ht) as (Htb & n1 & K1 & S1 & P1).
    destruct (Hbc Htb) as (Htc & n2 & K2 & S2 & P2).
    split; [exact Htc |]. exists (n1 ++ n2). rewrite fmap_app. repeat split.
    + by rewrite K2, K1, app_assoc.
    + apply spaced_app; [exact S1 | by rewrite <- P1].
    + rewrite P2, P1. destruct (PoseAssets.kf_frame <$> n2) as [| f r] eqn:E.
      * by rewrite app_nil_r.
      * rewrite last_app. by destruct (last (f :: r)) eqn:El;
          [| apply last_None in El].
Qed.

Lemma spaced_apart (t p : Z) (fs : list Z) :
  spaced t p fs -> Forall (fun f => 0 <= f) fs -> apart t fs.
Proof.
  revert p. induction fs as [| f r IH]; intros p; simpl; [done |].
  intros [_ Hr] Hpos. apply Forall_cons in Hpos as [Hf Hpos].
  split; [| by apply (IH f)].
  destruct r as [| g r']; [done |]. simpl in Hr. lia.
Qed.

(** X5: when accuracy is not prioritized, the viseme keyframes a word writes
    are spaced: each is more than [in_between_frame_threshold] frames after
    the keyframe before it, the first one counted from [previous_start],
    unless the keyframe before it (or [previous_start]) is on a negative
    frame, where the spacing test does not apply; so keyframes that are all
    on frames from 0 on are more than the threshold apart. *)
Theorem pose_viseme_keyframes_are_spaced (env : Env) (props : Props)
    (vd : VisemeData) (wt : WordTiming) (a : PoseAssets.Animator) :
  lip_sync_2d_prioritize_accuracy props = false ->
  exists new,
    PoseAssets.keyframes (PoseAssets._insert_on_visemes env props vd wt a)
    = PoseAssets.keyframes a ++ new
    /\ spaced (PoseAssets.in_between_frame_threshold a)
         (PoseAssets.previous_start a) (PoseAssets.kf_frame <$> new)
    /\ (Forall (fun f => 0 <= f) (PoseAssets.kf_frame <$> new) ->
        apart (PoseAssets.in_between_frame_threshold a)
          (PoseAssets.kf_frame <$> new)).
Proof.
  intros Hacc.
  cut (exists new,
          PoseAssets.keyframes (PoseAssets._insert_on_visemes env props vd wt a)
          = PoseAssets.keyframes a ++ new
          /\ spaced (PoseAssets.in_between_frame_threshold a)
               (PoseAssets.previous_start a) (PoseAssets.kf_frame <$> new)).
  { intros (new & K & S). exists new. split; [exact K |]. split; [exact S |].
    exact (spaced_apart _ _ _ S). }
  unfold PoseAssets._insert_on_visemes.
  set (a1 := if negb (obj_is_armature env) then _ else a).
  assert (H1 : a1 = a) by (subst a1; by destruct (negb _)).
  rewrite H1. clear a1 H1.
  set (t := PoseAssets.in_between_frame_threshold a).
  destruct (pose_visit_visemes_ind env _ (PreOrder0 := pose_spaced_preorder t)
              props vd wt (enumerate (visemes vd))) with (a := a)
    as (_ & new & K & S & _); [| reflexivity | by exists new].
  intros i v x _ Hx.
  destruct (pose_visit_viseme_cases env props vd wt i v x)
    as [E | (act & _ & Hskip & K & Hps & _)].
  - rewrite E. split; [exact Hx |]. exists []. by rewrite app_nil_r.
  - split.
    + revert Hx. unfold PoseAssets.visit_viseme.
      destruct (_ !! v); [| done].
      by destruct (PoseAssets.should_skip_keyframe _ _ _ _ _).
    + eexists. split; [exact K |]. simpl. split; [| exact Hps].
      split; [| exact I].
      rewrite should_skip_keyframe_unfold in Hskip.
      apply orb_false_iff in Hskip as [_ Hclose].
      unfold PoseAssets._should_skip_due_to_timing in Hclose.
      rewrite Hacc, andb_true_r in Hclose.
      unfold PoseAssets.is_prev_kframe_too_close in Hclose.
      apply andb_false_iff in Hclose as [H | H];
        apply bool_decide_eq_false in H; lia.
Qed.

Lemma pose_viseme_keyframes_are_spaced_witness :
  let props := demo_props demo_rest_poses ∅ false (6 # 24) in
  let a := demo_setup props in
  exists new,
    PoseAssets.keyframes
      (PoseAssets._insert_on_visemes demo_env props (visemes_data demo_word_PP_kk)
         (word_timing demo_word_PP_kk) a)
    = PoseAssets.keyframes a ++ new
    /\ spaced (PoseAssets.in_between_frame_threshold a)
         (PoseAssets.previous_start a) (PoseAssets.kf_frame <$> new)
    /\ (Forall (fun f => 0 <= f) (PoseAssets.kf_frame <$> new) ->
        apart (PoseAssets.in_between_frame_threshold a)
          (PoseAssets.kf_frame <$> new)).
Proof.
  intros props a.
  apply (pose_viseme_keyframes_are_spaced demo_env props). reflexivity.
Defined.

(** Two visemes one frame apart, the threshold being one frame: from frame 10
    on the second one is too close and is passed over, before frame 0 both
    are keyed. *)
Example pose_negative_frames_are_not_spaced :
  let props := demo_props demo_rest_poses ∅ false (6 # 24) in
  let late := demo_word 10 ["PP"; "kk"]%string 1 40 in
  let early := demo_word (-10) ["PP"; "kk"]%string 1 40 in
  PoseAssets.in_between_frame_threshold (demo_setup props) = 1
  /\ PoseAssets.keyframes
       (PoseAssets._insert_on_visemes demo_env props (visemes_data late)
          (word_timing late) (demo_setup props))
     = [pose_key "Closed" 10]
  /\ PoseAssets.keyframes
       (PoseAssets._insert_on_visemes demo_env props (visemes_data early)
          (word_timing early) (demo_setup props))
     = [pose_key "Closed" (-10); pose_key "Open" (-9)].
Proof. vm_compute. repeat split. Qed.

(** ** The counter of the sprite-sheet animator *)

(** A loop whose iterations return and add [delta] to a measure. *)
Lemma sprite_for_each_measure (D : SpriteSheet.Animator -> Z) (delta : Z) {A}
    (body : A -> SpriteSheet.M unit) (l : list A) :
  (forall x s, exists s', body x s = (inr tt, s') /\ D s' = D s + delta) ->
  forall s, exists s',
    SpriteSheet.for_each l body s = (inr tt, s')
    /\ D s' = D s + delta * Z.of_nat (length l).
Proof.
  intros Hbody. induction l as [| x l IH]; intros s.
  - exists s. split; [reflexivity | simpl; lia].
  - destruct (Hbody x s) as (s1 & E1 & D1).
    destruct (IH s1) as (s2 & E2 & D2).
    exists s2. split.
    + simpl. unfold mbind, SpriteSheet.M_bind, SpriteSheet.bind. by rewrite E1.
    + rewrite D2, D1. simpl length. lia.
Qed.

Lemma sprite_uncounted_insert_count fcurve f value s :
  sprite_uncounted
    (SpriteSheet.count_keyframe (SpriteSheet.keyframe_points_insert fcurve f value s))
  = sprite_uncounted s.
Proof.
  unfold sprite_uncounted. simpl. rewrite length_app. simpl. lia.
Qed.

Lemma sprite_uncounted_insert fcurve f value s :
  sprite_uncounted (SpriteSheet.keyframe_points_insert fcurve f value s)
  = sprite_uncounted s + 1.
Proof.
  unfold sprite_uncounted. simpl. rewrite length_app. simpl. lia.
Qed.

(** The viseme loop counts every keyframe it writes, whether it ends or
    raises. *)
Lemma sprite_insert_on_visemes_uncounted props vd wt s :
  sprite_uncounted (SpriteSheet.exec (SpriteSheet._insert_on_visemes props vd wt) s)
  = sprite_uncounted s.
Proof.
  unfold SpriteSheet._insert_on_visemes.
  apply (sprite_for_each_ind _ (PreOrder0 := same_image_preorder sprite_uncounted)).
  intros [i v] s1 _. simpl. unfold SpriteSheet.visit_viseme.
  rewrite sprite_exec_bind. unfold SpriteSheet.modify at 1. simpl.
  rewrite sprite_exec_bind. unfold SpriteSheet.viseme_prop.
  destruct (lip_sync_2d_viseme props !! v) as [idx|]; [| reflexivity].
  unfold SpriteSheet.ret at 1. simpl.
  rewrite sprite_exec_bind. unfold SpriteSheet.get at 1. simpl.
  destruct (SpriteSheet.skip_condition _ props v _); [reflexivity |].
  rewrite sprite_exec_bind.
  set (s2 := SpriteSheet.set_is_last_viseme _ s1).
  set (item := SpriteSheet.Build_ShapeKeyAnimationData _ _ _ _ _).
  assert (Hc : sprite_uncounted (SpriteSheet.exec (SpriteSheet.consume item) s2)
               = sprite_uncounted s2).
  { unfold SpriteSheet.consume. rewrite sprite_exec_bind.
    unfold SpriteSheet.get at 1. simpl.
    apply (sprite_for_each_ind _ (PreOrder0 := same_image_preorder sprite_uncounted)).
    intros fcurve s3 _.
    unfold SpriteSheet.exec, mbind, SpriteSheet.M_bind, SpriteSheet.bind,
      SpriteSheet.modify. simpl.
    apply sprite_uncounted_insert_count. }
  unfold SpriteSheet.exec in Hc at 1.
  destruct (SpriteSheet.consume item s2) as [[e|[]] s3]; simpl in Hc; [exact Hc |].
  unfold SpriteSheet.exec, SpriteSheet.modify. simpl. exact Hc.
Qed.

Lemma sprite_insert_silences_uncounted env props vd s value :
  lip_sync_2d_viseme props !! "sil"%string = Some value ->
  exists s',
    SpriteSheet.insert_silences env props vd s = (inr tt, s')
    /\ sprite_uncounted s'
       = sprite_uncounted s
         + (if SpriteSheet.is_first_word s then Z.of_nat (SpriteSheet.fcurves s) else 0).
Proof.
  intros Hsil.
  assert (Hend : forall fcurve s1, exists s2,
             SpriteSheet.word_end_silence props vd fcurve s1 = (inr tt, s2)
             /\ sprite_uncounted s2 = sprite_uncounted s1 + 0).
  { intros fcurve s1.
    unfold SpriteSheet.word_end_silence, SpriteSheet.viseme_prop.
    rewrite Hsil.
    unfold mbind, SpriteSheet.M_bind, SpriteSheet.bind, SpriteSheet.get,
      SpriteSheet.modify, SpriteSheet.ret.
    destruct (SpriteSheet.is_last_word s1); simpl;
      eexists; (split; [reflexivity |]);
      rewrite ?sprite_uncounted_insert_count; lia. }
  assert (Hfirst : forall fcurve s1, exists s2,
             SpriteSheet.first_word_silence env props fcurve s1 = (inr tt, s2)
             /\ sprite_uncounted s2 = sprite_uncounted s1 + 1).
  { intros fcurve s1.
    unfold SpriteSheet.first_word_silence, SpriteSheet.viseme_prop.
    rewrite Hsil.
    unfold mbind, SpriteSheet.M_bind, SpriteSheet.bind, SpriteSheet.get,
      SpriteSheet.modify, SpriteSheet.ret. simpl.
    eexists. split; [reflexivity |]. apply sprite_uncounted_insert. }
  unfold SpriteSheet.insert_silences, mbind, SpriteSheet.M_bind,
    SpriteSheet.bind, SpriteSheet.get.
  assert (H1 : exists s1,
             (if bool_decide (SpriteSheet.silence_frame_threshold s
                              < SpriteSheet.delay_until_next_word s)
                 || SpriteSheet.is_last_word s
              then SpriteSheet.for_each (seq 0 (SpriteSheet.fcurves s))
                     (SpriteSheet.word_end_silence props vd)
              else SpriteSheet.ret tt) s = (inr tt, s1)
             /\ sprite_uncounted s1 = sprite_uncounted s).
  { destruct (_ || _).
    - destruct (sprite_for_each_measure sprite_uncounted 0 _
                  (seq 0 (SpriteSheet.fcurves s)) Hend s) as (s1 & E & D).
      exists s1. split; [exact E | lia].
    - by exists s. }
  destruct H1 as (s1 & E1 & D1). rewrite E1.
  destruct (SpriteSheet.is_first_word s).
  - destruct (sprite_for_each_measure sprite_uncounted 1 _
                (seq 0 (SpriteSheet.fcurves s)) Hfirst s1) as (s2 & E2 & D2).
    exists s2. split; [exact E2 |]. rewrite D2, D1, length_seq. lia.
  - exists s1. split; [reflexivity | lia].
Qed.

(** X4: with the silence sprite set, the counter of the sprite-sheet animator
    counts every keyframe written for a word but the start-of-utterance
    silences: for the first word it falls short by one keyframe per F-curve,
    for any other word by nothing, whether the viseme loop ends or raises. *)
Theorem sprite_counter_misses_first_silence (env : Env) (props : Props)
    (vd : VisemeData) (wt : WordTiming) (delay : Z) (last : bool) (index : Z)
    (s : SpriteSheet.Animator) (value : Z) :
  lip_sync_2d_viseme props !! "sil"%string = Some value ->
  let s' := SpriteSheet.exec
              (SpriteSheet.insert_keyframes env props vd wt delay last index) s in
  Z.of_nat (length (SpriteSheet.keyframes s')) - SpriteSheet.inserted_keyframes s'
  = Z.of_nat (length (SpriteSheet.keyframes s)) - SpriteSheet.inserted_keyframes s
    + (if bool_decide (index = 0) then Z.of_nat (SpriteSheet.fcurves s) else 0).
Proof.
  intros Hsil s'. subst s'.
  change (sprite_uncounted
            (SpriteSheet.exec
               (SpriteSheet.insert_keyframes env props vd wt delay last index) s)
          = sprite_uncounted s
            + (if bool_decide (index = 0) then Z.of_nat (SpriteSheet.fcurves s) else 0)).
  unfold SpriteSheet.insert_keyframes.
  rewrite sprite_exec_bind. unfold SpriteSheet.modify at 1. simpl.
  rewrite sprite_exec_bind.
  destruct (sprite_insert_silences_uncounted env props vd
              (SpriteSheet.set_word wt delay last index s) value Hsil)
    as (s1 & E & D).
  rewrite E, sprite_insert_on_visemes_uncounted. exact D.
Qed.

Lemma sprite_counter_misses_first_silence_witness :
  let w := demo_word 10 ["kk"; "aa"]%string 2 40 in
  let s := SpriteSheet.setup_properties demo_env demo_sprite_props (SpriteSheet.init 1) in
  let s' := SpriteSheet.exec
              (SpriteSheet.insert_keyframes demo_env demo_sprite_props
                 (visemes_data w) (word_timing w) 28 false 0) s in
  Z.of_nat (length (SpriteSheet.keyframes s')) = 4
  /\ SpriteSheet.inserted_keyframes s' = 3.
Proof.
  intros w s s'.
  pose proof (sprite_counter_misses_first_silence demo_env demo_sprite_props
                (visemes_data w) (word_timing w) 28 false 0 s 0 eq_refl) as H.
  split; reflexivity.
Defined.

(** ** Spacing on the F-curves of the sprite-sheet animator *)

Lemma frames_on_app fcurve (k1 k2 : list SpriteSheet.Keyframe) :
  frames_on fcurve (k1 ++ k2) = frames_on fcurve k1 ++ frames_on fcurve k2.
Proof. unfold frames_on. by rewrite filter_app, fmap_app. Qed.

(** One keyframe per F-curve: F-curve [fcurve] gets exactly one of them. *)
Lemma frames_on_every_fcurve fcurve f value (start n : nat) :
  frames_on fcurve
    (flat_map (fun x => [sprite_key x f value]) (seq start n))
  = if bool_decide (start <= fcurve < start + n)%nat then [f] else [].
Proof.
  revert start. induction n as [| n IH]; intros start; simpl.
  - rewrite bool_decide_eq_false_2 by lia. reflexivity.
  - unfold frames_on in *. rewrite filter_cons. simpl.
    specialize (IH (S start)).
    destruct (decide (start = fcurve)) as [-> | Hne]; simpl;
      repeat match goal with
      | |- context [list_fmap ?A ?B ?g ?l] =>
          change (list_fmap A B g l) with (g <$> l)
      end.
    + rewrite IH, bool_decide_eq_false_2 by lia.
      by rewrite bool_decide_eq_true_2 by lia.
    + rewrite IH. destruct (decide (S start <= fcurve < S start + n)%nat).
      * by rewrite !bool_decide_eq_true_2 by lia.
      * by rewrite !bool_decide_eq_false_2 by lia.
Qed.

Lemma sprite_spaced_preorder (t : Z) (n fcurve : nat) :
  PreOrder (fun s s' : SpriteSheet.Animator =>
              SpriteSheet.in_between_frame_threshold s = t
              /\ SpriteSheet.fcurves s = n ->
              (SpriteSheet.in_between_frame_threshold s' = t
               /\ SpriteSheet.fcurves s' = n)
              /\ exists new,
                   SpriteSheet.keyframes s' = SpriteSheet.keyframes s ++ new
                   /\ spaced t (SpriteSheet.previous_start s) (frames_on fcurve new)
                   /\ SpriteSheet.previous_start s'
                      = default (SpriteSheet.previous_start s)
                          (last (frames_on fcurve new))).
Proof.
  split.
  - intros a Ht. split; [exact Ht |]. exists []. by rewrite app_nil_r.
  - intros a b c Hab Hbc Ht.
    destruct (Hab Ht) as (Htb & n1 & K1 & S1 & P1).
    destruct (Hbc Htb) as (Htc & n2 & K2 & S2 & P2).
    split; [exact Htc |]. exists (n1 ++ n2). rewrite frames_on_app. repeat split.
    + by rewrite K2, K1, app_assoc.
    + apply spaced_app; [exact S1 | by rewrite <- P1].
    + rewrite P2, P1. destruct (frames_on fcurve n2) as [| f r] eqn:E.
      * by rewrite app_nil_r.
      * rewrite last_app. by destruct (last (f :: r)) eqn:El;
          [| apply last_None in El].
Qed.

Lemma sprite_visit_viseme_thresholds props vd wt i v (s : SpriteSheet.Animator) :
  let f := fun x => (SpriteSheet.in_between_frame_threshold x, SpriteSheet.fcurves x) in
  f (SpriteSheet.exec (SpriteSheet.visit_viseme props vd wt i v) s) = f s.
Proof.
  intros f. unfold SpriteSheet.visit_viseme.
  rewrite sprite_exec_bind. unfold SpriteSheet.modify at 1. simpl.
  rewrite sprite_exec_bind. unfold SpriteSheet.viseme_prop.
  destruct (lip_sync_2d_viseme props !! v) as [idx|]; [| reflexivity].
  unfold SpriteSheet.ret at 1. simpl.
  rewrite sprite_exec_bind. unfold SpriteSheet.get at 1. simpl.
  destruct (SpriteSheet.skip_condition _ props v _); [reflexivity |].
  rewrite sprite_exec_bind.
  set (s2 := SpriteSheet.set_is_last_viseme _ s).
  set (item := SpriteSheet.Build_ShapeKeyAnimationData _ _ _ _ _).
  assert (Hc : f (SpriteSheet.exec (SpriteSheet.consume item) s2) = f s2).
  { unfold SpriteSheet.consume. rewrite sprite_exec_bind.
    unfold SpriteSheet.get at 1. simpl.
    apply (sprite_for_each_ind _ (PreOrder0 := same_image_preorder f)).
    intros fcurve s3 _. reflexivity. }
  unfold SpriteSheet.exec in Hc at 1.
  destruct (SpriteSheet.consume item s2) as [[e|[]] s3]; simpl in Hc; [exact Hc |].
  unfold SpriteSheet.exec, SpriteSheet.modify. simpl. exact Hc.
Qed.

(** X6: on every F-curve of the channelbag, the viseme keyframes the
    sprite-sheet animator writes for a word are spaced: each is more than
    [in_between_frame_threshold] frames after the keyframe before it, the
    first one counted from [previous_start], unless the keyframe before it
    (or [previous_start]) is on a negative frame, where the spacing test does
    not apply; so keyframes that are all on frames from 0 on are more than
    the threshold apart.  This holds for what is written before a [KeyError]
    too. *)
Theorem sprite_viseme_keyframes_are_spaced (props : Props) (vd : VisemeData)
    (wt : WordTiming) (s : SpriteSheet.Animator) (fcurve : nat) :
  (fcurve < SpriteSheet.fcurves s)%nat ->
  exists new,
    SpriteSheet.keyframes
      (SpriteSheet.exec (SpriteSheet._insert_on_visemes props vd wt) s)
    = SpriteSheet.keyframes s ++ new
    /\ spaced (SpriteSheet.in_between_frame_threshold s)
         (SpriteSheet.previous_start s) (frames_on fcurve new)
    /\ (Forall (fun f => 0 <= f) (frames_on fcurve new) ->
        apart (SpriteSheet.in_between_frame_threshold s) (frames_on fcurve new)).
Proof.
  intros Hfc.
  cut (exists new,
          SpriteSheet.keyframes
            (SpriteSheet.exec (SpriteSheet._insert_on_visemes props vd wt) s)
          = SpriteSheet.keyframes s ++ new
          /\ spaced (SpriteSheet.in_between_frame_threshold s)
               (SpriteSheet.previous_start s) (frames_on fcurve new)).
  { intros (new & K & S). exists new. split; [exact K |]. split; [exact S |].
    exact (spaced_apart _ _ _ S). }
  unfold SpriteSheet._insert_on_visemes.
  set (t := SpriteSheet.in_between_frame_threshold s).
  set (n := SpriteSheet.fcurves s).
  destruct (sprite_for_each_ind _ (PreOrder0 := sprite_spaced_preorder t n fcurve)
              (fun iv => SpriteSheet.visit_viseme props vd wt iv.1 iv.2)
              (enumerate (visemes vd))) with (s := s)
    as (_ & new & K & S & _); [| done | by exists new].
  intros [i v] s1 _ [Ht Hn]. simpl.
  pose proof (sprite_visit_viseme_thresholds props vd wt i v s1) as Hcfg.
  simpl in Hcfg. injection Hcfg as Ht' Hn'.
  split; [split; congruence |].
  destruct (sprite_visit_viseme_cases props vd wt i v s1)
    as [(K & Hps & _) | (value & _ & Hskip & K & Hps & _)].
  - exists []. rewrite app_nil_r. by repeat split.
  - eexists. split; [exact K |].
    rewrite frames_on_every_fcurve, bool_decide_eq_true_2 by lia.
    simpl. split; [| exact Hps]. split; [| exact I].
    unfold SpriteSheet.skip_condition in Hskip.
    apply orb_false_iff in Hskip as [Hskip _].
    apply orb_false_iff in Hskip as [_ Hclose].
    unfold SpriteSheet.is_prev_kframe_too_close in Hclose.
    apply andb_false_iff in Hclose as [H | H];
      apply bool_decide_eq_false in H; lia.
Qed.

Lemma sprite_viseme_keyframes_are_spaced_witness :
  let w := demo_word 10 ["kk"; "aa"]%string 2 40 in
  let s := SpriteSheet.setup_properties demo_env demo_sprite_props (SpriteSheet.init 1) in
  exists new,
    SpriteSheet.keyframes
      (SpriteSheet.exec
         (SpriteSheet._insert_on_visemes demo_sprite_props (visemes_data w)
            (word_timing w)) s)
    = SpriteSheet.keyframes s ++ new
    /\ spaced (SpriteSheet.in_between_frame_threshold s)
         (SpriteSheet.previous_start s) (frames_on 0 new)
    /\ (Forall (fun f => 0 <= f) (frames_on 0 new) ->
        apart (SpriteSheet.in_between_frame_threshold s) (frames_on 0 new)).
Proof.
  intros w s.
  apply (sprite_viseme_keyframes_are_spaced demo_sprite_props (visemes_data w)
           (word_timing w) s 0%nat).
  simpl. lia.
Defined.

(** ** The silence that closes a bake *)

Lemma enumerate_from_app {A} (l1 l2 : list A) (n : Z) :
  enumerate_from n (l1 ++ l2)
  = enumerate_from n l1 ++ enumerate_from (n + Z.of_nat (length l1)) l2.
Proof.
  revert n. induction l1 as [| x l1 IH]; intros n; simpl.
  - by rewrite Z.add_0_r.
  - rewrite IH. do 3 f_equal. lia.
Qed.

Lemma pose_auto_insert_keyframes_from_app env props total
    (l1 l2 : list (Z * InspectedWord)) (a : PoseAssets.Animator) :
  auto_insert_keyframes_from env props total (l1 ++ l2) a
  = auto_insert_keyframes_from env props total l2
      (auto_insert_keyframes_from env props total l1 a).2.
Proof.
  revert a. induction l1 as [| [i w] l1 IH]; intros a; simpl; [reflexivity |].
  apply IH.
Qed.

(** X10: a bake with the pose-assets animator over a non-empty list of words,
    the silence pose being set, whose [setup] returns with the channelbag and
    the actions assigned, writes the closing silence of the last word: a
    keyframe of the silence pose on the corrected end frame of that word plus
    the closing duration in frames. *)
Theorem pose_bake_closes_after_last_word (env : Env) (data : PoseAssets.Data)
    (props props0 : Props) (words : list InspectedWord) (w : InspectedWord)
    (act : Action) :
  lip_sync_2d_viseme_pose props !! "sil"%string = Some act ->
  setup_ready (PoseAssets.setup env data props (PoseAssets.init props0)) = true ->
  let run := bake env data props (words ++ [w]) (PoseAssets.init props0) in
  pose_key act
    (ShapeKeys_get_corrected_end_frame (word_frame_start (word_timing w))
       (visemes_data w)
     + time_to_frame env (lip_sync_2d_close_motion_duration props))
  ∈ PoseAssets.keyframes run.2.
Proof.
  intros Hsil Hready run. subst run.
  destruct (pose_setup_ready env data props (PoseAssets.init props0) Hready)
    as [channelbag E].
  unfold bake. rewrite E.
  unfold auto_insert_keyframes, enumerate. cbv beta iota zeta.
  rewrite enumerate_from_app, pose_auto_insert_keyframes_from_app.
  set (total := Z.of_nat (length (words ++ [w]))).
  set (ready := PoseAssets.set_pose_assets_actions _ _).
  set (a := (auto_insert_keyframes_from env props total (enumerate_from 0 words) ready).2).
  assert (Hcfg : pose_config a = pose_config ready).
  { subst a.
    apply (pose_auto_insert_keyframes_ind env _
             (PreOrder0 := same_image_preorder pose_config)).
    intros. apply pose_insert_keyframes_config. }
  assert (Hprops : PoseAssets.props a = props
                   /\ PoseAssets.close_motion_duration a
                      = time_to_frame env (lip_sync_2d_close_motion_duration props)).
  { unfold pose_config in Hcfg. injection Hcfg as -> _ _ _ ->. by split. }
  destruct Hprops as [Hp Hc].
  simpl.
  assert (Hlast : bool_decide (0 + Z.of_nat (length words) = total - 1) = true).
  { apply bool_decide_eq_true_2. subst total. rewrite length_app. simpl. lia. }
  rewrite Hlast.
  set (delay := word_frame_start (next_word_timing w) - _).
  unfold PoseAssets.insert_keyframes.
  set (a1 := PoseAssets.set_word (word_timing w) delay true
               (0 + Z.of_nat (length words)) a).
  destruct (pose_insert_on_visemes_keys env props (visemes_data w) (word_timing w)
              (PoseAssets.insert_silences env (visemes_data w) a1))
    as (vis & Kv & _).
  rewrite Kv, (pose_insert_silences_last env (visemes_data w) a1 act).
  - apply elem_of_app. left. apply elem_of_app. right.
    subst a1. simpl. rewrite Hc. left.
  - subst a1. simpl. by rewrite Hp.
  - reflexivity.
Qed.

Lemma pose_bake_closes_after_last_word_witness :
  let props := demo_props demo_rest_poses ∅ false (6 # 24) in
  let run := bake demo_env demo_data props ([demo_word_10] ++ [demo_word_100])
               (PoseAssets.init props) in
  setup_ready (PoseAssets.setup demo_env demo_data props (PoseAssets.init props)) = true
  /\ pose_key "Rest" 106 ∈ PoseAssets.keyframes run.2.
Proof.
  intros props run.
  assert (Hready : setup_ready (PoseAssets.setup demo_env demo_data props
                                  (PoseAssets.init props)) = true)
    by (vm_compute; reflexivity).
  split; [exact Hready |].
  apply (pose_bake_closes_after_last_word demo_env demo_data props props
           [demo_word_10] demo_word_100 "Rest"); [reflexivity | exact Hready].
Defined.

(** ** Visemes without sprite *)

Lemma sprite_visit_viseme_returns props vd wt i v idx (s : SpriteSheet.Animator) :
  lip_sync_2d_viseme props !! v = Some idx ->
  exists s', SpriteSheet.visit_viseme props vd wt i v s = (inr tt, s').
Proof.
  intros Hv. unfold SpriteSheet.visit_viseme, SpriteSheet.viseme_prop.
  rewrite Hv.
  unfold mbind at 1 2 3, SpriteSheet.M_bind at 1 2 3, SpriteSheet.bind at 1 2 3,
    SpriteSheet.modify at 1, SpriteSheet.ret at 1, SpriteSheet.get at 1. simpl.
  destruct (SpriteSheet.skip_condition _ props v _); [by eexists |].
  set (s1 := SpriteSheet.set_is_last_viseme _ s).
  set (item := SpriteSheet.Build_ShapeKeyAnimationData _ _ _ _ _).
  assert (Hc : exists s2, SpriteSheet.consume item s1 = (inr tt, s2)).
  { unfold SpriteSheet.consume, mbind at 1, SpriteSheet.M_bind at 1,
      SpriteSheet.bind at 1, SpriteSheet.get at 1. simpl.
    destruct (sprite_for_each_measure (fun _ => 0) 0
                (fun fcurve =>
                   SpriteSheet.modify
                     (SpriteSheet.keyframe_points_insert fcurve
                        (SpriteSheet.frame item) (SpriteSheet.value item))
                   ≫= fun _ => SpriteSheet.modify SpriteSheet.count_keyframe)
                (seq 0 (SpriteSheet.fcurves s1))) with (s := s1) as (s2 & E & _).
    - intros x s0. by eexists.
    - by exists s2. }
  destruct Hc as (s2 & E).
  unfold mbind, SpriteSheet.M_bind, SpriteSheet.bind. rewrite E.
  by eexists.
Qed.

Lemma sprite_visit_viseme_raises props vd wt i v (s : SpriteSheet.Animator) :
  lip_sync_2d_viseme props !! v = None ->
  SpriteSheet.visit_viseme props vd wt i v s
  = (inl (KeyError ("lip_sync_2d_viseme_" +:+ v)),
     SpriteSheet.set_is_last_viseme (bool_decide (i + 1 = visemes_len vd)) s).
Proof.
  intros Hv. unfold SpriteSheet.visit_viseme, SpriteSheet.viseme_prop.
  rewrite Hv. reflexivity.
Qed.

(** X11: the viseme loop of the sprite-sheet animator returns without
    exception exactly when every viseme of the word has its sprite property
    set; otherwise it raises [KeyError] for the first viseme that has none,
    even on a slot that would have been skipped, and the keyframes and
    [previous_start] are those reached before that slot. *)
Theorem sprite_unset_viseme_raises (props : Props) (vd : VisemeData)
    (wt : WordTiming) (s : SpriteSheet.Animator) :
  (SpriteSheet.raised (SpriteSheet._insert_on_visemes props vd wt) s = None
   <-> forall v, v ∈ visemes vd -> is_Some (lip_sync_2d_viseme props !! v))
  /\ (forall (l1 l2 : list string) (v : string),
        visemes vd = l1 ++ v :: l2 ->
        (forall u, u ∈ l1 -> is_Some (lip_sync_2d_viseme props !! u)) ->
        lip_sync_2d_viseme props !! v = None ->
        SpriteSheet.raised (SpriteSheet._insert_on_visemes props vd wt) s
        = Some (KeyError ("lip_sync_2d_viseme_" +:+ v))
        /\ SpriteSheet.keyframes
             (SpriteSheet.exec (SpriteSheet._insert_on_visemes props vd wt) s)
           = SpriteSheet.keyframes
               (SpriteSheet.exec
                  (SpriteSheet.for_each (enumerate l1)
                     (fun iv => SpriteSheet.visit_viseme props vd wt iv.1 iv.2)) s)).
Proof.
  unfold SpriteSheet._insert_on_visemes, enumerate.
  set (body := fun iv : Z * string => SpriteSheet.visit_viseme props vd wt iv.1 iv.2).
  assert (Hok : forall (l : list string) n s0,
             (forall u, u ∈ l -> is_Some (lip_sync_2d_viseme props !! u)) ->
             exists s', SpriteSheet.for_each (enumerate_from n l) body s0 = (inr tt, s')).
  { induction l as [| u l IH]; intros n s0 Hl; simpl; [by eexists |].
    destruct (Hl u ltac:(left)) as [idx Hu].
    destruct (sprite_visit_viseme_returns props vd wt n u idx s0 Hu) as (s1 & E1).
    destruct (IH (n + 1) s1 ltac:(intros u' Hin; apply Hl; by right)) as (s2 & E2).
    exists s2. unfold mbind, SpriteSheet.M_bind, SpriteSheet.bind, body. simpl.
    by rewrite E1. }
  assert (Hbad : forall (l1 l2 : list string) v n s0,
             (forall u, u ∈ l1 -> is_Some (lip_sync_2d_viseme props !! u)) ->
             lip_sync_2d_viseme props !! v = None ->
             exists s1,
               SpriteSheet.for_each (enumerate_from n l1) body s0 = (inr tt, s1)
               /\ SpriteSheet.for_each (enumerate_from n (l1 ++ v :: l2)) body s0
                  = (inl (KeyError ("lip_sync_2d_viseme_" +:+ v)),
                     SpriteSheet.set_is_last_viseme
                       (bool_decide (n + Z.of_nat (length l1) + 1 = visemes_len vd)) s1)).
  { induction l1 as [| u l1 IH]; intros l2 v n s0 Hl Hv; simpl.
    - exists s0. split; [reflexivity |].
      unfold mbind, SpriteSheet.M_bind, SpriteSheet.bind, body. simpl.
      rewrite (sprite_visit_viseme_raises props vd wt n v s0 Hv).
      by rewrite Z.add_0_r.
    - destruct (Hl u ltac:(left)) as [idx Hu].
      destruct (sprite_visit_viseme_returns props vd wt n u idx s0 Hu) as (s1 & E1).
      destruct (IH l2 v (n + 1) s1 ltac:(intros u' Hin; apply Hl; by right) Hv)
        as (s2 & E2 & E3).
      exists s2. unfold mbind, SpriteSheet.M_bind, SpriteSheet.bind, body. simpl.
      rewrite E1. split; [exact E2 |].
      unfold body in E3. rewrite E3.
      f_equal. f_equal. apply bool_decide_ext. lia. }
  assert (Hnone : forall (l : list string) n s0,
             SpriteSheet.raised (SpriteSheet.for_each (enumerate_from n l) body) s0 = None ->
             forall v, v ∈ l -> is_Some (lip_sync_2d_viseme props !! v)).
  { induction l as [| u l IH]; intros n s0 Hr v Hin.
    - by apply elem_of_nil in Hin.
    - destruct (lip_sync_2d_viseme props !! u) as [idx|] eqn:Hu.
      + destruct (sprite_visit_viseme_returns props vd wt n u idx s0 Hu) as (s1 & E1).
        apply elem_of_cons in Hin as [-> | Hin]; [by rewrite Hu |].
        apply (IH (n + 1) s1); [| exact Hin].
        revert Hr. unfold SpriteSheet.raised. simpl.
        unfold mbind, SpriteSheet.M_bind, SpriteSheet.bind, body. simpl.
        by rewrite E1.
      + exfalso. revert Hr. unfold SpriteSheet.raised. simpl.
        unfold mbind, SpriteSheet.M_bind, SpriteSheet.bind, body. simpl.
        by rewrite (sprite_visit_viseme_raises props vd wt n u s0 Hu). }
  split; [split |].
  - apply Hnone.
  - intros Hall. destruct (Hok (visemes vd) 0 s Hall) as (s' & E).
    unfold SpriteSheet.raised. by rewrite E.
  - intros l1 l2 v Hvis Hl Hv. rewrite Hvis.
    destruct (Hbad l1 l2 v 0 s Hl Hv) as (s1 & E1 & E2).
    unfold SpriteSheet.raised, SpriteSheet.exec. rewrite E1, E2. by split.
Qed.

Lemma sprite_unset_viseme_raises_witness :
  let w := demo_word 10 ["kk"; "PP"; "aa"]%string 2 40 in
  let s := SpriteSheet.setup_properties demo_env demo_sprite_props (SpriteSheet.init 1) in
  SpriteSheet.raised
    (SpriteSheet._insert_on_visemes demo_sprite_props (visemes_data w) (word_timing w)) s
  = Some (KeyError "lip_sync_2d_viseme_PP").
Proof.
  intros w s.
  destruct (sprite_unset_viseme_raises demo_sprite_props (visemes_data w)
              (word_timing w) s) as [_ H].
  destruct (H ["kk"%string] ["aa"%string] "PP"%string) as [Hr _];
    [reflexivity | | reflexivity | exact Hr].
  intros u Hu. apply elem_of_cons in Hu as [-> | Hu]; [by eexists |].
  by apply elem_of_nil in Hu.
Defined.

(** * The bake range, the rig type and the choice of the animator *)

Lemma set_bake_end_spec (self : gmap string Z) (value : Z) :
  BakeRange.get_bake_end (BakeRange.set_bake_end value self) = value
  /\ BakeRange.get_bake_start (BakeRange.set_bake_end value self)
     = Z.min (BakeRange.get_bake_start self) value.
Proof.
  unfold BakeRange.set_bake_end. case_bool_decide as Hlt.
  - unfold BakeRange.get_bake_end at 1, BakeRange.get_bake_start at 1.
    rewrite lookup_insert_eq, lookup_insert_ne, lookup_insert_eq by done.
    split; [reflexivity | lia].
  - unfold BakeRange.get_bake_end at 1, BakeRange.get_bake_start at 1.
    rewrite lookup_insert_eq, lookup_insert_ne by done.
    fold (BakeRange.get_bake_start self). split; [reflexivity | lia].
Qed.

Lemma set_bake_start_spec (self : gmap string Z) (value : Z) :
  BakeRange.get_bake_start (BakeRange.set_bake_start value self) = value
  /\ BakeRange.get_bake_end (BakeRange.set_bake_start value self)
     = Z.max (BakeRange.get_bake_end self) value.
Proof.
  unfold BakeRange.set_bake_start. case_bool_decide as Hgt.
  - unfold BakeRange.get_bake_end at 1, BakeRange.get_bake_start at 1.
    rewrite lookup_insert_eq, lookup_insert_ne, lookup_insert_eq by done.
    split; [reflexivity | lia].
  - unfold BakeRange.get_bake_end at 1, BakeRange.get_bake_start at 1.
    rewrite lookup_insert_eq, lookup_insert_ne by done.
    fold (BakeRange.get_bake_end self). split; [reflexivity | lia].
Qed.

(** X12: each setter of the bake range stores its value and leaves
    [bake_start <= bake_end], whatever was stored before: [set_bake_end]
    lowers the start to the new end when needed and [set_bake_start] raises
    the end to the new start when needed; the other bound is untouched
    otherwise. *)
Theorem bake_setters_keep_order (self : gmap string Z) (value : Z) :
  (BakeRange.get_bake_end (BakeRange.set_bake_end value self) = value
   /\ BakeRange.get_bake_start (BakeRange.set_bake_end value self)
      = Z.min (BakeRange.get_bake_start self) value)
  /\ (BakeRange.get_bake_start (BakeRange.set_bake_start value self) = value
      /\ BakeRange.get_bake_end (BakeRange.set_bake_start value self)
         = Z.max (BakeRange.get_bake_end self) value)
  /\ BakeRange.get_bake_start (BakeRange.set_bake_end value self)
     <= BakeRange.get_bake_end (BakeRange.set_bake_end value self)
  /\ BakeRange.get_bake_start (BakeRange.set_bake_start value self)
     <= BakeRange.get_bake_end (BakeRange.set_bake_start value self).
Proof.
  destruct (set_bake_end_spec self value) as [He1 He2].
  destruct (set_bake_start_spec self value) as [Hs1 Hs2].
  repeat split; try assumption; lia.
Qed.

Lemma bake_edits_keep_order (edits : list BakeEdit) (self : gmap string Z) :
  Forall (fun e => 0 <= bake_edit_value e) edits ->
  0 <= BakeRange.get_bake_start self <= BakeRange.get_bake_end self ->
  0 <= BakeRange.get_bake_start (foldl apply_bake_edit self edits)
    <= BakeRange.get_bake_end (foldl apply_bake_edit self edits).
Proof.
  revert self. induction edits as [| e edits IH]; intros self Hpos Hself; [done |].
  apply Forall_cons in Hpos as [He Hpos]. simpl. apply IH; [done |].
  destruct e as [value | value]; simpl in *.
  - destruct (set_bake_start_spec self value) as [-> ->]. lia.
  - destruct (set_bake_end_spec self value) as [-> ->]. lia.
Qed.

(** X13: on a property group whose bake range was only ever assigned through
    its setters, with values that are not negative, the two guards of
    [set_bake_range] change nothing: with the bake range in use the scene
    runs from [bake_start] to [bake_end], a non-empty range, and
    [reset_bake_range] then puts back the range the timeline reported before;
    the two calls leave the scene alone when the bake range is not in use. *)
Theorem bake_range_is_set_and_restored (edits : list BakeEdit)
    (timeline_start timeline_end : Z) (op : BakeRange.Operator)
    (scene : BakeRange.Scene) :
  Forall (fun e => 0 <= bake_edit_value e) edits ->
  let self_props := foldl apply_bake_edit ∅ edits in
  let baked := BakeRange.set_bake_range self_props true timeline_start timeline_end
                 op (Some scene) in
  baked.2 = Some {| BakeRange.frame_start := BakeRange.get_bake_start self_props;
                    BakeRange.frame_end := BakeRange.get_bake_end self_props |}
  /\ 0 <= BakeRange.get_bake_start self_props <= BakeRange.get_bake_end self_props
  /\ BakeRange.reset_bake_range true baked.1 baked.2
     = inr (Some {| BakeRange.frame_start := timeline_start;
                    BakeRange.frame_end := timeline_end |})
  /\ BakeRange.set_bake_range self_props false timeline_start timeline_end
       op (Some scene) = (op, Some scene)
  /\ BakeRange.reset_bake_range false op (Some scene) = inr (Some scene).
Proof.
  intros Hpos self_props baked.
  assert (Hord : 0 <= BakeRange.get_bake_start self_props
                   <= BakeRange.get_bake_end self_props).
  { apply bake_edits_keep_order; [done |]. by vm_compute. }
  split; [| by repeat split; try apply Hord].
  unfold baked, BakeRange.set_bake_range. simpl. do 2 f_equal; lia.
Qed.

Lemma bake_range_is_set_and_restored_witness :
  (BakeRange.set_bake_range (foldl apply_bake_edit ∅ [SetBakeStart 50; SetBakeEnd 40])
     true 1 250
     {| BakeRange.saved_frame_start := None; BakeRange.saved_frame_end := None |}
     (Some {| BakeRange.frame_start := 1; BakeRange.frame_end := 250 |})).2
  = Some {| BakeRange.frame_start := 40; BakeRange.frame_end := 40 |}.
Proof.
  destruct (bake_range_is_set_and_restored [SetBakeStart 50; SetBakeEnd 40] 1 250
              {| BakeRange.saved_frame_start := None; BakeRange.saved_frame_end := None |}
              {| BakeRange.frame_start := 1; BakeRange.frame_end := 250 |})
    as (H & _).
  - repeat constructor; simpl; lia.
  - rewrite H. vm_compute. reflexivity.
Defined.

(** X14: the two rig type check boxes behave as radio buttons: from a state
    in which exactly one of them is checked, a click on either box leaves
    that box checked and the other one unchecked; in particular a checked
    box cannot be unchecked. *)
Theorem rig_type_boxes_are_exclusive (self : RigType.Rig) :
  xorb (RigType.lip_sync_2d_rig_type_basic self)
       (RigType.lip_sync_2d_rig_type_advanced self) = true ->
  RigType.click_basic self
  = {| RigType.lip_sync_2d_rig_type_basic := true;
       RigType.lip_sync_2d_rig_type_advanced := false |}
  /\ RigType.click_advanced self
     = {| RigType.lip_sync_2d_rig_type_basic := false;
          RigType.lip_sync_2d_rig_type_advanced := true |}.
Proof. destruct self as [[] []]; simpl; intros H; try discriminate; by split. Qed.

Lemma rig_type_boxes_are_exclusive_witness :
  RigType.click_advanced
    {| RigType.lip_sync_2d_rig_type_basic := true;
       RigType.lip_sync_2d_rig_type_advanced := false |}
  = {| RigType.lip_sync_2d_rig_type_basic := false;
       RigType.lip_sync_2d_rig_type_advanced := true |}.
Proof.
  apply (rig_type_boxes_are_exclusive
           {| RigType.lip_sync_2d_rig_type_basic := true;
              RigType.lip_sync_2d_rig_type_advanced := false |}).
  reflexivity.
Defined.

(** X15: every animation type the property offers for the active object has
    an animator: [get_animator] raises no [KeyError] on it; the animator is
    the pose-assets one exactly when the object is an armature, for which it
    is the only type offered, and no type is offered without active object. *)
Theorem offered_types_have_an_animator (active_object_type : option string)
    (item : string * string * string) :
  item ∈ AnimatorChoice.get_lip_sync_type_items active_object_type ->
  exists cls,
    AnimatorChoice.get_animator item.1.1 = inr cls
    /\ (cls = AnimatorChoice.LIPSYNC2D_PoseAssetsAnimator
        <-> active_object_type = Some "ARMATURE"%string).
Proof.
  destruct active_object_type as [type|]; simpl.
  2: { intros H. by apply elem_of_nil in H. }
  case_bool_decide as Harm; intros Hin.
  - apply elem_of_cons in Hin as [-> | Hin]; [| by apply elem_of_nil in Hin].
    eexists. split; [reflexivity |]. by subst.
  - repeat (apply elem_of_cons in Hin as [-> | Hin];
            [eexists; split; [reflexivity |]; split; [discriminate | congruence] |]).
    by apply elem_of_nil in Hin.
Qed.

Lemma offered_types_have_an_animator_witness :
  exists cls,
    AnimatorChoice.get_animator "SHAPEKEYS" = inr cls
    /\ (cls = AnimatorChoice.LIPSYNC2D_PoseAssetsAnimator
        <-> Some "MESH"%string = Some "ARMATURE"%string).
Proof.
  apply (offered_types_have_an_animator (Some "MESH"%string)
           ("SHAPEKEYS", "Shape Keys", "Use your Shape Keys to animate mouth")%string).
  simpl. right. left.
Defined.

(** * The list of language models *)

Lemma lang_entry_readable (installed : string -> bool) (l : gmap string string) :
  readable l <-> exists r, VoskHelper.lang_entry installed l = inr r.
Proof.
  unfold readable, VoskHelper.lang_entry. split.
  - intros (lang & -> & [-> | (obsolete & -> & H)]).
    + rewrite bool_decide_eq_true_2 by done. by eexists.
    + case_bool_decide; [by eexists |].
      destruct H as [H | [H | [[name ->] [text ->]]]].
      * rewrite bool_decide_eq_true_2 by done. by eexists.
      * case_bool_decide; [by eexists |].
        rewrite bool_decide_eq_true_2 by done. by eexists.
      * repeat case_bool_decide; by eexists.
  - intros [r H]. destruct (l !! "lang"%string) as [lang|]; [| discriminate].
    exists lang. split; [done |].
    case_bool_decide as Hall; [by left | right].
    destruct (l !! "obsolete"%string) as [obsolete|]; [| discriminate].
    exists obsolete. split; [done |].
    case_bool_decide as Hobs; [by left | right].
    case_bool_decide as Hex; [by left | right].
    destruct (l !! "name"%string); [| discriminate].
    destruct (l !! "lang_text"%string); [| discriminate].
    split; by eexists.
Qed.

Lemma lang_entry_kept (installed : string -> bool) (l : gmap string string)
    (t : VoskHelper.Tuple) :
  VoskHelper.lang_entry installed l = inr (Some t) <->
  exists lang name lang_text,
    l !! "lang"%string = Some lang
    /\ lang <> "all"%string /\ (lang ∉ VoskHelper.excluded_lang)
    /\ l !! "obsolete"%string = Some "false"%string
    /\ l !! "name"%string = Some name
    /\ l !! "lang_text"%string = Some lang_text
    /\ t = VoskHelper.Pair name
             (let label := lang_text +:+ " (" +:+ default "Unknown"%string (l !! "size_text"%string)
                           +:+ ")" in
              if installed name then label +:+ " - Installed" else label).
Proof.
  unfold VoskHelper.lang_entry. split.
  - destruct (l !! "lang"%string) as [lang|]; [| discriminate].
    case_bool_decide as Hall; [discriminate |].
    destruct (l !! "obsolete"%string) as [obsolete|]; [| discriminate].
    case_bool_decide as Hobs; [discriminate |].
    case_bool_decide as Hex; [discriminate |].
    destruct (l !! "name"%string) as [name|]; [| discriminate].
    destruct (l !! "lang_text"%string) as [text|]; [| discriminate].
    intros [= <-]. exists lang, name, text.
    repeat split; try done.
    f_equal. by destruct (decide (obsolete = "false"%string)).
  - intros (lang & name & text & -> & Hall & Hex & -> & -> & -> & ->).
    rewrite (bool_decide_eq_false_2 _ Hall).
    rewrite (bool_decide_eq_false_2 (_ <> _)) by (intros H; by apply H).
    by rewrite (bool_decide_eq_false_2 _ Hex).
Qed.

Lemma collect_cases (installed : string -> bool) (langs_list : list (gmap string string))
    (all_langs : list VoskHelper.Tuple) :
  (Forall readable langs_list
   /\ VoskHelper.collect installed langs_list all_langs
      = inr (all_langs ++ omap (kept_entry installed) langs_list))
  \/ (exists l1 l l2 e,
        langs_list = l1 ++ l :: l2 /\ Forall readable l1
        /\ VoskHelper.lang_entry installed l = inl e
        /\ VoskHelper.collect installed langs_list all_langs = inl e).
Proof.
  revert all_langs. induction langs_list as [| l ls IH]; intros all_langs.
  - left. split; [constructor | simpl; by rewrite app_nil_r].
  - simpl. unfold kept_entry at 1.
    destruct (VoskHelper.lang_entry installed l) as [e | [t |]] eqn:Hl.
    + right. exists [], l, ls, e. repeat split; [constructor | done].
    + assert (Hr : readable l) by (apply (lang_entry_readable installed); by eexists).
      destruct (IH (all_langs ++ [t])) as [[Hall ->] | (l1 & l' & l2 & e & -> & H1 & H2 & ->)].
      * left. split; [by constructor | by rewrite <- app_assoc].
      * right. exists (l :: l1), l', l2, e. repeat split; [by constructor | done].
    + assert (Hr : readable l) by (apply (lang_entry_readable installed); by eexists).
      destruct (IH all_langs) as [[Hall ->] | (l1 & l' & l2 & e & -> & H1 & H2 & ->)].
      * left. split; [by constructor | done].
      * right. exists (l :: l1), l', l2, e. repeat split; [by constructor | done].
Qed.

Lemma insert_by_label_perm (x : VoskHelper.Tuple) (l : list VoskHelper.Tuple) :
  VoskHelper.insert_by_label x l ≡ₚ x :: l.
Proof.
  induction l as [| y l IH]; simpl; [done |].
  destruct (String.leb _ _); [done |]. rewrite IH. apply Permutation_swap.
Qed.

Lemma sort_by_label_perm (l : list VoskHelper.Tuple) :
  VoskHelper.sort_by_label l ≡ₚ l.
Proof.
  induction l as [| x l IH]; simpl; [done |].
  rewrite insert_by_label_perm. by rewrite IH.
Qed.

Lemma insert_by_label_ascending (x : VoskHelper.Tuple) (l : list VoskHelper.Tuple) :
  ascending (VoskHelper.item1 <$> l) = true ->
  ascending (VoskHelper.item1 <$> VoskHelper.insert_by_label x l) = true.
Proof.
  induction l as [| y l IH]; [done |].
  intros Hl. simpl. destruct (String.leb (VoskHelper.item1 x) (VoskHelper.item1 y)) eqn:Hxy.
  - change (String.leb (VoskHelper.item1 x) (VoskHelper.item1 y)
            && ascending (VoskHelper.item1 <$> y :: l) = true).
    by rewrite Hxy, Hl.
  - assert (Hyx : String.leb (VoskHelper.item1 y) (VoskHelper.item1 x) = true).
    { destruct (String.leb_total (VoskHelper.item1 x) (VoskHelper.item1 y)); congruence. }
    assert (Htl : ascending (VoskHelper.item1 <$> l) = true).
    { destruct l; [done |]. simpl in Hl. by apply andb_prop in Hl as [_ Hl]. }
    specialize (IH Htl).
    destruct l as [| z l]; simpl in *; [by rewrite Hyx |].
    destruct (String.leb (VoskHelper.item1 x) (VoskHelper.item1 z)).
    + simpl in *. rewrite Hyx. exact IH.
    + simpl in *. apply andb_prop in Hl as [-> _]. exact IH.
Qed.

Lemma sort_by_label_ascending (l : list VoskHelper.Tuple) :
  ascending (VoskHelper.item1 <$> VoskHelper.sort_by_label l) = true.
Proof.
  induction l as [| x l IH]; [done |]. simpl. by apply insert_by_label_ascending.
Qed.

Lemma langs_online_cases (installed : string -> bool)
    (langs_list : list (gmap string string)) :
  (Forall readable langs_list
   /\ VoskHelper.get_available_langs_online installed langs_list
      = inr (("none", "-- None --", "none")%string
             :: ((fun l => (VoskHelper.item0 l, VoskHelper.item1 l, VoskHelper.item0 l))
                 <$> VoskHelper.sort_by_label (omap (kept_entry installed) langs_list))))
  \/ (exists l1 l l2 e,
        langs_list = l1 ++ l :: l2 /\ Forall readable l1
        /\ VoskHelper.lang_entry installed l = inl e
        /\ VoskHelper.get_available_langs_online installed langs_list = inl e).
Proof.
  unfold VoskHelper.get_available_langs_online.
  destruct (collect_cases installed langs_list [])
    as [[Hall Hc] | (l1 & l & l2 & e & -> & H1 & H2 & Hc)].
  - left. split; [done |]. destruct langs_list; [done |]. by rewrite Hc.
  - right. exists l1, l, l2, e. repeat split; try done.
    destruct l1; simpl in *; by rewrite Hc.
Qed.

(** X16: when [get_available_langs_online] returns, the list starts with the
    item [('none', '-- None --', 'none')] (the description "No selection" is
    replaced by the identifier), the third component of every item is its
    first, the labels after the first item are in ascending order, and the
    items after the first are exactly those of the entries of the cached file
    whose [lang] is neither "all" nor excluded ("kz", "ua") and whose
    [obsolete] is "false": the entry's [name] with the label
    [lang_text (size_text)], "Unknown" standing for a missing [size_text] and
    " - Installed" following when the model is in the cache. *)
Theorem langs_online_items (installed : string -> bool)
    (langs_list : list (gmap string string)) (items : list (string * string * string)) :
  VoskHelper.get_available_langs_online installed langs_list = inr items ->
  exists rest,
    items = ("none", "-- None --", "none")%string :: rest
    /\ Forall (fun item => item.2 = item.1.1) items
    /\ ascending ((fun item => item.1.2) <$> rest) = true
    /\ forall item,
         item ∈ rest <->
         exists l lang name lang_text,
           l ∈ langs_list
           /\ l !! "lang"%string = Some lang
           /\ lang <> "all"%string /\ (lang ∉ VoskHelper.excluded_lang)
           /\ l !! "obsolete"%string = Some "false"%string
           /\ l !! "name"%string = Some name
           /\ l !! "lang_text"%string = Some lang_text
           /\ item = (name,
                      let label := lang_text +:+ " ("
                                   +:+ default "Unknown"%string (l !! "size_text"%string)
                                   +:+ ")" in
                      if installed name then label +:+ " - Installed" else label,
                      name).
Proof.
  intros Hres.
  destruct (langs_online_cases installed langs_list)
    as [[Hall Hc] | (l1 & l & l2 & e & -> & H1 & H2 & Hc)]; [| congruence].
  rewrite Hc in Hres. injection Hres as <-.
  eexists. split; [reflexivity |]. split; [| split].
  - constructor; [done |]. apply Forall_fmap, Forall_true. done.
  - rewrite <- list_fmap_compose.
    apply (sort_by_label_ascending (omap (kept_entry installed) langs_list)).
  - intros item. rewrite list_elem_of_fmap. split.
    + intros (t & -> & Ht). rewrite sort_by_label_perm in Ht.
      apply list_elem_of_omap in Ht as (l & Hl & Hk).
      unfold kept_entry in Hk.
      destruct (VoskHelper.lang_entry installed l) as [| [t' |]] eqn:He; try discriminate.
      injection Hk as ->.
      apply lang_entry_kept in He as (lang & name & text & ? & ? & ? & ? & ? & ? & ->).
      exists l, lang, name, text. repeat split; done.
    + intros (l & lang & name & text & Hl & H1 & H2 & H3 & H4 & H5 & H6 & ->).
      eexists (VoskHelper.Pair name _). split; [reflexivity |].
      rewrite sort_by_label_perm. apply list_elem_of_omap. exists l. split; [done |].
      unfold kept_entry.
      erewrite (proj2 (lang_entry_kept installed l _)); [reflexivity |].
      exists lang, name, text. repeat split; done.
Qed.

Lemma langs_online_items_witness :
  exists rest,
    demo_items = ("none", "-- None --", "none")%string :: rest
    /\ Forall (fun item => item.2 = item.1.1) demo_items
    /\ ascending ((fun item => item.1.2) <$> rest) = true.
Proof.
  destruct (langs_online_items demo_installed demo_langs_list demo_items)
    as (rest & H1 & H2 & H3 & _).
  - vm_compute. reflexivity.
  - exists rest. repeat split; assumption.
Defined.

(** X17: [get_available_langs_online] returns exactly when every entry of the
    cached file has the keys the loop reads on it: [lang] on every entry,
    [obsolete] unless the entry is the one for "all", [name] and [lang_text]
    only on the entries that are listed.  Otherwise the [KeyError] of the
    first entry that lacks a key is raised: the one for "lang" on an entry
    without language, the one for "obsolete" on an entry for a language
    other than "all" without that key. *)
Theorem langs_online_raises (installed : string -> bool)
    (langs_list : list (gmap string string)) :
  ((exists items, VoskHelper.get_available_langs_online installed langs_list = inr items)
   <-> Forall readable langs_list)
  /\ forall l1 l l2,
       langs_list = l1 ++ l :: l2 -> Forall readable l1 ->
       (l !! "lang"%string = None ->
        VoskHelper.get_available_langs_online installed langs_list = inl (KeyError "lang"))
       /\ (forall lang, l !! "lang"%string = Some lang -> lang <> "all"%string ->
           l !! "obsolete"%string = None ->
           VoskHelper.get_available_langs_online installed langs_list
           = inl (KeyError "obsolete")).
Proof.
  assert (Hfirst : forall l1 l l2 e,
            langs_list = l1 ++ l :: l2 -> Forall readable l1 ->
            VoskHelper.lang_entry installed l = inl e ->
            VoskHelper.get_available_langs_online installed langs_list = inl e).
  { intros l1 l l2 e -> H1 He.
    destruct (langs_online_cases installed (l1 ++ l :: l2))
      as [[Hall Hc] | (k1 & k & k2 & e' & Heq & Hk1 & Hk & Hc)].
    - apply Forall_app in Hall as [_ Hall]. apply Forall_cons in Hall as [Hall _].
      apply (lang_entry_readable installed) in Hall as [r Hr]. congruence.
    - rewrite Hc. f_equal.
      assert (Hnot : forall k, VoskHelper.lang_entry installed k = inl e' -> ~ readable k).
      { intros k' Hk' Hr. apply (lang_entry_readable installed) in Hr as [r Hr]. congruence. }
      clear Hc. revert k1 Heq Hk1. induction l1 as [| a l1 IH]; intros k1 Heq Hk1.
      + destruct k1 as [| b k1]; simpl in Heq.
        * injection Heq as -> _. congruence.
        * injection Heq as -> _. apply Forall_cons in Hk1 as [Hb _].
          apply (lang_entry_readable installed) in Hb as [r Hr]. congruence.
      + destruct k1 as [| b k1]; simpl in Heq.
        * injection Heq as -> _. apply Forall_cons in H1 as [Ha _].
          by apply Hnot in Hk.
        * injection Heq as -> Heq. apply Forall_cons in H1 as [_ H1].
          apply Forall_cons in Hk1 as [_ Hk1]. by apply (IH H1 k1). }
  split; [split |].
  - intros [items Hres].
    destruct (langs_online_cases installed langs_list)
      as [[Hall _] | (l1 & l & l2 & e & _ & _ & _ & Hc)]; [done | congruence].
  - intros Hall.
    destruct (langs_online_cases installed langs_list)
      as [[_ Hc] | (l1 & l & l2 & e & -> & _ & He & _)]; [by eexists |].
    apply Forall_app in Hall as [_ Hall]. apply Forall_cons in Hall as [Hall _].
    apply (lang_entry_readable installed) in Hall as [r Hr]. congruence.
  - intros l1 l l2 Heq H1. split.
    + intros Hl. apply (Hfirst l1 l l2 _ Heq H1).
      unfold VoskHelper.lang_entry. by rewrite Hl.
    + intros lang Hl Hall Ho. apply (Hfirst l1 l l2 _ Heq H1).
      unfold VoskHelper.lang_entry. rewrite Hl, Ho.
      by rewrite (bool_decide_eq_false_2 _ Hall).
Qed.

Lemma langs_online_raises_witness :
  VoskHelper.get_available_langs_online demo_installed
    (demo_langs_list ++ [list_to_map [("name", "vosk-model-x")]%string])
  = inl (KeyError "lang").
Proof.
  destruct (langs_online_raises demo_installed
              (demo_langs_list ++ [list_to_map [("name", "vosk-model-x")]%string]))
    as [_ H].
  destruct (H demo_langs_list (list_to_map [("name", "vosk-model-x")]%string) [])
    as [H1 _].
  - reflexivity.
  - apply (langs_online_raises demo_installed demo_langs_list). by eexists.
  - apply H1. reflexivity.
Defined.

Lemma enum_items_filter (label : string) (l : list VoskHelper.Tuple) :
  filter (fun item : string * string * string => item.1.2 = label)
    ((fun l => (VoskHelper.item0 l, VoskHelper.item1 l, VoskHelper.item0 l)) <$> l)
  = (fun l => (VoskHelper.item0 l, VoskHelper.item1 l, VoskHelper.item0 l))
    <$> filter (fun t => VoskHelper.item1 t = label) l.
Proof.
  induction l as [| t l IH]; [done |].
  rewrite fmap_cons, !filter_cons, IH. simpl.
  destruct (decide (VoskHelper.item1 t = label)); done.
Qed.

Lemma insert_by_label_stable (label : string) (x : VoskHelper.Tuple)
    (l : list VoskHelper.Tuple) :
  filter (fun t => VoskHelper.item1 t = label) (VoskHelper.insert_by_label x l)
  = filter (fun t => VoskHelper.item1 t = label) (x :: l).
Proof.
  induction l as [| y l IH]; [done |]. simpl.
  destruct (String.leb (VoskHelper.item1 x) (VoskHelper.item1 y)) eqn:Hxy; [done |].
  rewrite (filter_cons _ y), IH, !filter_cons.
  destruct (decide (VoskHelper.item1 y = label)) as [Hy |]; [| done].
  destruct (decide (VoskHelper.item1 x = label)) as [Hx |]; [| done].
  exfalso. rewrite Hx, <- Hy in Hxy.
  destruct (String.leb_total (VoskHelper.item1 y) (VoskHelper.item1 y)); congruence.
Qed.

Lemma sort_by_label_stable (label : string) (l : list VoskHelper.Tuple) :
  filter (fun t => VoskHelper.item1 t = label) (VoskHelper.sort_by_label l)
  = filter (fun t => VoskHelper.item1 t = label) l.
Proof.
  induction l as [| x l IH]; [done |]. simpl.
  by rewrite insert_by_label_stable, !filter_cons, IH.
Qed.

(** X18: the sort of [get_available_langs_online] is on the labels alone and
    keeps the order of the file among equal labels: the models listed under
    one label are, in this order, the entries the loop keeps with that
    label. *)
Theorem langs_online_keeps_file_order (installed : string -> bool)
    (langs_list : list (gmap string string)) (items : list (string * string * string))
    (label : string) :
  VoskHelper.get_available_langs_online installed langs_list = inr items ->
  (fun item => item.1.1)
    <$> filter (fun item : string * string * string => item.1.2 = label) (tail items)
  = VoskHelper.item0
    <$> filter (fun t => VoskHelper.item1 t = label) (omap (kept_entry installed) langs_list).
Proof.
  intros Hres.
  destruct (langs_online_cases installed langs_list)
    as [[Hall Hc] | (l1 & l & l2 & e & -> & H1 & H2 & Hc)]; [| congruence].
  rewrite Hc in Hres. injection Hres as <-. simpl tail.
  rewrite enum_items_filter, sort_by_label_stable, <- list_fmap_compose.
  reflexivity.
Qed.

Lemma langs_online_keeps_file_order_witness :
  (fun item : string * string * string => item.1.1)
    <$> filter (fun item : string * string * string => item.1.2 = "US English (40M)"%string)
          (tail demo_items)
  = ["vosk-model-small-en-us"%string].
Proof.
  rewrite (langs_online_keeps_file_order demo_installed demo_langs_list demo_items
             "US English (40M)").
  - vm_compute. reflexivity.
  - vm_compute. reflexivity.
Defined.

Lemma collect_filter_list (installed : string -> bool)
    (full_list cached : list (gmap string string)) :
  VoskHelper.filter_list full_list = inr cached ->
  Forall (fun item => is_Some (item !! "lang"%string)) full_list ->
  forall all_langs,
    VoskHelper.collect installed cached all_langs
    = VoskHelper.collect installed full_list all_langs.
Proof.
  revert cached. induction full_list as [| item full IH]; intros cached Hf Hlang all_langs.
  - simpl in Hf. by injection Hf as <-.
  - simpl in Hf. apply Forall_cons in Hlang as [[lang Hl] Hlang].
    destruct (item !! "obsolete"%string) as [obsolete|] eqn:Ho; [| discriminate].
    destruct (VoskHelper.filter_list full) as [| filtered]; [discriminate |].
    injection Hf as <-. case_bool_decide as Hobs.
    + simpl. destruct (VoskHelper.lang_entry installed item) as [| [t |]]; [done | |];
        by apply IH.
    + rewrite (IH filtered eq_refl Hlang). simpl.
      assert (He : VoskHelper.lang_entry installed item = inr None).
      { unfold VoskHelper.lang_entry. rewrite Hl, Ho.
        case_bool_decide; [done |]. by rewrite bool_decide_eq_true_2. }
      by rewrite He.
Qed.

(** X19: the filter applied when the list of models is cached and the one
    applied when it is read agree: when every entry of the downloaded list
    names its language and [filter_list] raises nothing, the items offered
    from the cached list are those that the unfiltered list would give. *)
Theorem cached_list_gives_the_same_items (installed : string -> bool)
    (full_list cached : list (gmap string string)) :
  VoskHelper.filter_list full_list = inr cached ->
  Forall (fun item => is_Some (item !! "lang"%string)) full_list ->
  VoskHelper.get_available_langs_online installed cached
  = VoskHelper.get_available_langs_online installed full_list.
Proof.
  intros Hf Hlang. unfold VoskHelper.get_available_langs_online.
  pose proof (collect_filter_list installed full_list cached Hf Hlang []) as Hc.
  destruct cached as [| c cached], full_list as [| f full]; try done.
  - rewrite <- Hc. done.
  - by rewrite Hc.
Qed.

Lemma cached_list_gives_the_same_items_witness :
  VoskHelper.get_available_langs_online demo_installed
    [list_to_map [("lang", "en-us"); ("lang_text", "US English");
                  ("name", "vosk-model-small-en-us");
                  ("obsolete", "false"); ("size_text", "40M")]%string]
  = VoskHelper.get_available_langs_online demo_installed
      [list_to_map [("lang", "en-us"); ("lang_text", "US English");
                    ("name", "vosk-model-small-en-us");
                    ("obsolete", "false"); ("size_text", "40M")];
       list_to_map [("lang", "fr"); ("lang_text", "French"); ("name", "vosk-model-fr-0.6");
                    ("obsolete", "true"); ("size_text", "1.4G")]]%string.
Proof.
  apply cached_list_gives_the_same_items.
  - vm_compute. reflexivity.
  - repeat constructor; by eexists.
Defined.

(** * The format of the sprite sheet *)

(** X20: in the square format both callbacks leave as many rows as columns:
    [update_sprite_sheet_format] copies the columns to the rows and
    [update_sprite_sheet_rows] copies the rows to the columns, every other
    property being kept; in the line formats [update_sprite_sheet_format]
    sets the rows (horizontal line) or the columns (vertical line) to 1. *)
Theorem square_sheet_has_equal_sides (self self' : gmap string Z) :
  self !! "lip_sync_2d_sprite_sheet_format"%string = Some 0 ->
  SpriteSheetFormat.update_sprite_sheet_format self = inr self'
  \/ SpriteSheetFormat.update_sprite_sheet_rows self = inr self' ->
  is_Some (self' !! "lip_sync_2d_sprite_sheet_rows"%string)
  /\ self' !! "lip_sync_2d_sprite_sheet_rows"%string
     = self' !! "lip_sync_2d_sprite_sheet_columns"%string
  /\ (SpriteSheetFormat.update_sprite_sheet_format self = inr self' ->
      self' !! "lip_sync_2d_sprite_sheet_columns"%string
      = self !! "lip_sync_2d_sprite_sheet_columns"%string)
  /\ (SpriteSheetFormat.update_sprite_sheet_rows self = inr self' ->
      self' !! "lip_sync_2d_sprite_sheet_rows"%string
      = self !! "lip_sync_2d_sprite_sheet_rows"%string)
  /\ SpriteSheetFormat.update_sprite_sheet_format self' = inr self'
  /\ SpriteSheetFormat.update_sprite_sheet_rows self' = inr self'.
Proof.
  intros Hf Hup.
  assert (Hshape : exists n,
            self' !! "lip_sync_2d_sprite_sheet_format"%string = Some 0
            /\ self' !! "lip_sync_2d_sprite_sheet_rows"%string = Some n
            /\ self' !! "lip_sync_2d_sprite_sheet_columns"%string = Some n
            /\ (SpriteSheetFormat.update_sprite_sheet_format self = inr self' ->
                self !! "lip_sync_2d_sprite_sheet_columns"%string = Some n)
            /\ (SpriteSheetFormat.update_sprite_sheet_rows self = inr self' ->
                self !! "lip_sync_2d_sprite_sheet_rows"%string = Some n)).
  { destruct Hup as [Hup | Hup].
    - unfold SpriteSheetFormat.update_sprite_sheet_format in *.
      rewrite Hf in *. rewrite bool_decide_eq_true_2 in * by done.
      destruct (self !! "lip_sync_2d_sprite_sheet_columns"%string) as [c|] eqn:Hc;
        [| discriminate].
      injection Hup as <-. exists c.
      rewrite lookup_insert_eq, !lookup_insert_ne by done.
      repeat split; try done.
      unfold SpriteSheetFormat.update_sprite_sheet_rows. rewrite Hf.
      rewrite bool_decide_eq_true_2 by done.
      destruct (self !! "lip_sync_2d_sprite_sheet_rows"%string) as [r|] eqn:Hr;
        [| discriminate].
      intros [= Heq]. f_equal.
      assert (Hl : (<["lip_sync_2d_sprite_sheet_columns"%string := r]> self)
                   !! "lip_sync_2d_sprite_sheet_rows"%string
                   = (<["lip_sync_2d_sprite_sheet_rows"%string := c]> self)
                     !! "lip_sync_2d_sprite_sheet_rows"%string) by (by rewrite Heq).
      rewrite lookup_insert_eq, lookup_insert_ne, Hr in Hl by done. congruence.
    - unfold SpriteSheetFormat.update_sprite_sheet_rows in *.
      rewrite Hf in *. rewrite bool_decide_eq_true_2 in * by done.
      destruct (self !! "lip_sync_2d_sprite_sheet_rows"%string) as [r|] eqn:Hr;
        [| discriminate].
      injection Hup as <-. exists r.
      rewrite lookup_insert_eq, !lookup_insert_ne by done.
      repeat split; try done.
      unfold SpriteSheetFormat.update_sprite_sheet_format. rewrite Hf.
      rewrite bool_decide_eq_true_2 by done.
      destruct (self !! "lip_sync_2d_sprite_sheet_columns"%string) as [c|] eqn:Hc;
        [| discriminate].
      intros [= Heq]. f_equal.
      assert (Hl : (<["lip_sync_2d_sprite_sheet_rows"%string := c]> self)
                   !! "lip_sync_2d_sprite_sheet_columns"%string
                   = (<["lip_sync_2d_sprite_sheet_columns"%string := r]> self)
                     !! "lip_sync_2d_sprite_sheet_columns"%string) by (by rewrite Heq).
      rewrite lookup_insert_eq, lookup_insert_ne, Hc in Hl by done. congruence. }
  destruct Hshape as (n & Hf' & Hr' & Hc' & Hfc & Hrr).
  split; [by eexists |]. split; [congruence |].
  split; [intros H; rewrite Hc'; symmetry; by apply Hfc |].
  split; [intros H; rewrite Hr'; symmetry; by apply Hrr |].
  unfold SpriteSheetFormat.update_sprite_sheet_format,
    SpriteSheetFormat.update_sprite_sheet_rows.
  rewrite Hf', Hr', Hc'. rewrite bool_decide_eq_true_2 by done.
  split; f_equal; by apply insert_id.
Qed.

Lemma square_sheet_has_equal_sides_witness :
  let self' : gmap string Z :=
    list_to_map [("lip_sync_2d_sprite_sheet_format", 0);
                 ("lip_sync_2d_sprite_sheet_columns", 4);
                 ("lip_sync_2d_sprite_sheet_rows", 4)]%string in
  self' !! "lip_sync_2d_sprite_sheet_rows"%string
  = self' !! "lip_sync_2d_sprite_sheet_columns"%string.
Proof.
  intros self'.
  destruct (square_sheet_has_equal_sides
              (list_to_map [("lip_sync_2d_sprite_sheet_format", 0);
                            ("lip_sync_2d_sprite_sheet_columns", 4);
                            ("lip_sync_2d_sprite_sheet_rows", 1)]%string) self')
    as (_ & H & _).
  - vm_compute. reflexivity.
  - left. vm_compute. reflexivity.
  - exact H.
Defined.

(** X21: [update_sprite_sheet_format] returns exactly when the format has
    been assigned and, for the square format, the number of columns as well;
    on a property group on which no format was ever assigned (the callback
    also runs when the animation type changes) it raises the [KeyError] of
    the format, whereas [update_sprite_sheet_rows] returns without a change
    there.  Outside the square format the line formats write 1 and the
    rectangle format writes nothing. *)
Theorem sprite_sheet_format_update_raises (self : gmap string Z) :
  ((exists self', SpriteSheetFormat.update_sprite_sheet_format self = inr self')
   <-> exists format,
         self !! "lip_sync_2d_sprite_sheet_format"%string = Some format
         /\ (format = 0 -> is_Some (self !! "lip_sync_2d_sprite_sheet_columns"%string)))
  /\ (self !! "lip_sync_2d_sprite_sheet_format"%string = None ->
      SpriteSheetFormat.update_sprite_sheet_format self
      = inl (KeyError "lip_sync_2d_sprite_sheet_format")
      /\ SpriteSheetFormat.update_sprite_sheet_rows self = inr self)
  /\ (forall format,
        self !! "lip_sync_2d_sprite_sheet_format"%string = Some format -> format <> 0 ->
        SpriteSheetFormat.update_sprite_sheet_rows self = inr self
        /\ SpriteSheetFormat.update_sprite_sheet_format self
           = inr (if bool_decide (format = 2)
                  then <["lip_sync_2d_sprite_sheet_rows"%string := 1]> self
                  else if bool_decide (format = 3)
                       then <["lip_sync_2d_sprite_sheet_columns"%string := 1]> self
                       else self)).
Proof.
  unfold SpriteSheetFormat.update_sprite_sheet_format,
    SpriteSheetFormat.update_sprite_sheet_rows.
  destruct (self !! "lip_sync_2d_sprite_sheet_format"%string) as [format|] eqn:Hf.
  - split; [| split; [discriminate |]].
    + split.
      * intros [self' H]. exists format. split; [done |]. intros ->.
        rewrite bool_decide_eq_true_2 in H by done.
        destruct (self !! "lip_sync_2d_sprite_sheet_columns"%string); [by eexists | discriminate].
      * intros (f & [= <-] & Hc). case_bool_decide as H0.
        -- destruct (Hc H0) as [c ->]. by eexists.
        -- repeat case_bool_decide; by eexists.
    + intros f [= <-] Hne. rewrite !(bool_decide_eq_false_2 (format = 0)) by done.
      split; [done |]. repeat case_bool_decide; done.
  - split; [| split; [done |]].
    + split; [intros [? ?]; discriminate | intros (f & ? & _); discriminate].
    + intros f ?; discriminate.
Qed.

Lemma sprite_sheet_format_update_raises_witness :
  SpriteSheetFormat.update_sprite_sheet_format ∅
  = inl (KeyError "lip_sync_2d_sprite_sheet_format")
  /\ SpriteSheetFormat.update_sprite_sheet_rows ∅ = inr ∅.
Proof.
  destruct (sprite_sheet_format_update_raises ∅) as (_ & H & _).
  apply H. reflexivity.
Defined.

(** * The models of the cache *)

Lemma all_dir_names_spec (langs_list : list (gmap string string))
    (acc d : gmap string (string * string * string)) :
  VoskOffline.all_dir_names langs_list acc = inr d ->
  (forall name item, acc !! name = Some item -> item.1.1 = name /\ item.2 = name) ->
  forall name,
    (is_Some (d !! name) <-> is_Some (acc !! name) \/ current_model langs_list name)
    /\ forall item, d !! name = Some item -> item.1.1 = name /\ item.2 = name.
Proof.
  revert acc. induction langs_list as [| lang ls IH]; intros acc Hd Hacc name.
  - simpl in Hd. injection Hd as <-. split; [| by apply Hacc].
    unfold current_model. rewrite Exists_nil. tauto.
  - simpl in Hd. unfold current_model. rewrite Exists_cons.
    destruct (lang !! "obsolete"%string) as [obsolete|] eqn:Ho; [| discriminate].
    case_bool_decide as Hobs.
    + destruct (lang !! "name"%string) as [n|] eqn:Hn; [| discriminate].
      destruct (lang !! "lang_text"%string) as [text|] eqn:Ht; [| discriminate].
      destruct (IH _ Hd) with (name := name) as [Hdom Hval].
      { intros k item. destruct (decide (n = k)) as [-> |].
        - rewrite lookup_insert_eq. by intros [= <-].
        - rewrite lookup_insert_ne by done. apply Hacc. }
      split; [| done]. rewrite Hdom. subst obsolete.
      destruct (decide (n = name)) as [-> | Hne].
      * rewrite lookup_insert_eq. split; [intros _ | intros _; left; by eexists].
        right. by left.
      * rewrite lookup_insert_ne by done. unfold current_model.
        split; [tauto |]. intros [? | [[_ ?] | ?]]; [tauto | congruence | tauto].
    + destruct (IH _ Hd Hacc name) as [Hdom Hval]. split; [| done].
      rewrite Hdom. unfold current_model.
      split; [tauto |]. intros [? | [[? _] | ?]]; [tauto | congruence | tauto].
Qed.

(** X22: [get_available_langs_offline] gives the empty list, without the
    "none" item, when the cache directory is missing.  Otherwise, when it
    returns, the list starts with [('none', '-- None --', 'No selection')]
    and goes on with one item for each directory of the cache, in the order
    of the directory, whose name is that of an entry of the cached list that
    is not obsolete; the identifier and the description of the item are this
    name.  Only this "none" item is listed when there is no cached list. *)
Theorem langs_offline_items (ext_path_is_dir : bool)
    (cached_langs_list : option (list (gmap string string)))
    (iterdir : list (string * bool)) (items : list (string * string * string)) :
  VoskOffline.get_available_langs_offline ext_path_is_dir cached_langs_list iterdir
  = inr items ->
  if ext_path_is_dir then
    exists rest,
      items = ("none", "-- None --", "No selection")%string :: rest
      /\ Forall (fun item => item.2 = item.1.1) rest
      /\ (fun item => item.1.1) <$> rest
         = match cached_langs_list with
           | None => []
           | Some langs_list =>
               fst <$> filter (fun model_dir =>
                                 model_dir.2 = true /\ current_model langs_list model_dir.1)
                              iterdir
           end
  else items = [].
Proof.
  unfold VoskOffline.get_available_langs_offline.
  destruct ext_path_is_dir; simpl; [| by intros [= <-]].
  destruct cached_langs_list as [langs_list|].
  2: { intros [= <-]. eexists. split; [reflexivity |]. by split. }
  destruct (VoskOffline.all_dir_names langs_list ∅) as [| d] eqn:Hd; [discriminate |].
  intros [= <-]. eexists. split; [reflexivity |].
  pose proof (all_dir_names_spec langs_list ∅ d Hd) as Hspec.
  assert (H0 : forall name item,
            (∅ : gmap string (string * string * string)) !! name = Some item ->
            item.1.1 = name /\ item.2 = name).
  { intros name item. by rewrite lookup_empty. }
  specialize (Hspec H0). clear Hd H0.
  induction iterdir as [| [name is_dir] dirs IH]; [by split |].
  destruct IH as [IH1 IH2]. destruct (Hspec name) as [Hdom Hval].
  rewrite filter_cons.
  destruct (decide ((name, is_dir).2 = true /\ current_model langs_list (name, is_dir).1))
    as [[Hd1 Hd2] | Hn]; simpl in *.
  - subst is_dir. destruct Hdom as [_ Hdom].
    destruct Hdom as [item Hl]; [by right |]. rewrite Hl.
    destruct (Hval item Hl) as [Hi1 Hi2].
    split; [constructor; [congruence | done] |].
    rewrite !fmap_cons. simpl. f_equal; done.
  - assert (Hnone : (if is_dir then d !! name else None) = None).
    { destruct is_dir; [| done]. destruct (d !! name) eqn:Hl; [| done].
      exfalso. apply Hn. split; [done |]. destruct Hdom as [Hdom _].
      destruct Hdom as [Hdom | Hdom]; [by eexists | | done].
      rewrite lookup_empty in Hdom. by destruct Hdom. }
    rewrite Hnone. by split.
Qed.

Lemma langs_offline_items_witness :
  VoskOffline.get_available_langs_offline true (Some demo_cached_list)
    [("vosk-model-de", true); ("languages_list.json", false);
     ("vosk-model-fr-0.6", true)]%string
  = inr [("none", "-- None --", "No selection");
         ("vosk-model-de", "✔ German (Unknown)", "vosk-model-de")]%string
  /\ exists rest,
       [("none", "-- None --", "No selection");
        ("vosk-model-de", "✔ German (Unknown)", "vosk-model-de")]%string
       = ("none", "-- None --", "No selection")%string :: rest
       /\ Forall (fun item : string * string * string => item.2 = item.1.1) rest.
Proof.
  assert (H : VoskOffline.get_available_langs_offline true (Some demo_cached_list)
                [("vosk-model-de", true); ("languages_list.json", false);
                 ("vosk-model-fr-0.6", true)]%string
              = inr [("none", "-- None --", "No selection");
                     ("vosk-model-de", "✔ German (Unknown)", "vosk-model-de")]%string).
  { vm_compute. reflexivity. }
  split; [exact H |].
  destruct (langs_offline_items _ _ _ _ H) as (rest & H1 & H2 & _).
  exists rest. by split.
Defined.

(** * The operator *)

(** X24: [poll] is false without an active object and, for the sprite-sheet
    and the pose-assets types, while a model is downloading.  With the
    sprite-sheet type the check of the scene is void: [poll] holds for any
    active object when no download is running, also in a context without
    scene; with the pose-assets type it holds exactly for an armature with
    its properties in a context with a scene.  A type that is not in the
    table of [get_animator] makes [poll] itself raise the [KeyError]. *)
Theorem operator_poll (ShapeKeys_poll : string -> AnalyzeAudio.Context -> bool)
    (model_state : string) (context : AnalyzeAudio.Context) (obj : AnalyzeAudio.Object) :
  AnalyzeAudio.active_object context = Some obj ->
  (AnalyzeAudio.lip_sync_2d_lips_type obj = "SPRITESHEET"%string ->
   AnalyzeAudio.poll ShapeKeys_poll model_state context
   = inr (bool_decide (model_state <> "DOWNLOADING"%string)))
  /\ (AnalyzeAudio.lip_sync_2d_lips_type obj = "POSEASSETS"%string ->
      AnalyzeAudio.poll ShapeKeys_poll model_state context
      = inr (bool_decide (AnalyzeAudio.type obj = "ARMATURE"%string)
             && AnalyzeAudio.has_lipsync2d_props obj
             && AnalyzeAudio.has_scene context
             && bool_decide (model_state <> "DOWNLOADING"%string)))
  /\ (AnalyzeAudio.lip_sync_2d_lips_type obj
      ∉ ["SPRITESHEET"; "SHAPEKEYS"; "POSEASSETS"]%string ->
      AnalyzeAudio.poll ShapeKeys_poll model_state context
      = inl (KeyError (AnalyzeAudio.lip_sync_2d_lips_type obj)))
  /\ AnalyzeAudio.poll ShapeKeys_poll model_state
       {| AnalyzeAudio.has_scene := AnalyzeAudio.has_scene context;
          AnalyzeAudio.active_object := None |} = inr false.
Proof.
  intros Hobj. unfold AnalyzeAudio.poll. rewrite Hobj. simpl.
  split; [| split; [| split; [| done]]].
  - intros ->. simpl. unfold AnalyzeAudio.SpriteSheet_poll. rewrite Hobj.
    rewrite (bool_decide_eq_true_2 (Some obj <> None)) by done.
    by rewrite orb_true_r.
  - intros ->. simpl. unfold AnalyzeAudio.PoseAssets_poll. rewrite Hobj.
    destruct (decide (AnalyzeAudio.type obj = "ARMATURE"%string)) as [Ht | Ht].
    + rewrite (bool_decide_eq_false_2 (_ <> _)) by (intros Hn; by apply Hn).
      rewrite (bool_decide_eq_true_2 _ Ht).
      by destruct (AnalyzeAudio.has_lipsync2d_props obj).
    + rewrite (bool_decide_eq_true_2 _ Ht). by rewrite (bool_decide_eq_false_2 _ Ht).
  - intros Hnot. unfold AnimatorChoice.get_animator.
    assert (Hl : (list_to_map AnimatorChoice.automations
                  : gmap string AnimatorChoice.AnimatorClass)
                 !! AnalyzeAudio.lip_sync_2d_lips_type obj = None).
    { apply not_elem_of_list_to_map_1. simpl. exact Hnot. }
    by rewrite Hl.
Qed.

Lemma operator_poll_witness :
  AnalyzeAudio.poll (fun _ _ => true) ""
    {| AnalyzeAudio.has_scene := false;
       AnalyzeAudio.active_object :=
         Some {| AnalyzeAudio.type := "MESH";
                 AnalyzeAudio.lip_sync_2d_lips_type := "SPRITESHEET";
                 AnalyzeAudio.has_lipsync2d_props := true |} |}
  = inr true.
Proof.
  destruct (operator_poll (fun _ _ => true) ""
              {| AnalyzeAudio.has_scene := false;
                 AnalyzeAudio.active_object :=
                   Some {| AnalyzeAudio.type := "MESH";
                           AnalyzeAudio.lip_sync_2d_lips_type := "SPRITESHEET";
                           AnalyzeAudio.has_lipsync2d_props := true |} |}
              {| AnalyzeAudio.type := "MESH";
                 AnalyzeAudio.lip_sync_2d_lips_type := "SPRITESHEET";
                 AnalyzeAudio.has_lipsync2d_props := true |} eq_refl) as [H _].
  rewrite H; reflexivity.
Defined.

(** * The F-curves of the armature action *)

Lemma fcurves_grow_refl (allowed : string * Z -> Prop)
    (st : PoseFCurves.Channelbag * gset string) :
  fcurves_grow allowed st st.
Proof.
  repeat split; try done. intros k g Hk. by left.
Qed.

Lemma fcurves_grow_trans (allowed1 allowed2 allowed : string * Z -> Prop)
    (st1 st2 st3 : PoseFCurves.Channelbag * gset string) :
  (forall k, allowed1 k -> allowed k) -> (forall k, allowed2 k -> allowed k) ->
  fcurves_grow allowed1 st1 st2 -> fcurves_grow allowed2 st2 st3 ->
  fcurves_grow allowed st1 st3.
Proof.
  intros Ha1 Ha2 (K1 & G1 & N1 & C1) (K2 & G2 & N2 & C2).
  split; [| split; [| split]].
  - intros k g Hk. by apply K2, K1.
  - by etrans.
  - intros k g Hk. destruct (N2 k g Hk) as [H2 | (H2 & Hal & Hg & Hin)].
    + destruct (N1 k g H2) as [H1 | (H1 & Hal & Hg & Hin)]; [by left | right].
      repeat split; try done; [by apply Ha1 |].
      intros Hc name Hn. apply G2. by apply Hin.
    + right. split; [| split; [by apply Ha2 | split; [done |]]].
      * destruct (PoseFCurves.fcurves st1.1 !! k) as [g1|] eqn:H1; [| done].
        apply K1 in H1. congruence.
      * intros Hc. apply Hin. by apply C1.
  - intros H1. by apply C2, C1.
Qed.

Lemma copy_fcurve_grows (is_basic_rig : bool) (fcurve : string * Z)
    (st : PoseFCurves.Channelbag * gset string) :
  fcurves_grow (fun k => k = fcurve /\ is_basic_rig && PoseFCurves.not_basic k.1 = false)
    st (PoseFCurves.copy_fcurve is_basic_rig fcurve st).2.
Proof.
  unfold PoseFCurves.copy_fcurve.
  case_bool_decide as Hin; [apply fcurves_grow_refl |].
  destruct (is_basic_rig && PoseFCurves.not_basic fcurve.1) eqn:Hb;
    [apply fcurves_grow_refl |].
  assert (Hnone : PoseFCurves.fcurves st.1 !! fcurve = None).
  { destruct (PoseFCurves.fcurves st.1 !! fcurve) eqn:Hl; [| done].
    destruct Hin. by eexists. }
  assert (Hold : forall k g, PoseFCurves.fcurves st.1 !! k = Some g -> fcurve <> k).
  { intros k g Hk <-. congruence. }
  unfold fcurves_grow, bone_group.
  destruct (PoseFCurves.py_in "pose.bones[" fcurve.1) eqn:Hp.
  - destruct (PoseFCurves.py_split "034"%char fcurve.1 !! 1%nat) as [bone|] eqn:Hs.
    + case_bool_decide as Hc; simpl.
      * split; [| split; [done | split; [| done]]].
        -- intros k g Hk. rewrite !lookup_insert_ne by (by eapply Hold). done.
        -- intros k g. destruct (decide (fcurve = k)) as [<- |].
           ++ rewrite lookup_insert_eq. intros [= <-]. right.
              rewrite Hp, Hs. repeat split; try done.
              intros Hcache name [= <-]. by apply Hcache.
           ++ rewrite !lookup_insert_ne by done. by left.
      * split; [| split; [apply union_subseteq_r | split; [| intros Hs'; by apply union_mono_l]]].
        -- intros k g Hk. rewrite !lookup_insert_ne by (by eapply Hold). done.
        -- intros k g. destruct (decide (fcurve = k)) as [<- |].
           ++ rewrite lookup_insert_eq. intros [= <-]. right.
              rewrite Hp, Hs. repeat split; try done.
              intros Hcache name [= <-]. by apply elem_of_union_l, elem_of_singleton.
           ++ rewrite !lookup_insert_ne by done. by left.
    + simpl. split; [| split; [done | split; [| done]]].
      * intros k g Hk. rewrite !lookup_insert_ne by (by eapply Hold). done.
      * intros k g. destruct (decide (fcurve = k)) as [<- |].
        -- rewrite lookup_insert_eq. intros [= <-]. right.
           rewrite Hp, Hs. repeat split; try done.
        -- rewrite !lookup_insert_ne by done. by left.
  - simpl. split; [| split; [done | split; [| done]]].
    + intros k g Hk. rewrite !lookup_insert_ne by (by eapply Hold). done.
    + intros k g. destruct (decide (fcurve = k)) as [<- |].
      * rewrite lookup_insert_eq. intros [= <-]. right.
        rewrite Hp. repeat split; try done.
      * rewrite !lookup_insert_ne by done. by left.
Qed.

Lemma copy_fcurve_copies (is_basic_rig : bool) (fcurve : string * Z)
    (st : PoseFCurves.Channelbag * gset string) :
  is_basic_rig && PoseFCurves.not_basic fcurve.1 = false ->
  is_Some (PoseFCurves.fcurves (PoseFCurves.copy_fcurve is_basic_rig fcurve st).2.1
           !! fcurve).
Proof.
  intros Hb. unfold PoseFCurves.copy_fcurve.
  case_bool_decide as Hin; [done |]. rewrite Hb.
  destruct (PoseFCurves.py_in "pose.bones[" fcurve.1).
  - destruct (PoseFCurves.py_split "034"%char fcurve.1 !! 1%nat) as [bone|]; simpl.
    + rewrite lookup_insert_eq. by eexists.
    + rewrite lookup_insert_eq. by eexists.
  - simpl. rewrite lookup_insert_eq. by eexists.
Qed.

Lemma copy_fcurve_skips (is_basic_rig : bool) (fcurve : string * Z)
    (st : PoseFCurves.Channelbag * gset string) :
  (is_basic_rig && PoseFCurves.not_basic fcurve.1 = false ->
   is_Some (PoseFCurves.fcurves st.1 !! fcurve)) ->
  PoseFCurves.copy_fcurve is_basic_rig fcurve st = (None, st).
Proof.
  intros Hb. unfold PoseFCurves.copy_fcurve.
  case_bool_decide as Hin; [done |].
  destruct (is_basic_rig && PoseFCurves.not_basic fcurve.1); [done |].
  destruct Hin. by apply Hb.
Qed.

Lemma copy_fcurves_grows (is_basic_rig : bool) (pose_fcurves : list (string * Z))
    (st : PoseFCurves.Channelbag * gset string) :
  fcurves_grow (fun k => k ∈ pose_fcurves
                         /\ is_basic_rig && PoseFCurves.not_basic k.1 = false)
    st (PoseFCurves.copy_fcurves is_basic_rig pose_fcurves st).2.
Proof.
  revert st. induction pose_fcurves as [| f l IH]; intros st; [apply fcurves_grow_refl |].
  simpl. pose proof (copy_fcurve_grows is_basic_rig f st) as Hf.
  destruct (PoseFCurves.copy_fcurve is_basic_rig f st) as [[e |] st1]; simpl in *.
  - eapply fcurves_grow_trans; [| | exact Hf | apply fcurves_grow_refl].
    + intros k [-> Hk]. split; [by left | done].
    + intros k Hk. exact Hk.
  - eapply fcurves_grow_trans; [| | exact Hf | apply IH].
    + intros k [-> Hk]. split; [by left | done].
    + intros k [Hk ?]. split; [by right | done].
Qed.

Lemma copy_fcurves_copies (is_basic_rig : bool) (pose_fcurves : list (string * Z))
    (st st' : PoseFCurves.Channelbag * gset string) (k : string * Z) :
  PoseFCurves.copy_fcurves is_basic_rig pose_fcurves st = (None, st') ->
  k ∈ pose_fcurves -> is_basic_rig && PoseFCurves.not_basic k.1 = false ->
  is_Some (PoseFCurves.fcurves st'.1 !! k).
Proof.
  revert st. induction pose_fcurves as [| f l IH]; intros st Hrun Hk Hb.
  - by apply elem_of_nil in Hk.
  - simpl in Hrun.
    pose proof (copy_fcurve_copies is_basic_rig f st) as Hf.
    destruct (PoseFCurves.copy_fcurve is_basic_rig f st) as [[e |] st1]; [discriminate |].
    apply elem_of_cons in Hk as [-> | Hk]; [| by apply (IH st1)].
    destruct (Hf Hb) as [g Hg]. simpl in Hg.
    pose proof (copy_fcurves_grows is_basic_rig l st1) as (K & _).
    rewrite Hrun in K. simpl in K. exists g. by apply K.
Qed.

Lemma copy_fcurves_skips (is_basic_rig : bool) (pose_fcurves : list (string * Z))
    (st : PoseFCurves.Channelbag * gset string) :
  (forall k, k ∈ pose_fcurves -> is_basic_rig && PoseFCurves.not_basic k.1 = false ->
             is_Some (PoseFCurves.fcurves st.1 !! k)) ->
  PoseFCurves.copy_fcurves is_basic_rig pose_fcurves st = (None, st).
Proof.
  induction pose_fcurves as [| f l IH]; intros Hall; [done |].
  simpl. rewrite copy_fcurve_skips by (apply Hall; by left).
  apply IH. intros k Hk. apply Hall. by right.
Qed.

Lemma copy_actions_grows (pose_action : Action -> PoseFCurves.PoseAction)
    (is_basic_rig : bool) (actions : list Action) (seen_actions : gset Action)
    (st : PoseFCurves.Channelbag * gset string) :
  fcurves_grow (fun k => is_basic_rig && PoseFCurves.not_basic k.1 = false
                         /\ exists action pose_fcurves,
                              action ∈ actions
                              /\ pose_action action = PoseFCurves.Channels pose_fcurves
                              /\ k ∈ pose_fcurves)
    st (PoseFCurves.copy_actions pose_action is_basic_rig actions seen_actions st).2.
Proof.
  revert seen_actions st.
  induction actions as [| a l IH]; intros seen st; [apply fcurves_grow_refl |].
  assert (Htail : forall seen' st',
            fcurves_grow (fun k => is_basic_rig && PoseFCurves.not_basic k.1 = false
                                   /\ exists action pose_fcurves,
                                        action ∈ a :: l
                                        /\ pose_action action
                                           = PoseFCurves.Channels pose_fcurves
                                        /\ k ∈ pose_fcurves)
              st' (PoseFCurves.copy_actions pose_action is_basic_rig l seen' st').2).
  { intros seen' st'.
    eapply fcurves_grow_trans; [| | apply fcurves_grow_refl | apply (IH seen' st')].
    - intros k Hk. exact Hk.
    - intros k (Hb & action & pf & Hin & Hp & Hk).
      split; [done |]. exists action, pf. split; [by right | done]. }
  simpl. case_bool_decide as Hseen; [apply Htail |].
  destruct (pose_action a) as [| | pf] eqn:Ha; [apply Htail | apply fcurves_grow_refl |].
  pose proof (copy_fcurves_grows is_basic_rig pf st) as Hf.
  destruct (PoseFCurves.copy_fcurves is_basic_rig pf st) as [[e |] st1]; simpl in *.
  - eapply fcurves_grow_trans; [| | exact Hf | apply fcurves_grow_refl].
    + intros k [Hk Hb]. split; [done |]. exists a, pf. split; [by left | done].
    + intros k Hk. exact Hk.
  - eapply fcurves_grow_trans; [| | exact Hf | apply Htail].
    + intros k [Hk Hb]. split; [done |]. exists a, pf. split; [by left | done].
    + intros k Hk. exact Hk.
Qed.

Lemma action_copied_mono (pose_action : Action -> PoseFCurves.PoseAction)
    (is_basic_rig : bool) (allowed : string * Z -> Prop)
    (st st' : PoseFCurves.Channelbag * gset string) (action : Action) :
  fcurves_grow allowed st st' ->
  action_copied pose_action is_basic_rig st.1 action ->
  action_copied pose_action is_basic_rig st'.1 action.
Proof.
  intros (K & _) [Hn Hc]. split; [done |].
  intros pf k Hp Hk Hb. destruct (Hc pf k Hp Hk Hb) as [g Hg]. exists g. by apply K.
Qed.

Lemma copy_actions_copies (pose_action : Action -> PoseFCurves.PoseAction)
    (is_basic_rig : bool) (actions : list Action) (seen_actions : gset Action)
    (st st' : PoseFCurves.Channelbag * gset string) :
  PoseFCurves.copy_actions pose_action is_basic_rig actions seen_actions st = (None, st') ->
  (forall action, action ∈ seen_actions ->
                  action_copied pose_action is_basic_rig st.1 action) ->
  forall action, action ∈ actions ->
                 action_copied pose_action is_basic_rig st'.1 action.
Proof.
  revert seen_actions st.
  induction actions as [| a l IH]; intros seen st Hrun Hseen action Hin.
  - by apply elem_of_nil in Hin.
  - simpl in Hrun.
    assert (Hgrow : forall seen' st1,
              PoseFCurves.copy_actions pose_action is_basic_rig l seen' st1 = (None, st') ->
              forall b, action_copied pose_action is_basic_rig st1.1 b ->
                        action_copied pose_action is_basic_rig st'.1 b).
    { intros seen' st1 Hr b Hb.
      pose proof (copy_actions_grows pose_action is_basic_rig l seen' st1) as Hg.
      rewrite Hr in Hg. simpl in Hg. by eapply action_copied_mono. }
    case_bool_decide as Hs.
    + apply elem_of_cons in Hin as [-> | Hin]; [| by apply (IH seen st)].
      apply (Hgrow seen st Hrun). by apply Hseen.
    + destruct (pose_action a) as [| | pf] eqn:Ha; [| discriminate |].
      * assert (Hcop : action_copied pose_action is_basic_rig st.1 a).
        { split; [congruence |]. intros pf' k Hp. congruence. }
        apply elem_of_cons in Hin as [-> | Hin]; [by apply (Hgrow _ st Hrun) |].
        apply (IH ({[a]} ∪ seen) st Hrun); [| done].
        intros b Hb. apply elem_of_union in Hb as [Hb | Hb]; [| by apply Hseen].
        apply elem_of_singleton in Hb as ->. done.
      * destruct (PoseFCurves.copy_fcurves is_basic_rig pf st) as [[e |] st1] eqn:Hpf;
          [discriminate |].
        assert (Hcop : action_copied pose_action is_basic_rig st1.1 a).
        { split; [congruence |]. intros pf' k Hp Hk Hb.
          rewrite Ha in Hp. injection Hp as <-.
          by apply (copy_fcurves_copies is_basic_rig pf st st1 k). }
        apply elem_of_cons in Hin as [-> | Hin]; [by apply (Hgrow _ st1 Hrun) |].
        apply (IH ({[a]} ∪ seen) st1 Hrun); [| done].
        intros b Hb. apply elem_of_union in Hb as [Hb | Hb].
        -- apply elem_of_singleton in Hb as ->. done.
        -- pose proof (copy_fcurves_grows is_basic_rig pf st) as Hg.
           rewrite Hpf in Hg. simpl in Hg.
           eapply action_copied_mono; [exact Hg |]. by apply Hseen.
Qed.

Lemma copy_actions_skips (pose_action : Action -> PoseFCurves.PoseAction)
    (is_basic_rig : bool) (actions : list Action) (seen_actions : gset Action)
    (st : PoseFCurves.Channelbag * gset string) :
  (forall action, action ∈ actions -> action_copied pose_action is_basic_rig st.1 action) ->
  PoseFCurves.copy_actions pose_action is_basic_rig actions seen_actions st = (None, st).
Proof.
  revert seen_actions. induction actions as [| a l IH]; intros seen Hall; [done |].
  assert (Htail : forall seen', PoseFCurves.copy_actions pose_action is_basic_rig l seen' st
                                = (None, st)).
  { intros seen'. apply IH. intros b Hb. apply Hall. by right. }
  simpl. case_bool_decide; [apply Htail |].
  destruct (Hall a) as [Hn Hc]; [by left |].
  destruct (pose_action a) as [| | pf] eqn:Ha; [apply Htail | done |].
  rewrite copy_fcurves_skips; [apply Htail |].
  intros k Hk Hb. by apply (Hc pf).
Qed.

Lemma dict_set_elem {V : Type} (k : string) (v : V) (d : list (string * V)) :
  (forall v', (k, v') ∈ d -> v' = v) ->
  forall x, x ∈ PoseFCurves.dict_set k v d <-> x ∈ d \/ x = (k, v).
Proof.
  induction d as [| [k' v'] d IH]; intros Hf x; simpl.
  - rewrite elem_of_cons, !elem_of_nil. tauto.
  - case_bool_decide as Hk.
    + subst k'. rewrite (Hf v') by (by left). rewrite !elem_of_cons. tauto.
    + rewrite !elem_of_cons, IH; [tauto |]. intros w Hw. apply Hf. by right.
Qed.

Lemma dict_of_elem {V : Type} (f : string -> option V) (kvs d : list (string * V)) :
  (forall x, x ∈ d -> f x.1 = Some x.2) -> (forall x, x ∈ kvs -> f x.1 = Some x.2) ->
  forall x, x ∈ foldl (fun d kv => PoseFCurves.dict_set kv.1 kv.2 d) d kvs <-> x ∈ d \/ x ∈ kvs.
Proof.
  revert d. induction kvs as [| [k v] kvs IH]; intros d Hd Hk x; simpl.
  - rewrite elem_of_nil. tauto.
  - assert (Hkv : f k = Some v) by (apply (Hk (k, v)); by left).
    assert (Hset : forall y, y ∈ PoseFCurves.dict_set k v d <-> y ∈ d \/ y = (k, v)).
    { apply dict_set_elem. intros v' Hv'. apply Hd in Hv'. simpl in Hv'. congruence. }
    rewrite IH.
    + rewrite Hset, elem_of_cons. tauto.
    + intros y Hy. apply Hset in Hy as [Hy | ->]; [by apply Hd | done].
    + intros y Hy. apply Hk. by right.
Qed.

Lemma pose_assets_actions_values_elem (env : Env) (props : Props) (action : Action) :
  action ∈ PoseFCurves.pose_assets_actions_values env props <->
  exists enum_id, enum_id ∈ viseme_items_mpeg4_v2 env
                  /\ lip_sync_2d_viseme_pose props !! enum_id = Some action.
Proof.
  unfold PoseFCurves.pose_assets_actions_values. rewrite list_elem_of_fmap.
  set (kvs := omap _ _).
  assert (Hkvs : forall x, x ∈ kvs <->
                           x.1 ∈ viseme_items_mpeg4_v2 env
                           /\ lip_sync_2d_viseme_pose props !! x.1 = Some x.2).
  { intros [k v]. unfold kvs. rewrite list_elem_of_omap. simpl. split.
    - intros (id & Hid & Hl).
      destruct (lip_sync_2d_viseme_pose props !! id) eqn:He; [| discriminate].
      injection Hl as <- <-. done.
    - intros [Hid Hl]. exists k. split; [done |]. by rewrite Hl. }
  assert (Hd : forall x, x ∈ foldl (fun d kv => PoseFCurves.dict_set kv.1 kv.2 d) [] kvs <-> x ∈ kvs).
  { intros x. rewrite (dict_of_elem (fun k => lip_sync_2d_viseme_pose props !! k)).
    - rewrite elem_of_nil. tauto.
    - intros y Hy. by apply elem_of_nil in Hy.
    - intros y Hy. by apply Hkvs. }
  split.
  - intros ([k v] & -> & Hx). apply Hd, Hkvs in Hx. by exists k.
  - intros (id & Hid & Hl). exists (id, action). split; [done |]. by apply Hd, Hkvs.
Qed.

Lemma setup_fcurves_run (env : Env) (pose_action : Action -> PoseFCurves.PoseAction)
    (props : Props) (is_basic_rig use_clear_keyframes : bool)
    (channelbag : PoseFCurves.Channelbag) :
  obj_is_armature env = true ->
  exists cache,
    let base := if use_clear_keyframes
                then {| PoseFCurves.fcurves := ∅;
                        PoseFCurves.groups := PoseFCurves.groups channelbag |}
                else channelbag in
    let run := PoseFCurves.setup_fcurves env pose_action props is_basic_rig
                 use_clear_keyframes channelbag in
    PoseFCurves.copy_actions pose_action is_basic_rig
      (PoseFCurves.pose_assets_actions_values env props) ∅ (base, ∅)
    = (run.1, (run.2, cache)).
Proof.
  intros Harm. unfold PoseFCurves.setup_fcurves. rewrite Harm. simpl.
  destruct (PoseFCurves.copy_actions _ _ _ _ _) as [e [cb cache]]. by exists cache.
Qed.

Lemma wanted_fcurve_values (env : Env) (pose_action : Action -> PoseFCurves.PoseAction)
    (props : Props) (is_basic_rig : bool) (k : string * Z) :
  wanted_fcurve env pose_action props is_basic_rig k <->
  is_basic_rig && PoseFCurves.not_basic k.1 = false
  /\ exists action pose_fcurves,
       action ∈ PoseFCurves.pose_assets_actions_values env props
       /\ pose_action action = PoseFCurves.Channels pose_fcurves
       /\ k ∈ pose_fcurves.
Proof.
  unfold wanted_fcurve. split.
  - intros (Hb & id & a & pf & Hid & Hl & Hp & Hk). split; [done |].
    exists a, pf. split; [| done]. apply pose_assets_actions_values_elem. by exists id.
  - intros (Hb & a & pf & Ha & Hp & Hk). split; [done |].
    apply pose_assets_actions_values_elem in Ha as (id & Hid & Hl). by exists id, a, pf.
Qed.

(** X25: on an armature, when [setup_fcurves] returns, the F-curves of the
    channelbag are those it had before, unless the keyframes are cleared,
    and those of the pose assets of the visemes: all of them on an advanced
    rig, and on a basic rig those whose path does not contain "bbone" and
    ends in [location], [rotation_euler], [rotation_quaternion] or
    [scale]. *)
Theorem setup_fcurves_copies_the_pose_curves (env : Env)
    (pose_action : Action -> PoseFCurves.PoseAction) (props : Props)
    (is_basic_rig use_clear_keyframes : bool) (channelbag channelbag' : PoseFCurves.Channelbag) :
  obj_is_armature env = true ->
  PoseFCurves.setup_fcurves env pose_action props is_basic_rig use_clear_keyframes channelbag
  = (None, channelbag') ->
  forall fcurve,
    is_Some (PoseFCurves.fcurves channelbag' !! fcurve) <->
    (use_clear_keyframes = false /\ is_Some (PoseFCurves.fcurves channelbag !! fcurve))
    \/ wanted_fcurve env pose_action props is_basic_rig fcurve.
Proof.
  intros Harm Hrun fcurve.
  destruct (setup_fcurves_run env pose_action props is_basic_rig use_clear_keyframes
              channelbag Harm) as [cache Hc].
  simpl in Hc. rewrite Hrun in Hc. simpl in Hc.
  set (base := if use_clear_keyframes then _ else channelbag) in Hc.
  pose proof (copy_actions_grows pose_action is_basic_rig
                (PoseFCurves.pose_assets_actions_values env props) ∅ (base, ∅))
    as (K & _ & N & _).
  rewrite Hc in K, N. simpl in K, N.
  rewrite wanted_fcurve_values. split.
  - intros [g Hg]. destruct (N fcurve g Hg) as [Hb | (_ & Hal & _)]; [left | by right].
    unfold base in Hb. destruct use_clear_keyframes; simpl in Hb.
    + by rewrite lookup_empty in Hb.
    + split; [done | by eexists].
  - intros [[Hclear [g Hg]] | (Hb & a & pf & Ha & Hp & Hk)].
    + exists g. apply K. unfold base. by rewrite Hclear.
    + pose proof (copy_actions_copies pose_action is_basic_rig _ _ _ _ Hc) as Hcop.
      destruct (Hcop) with (action := a) as [_ Hall]; [| done |].
      * intros b Hb'. by apply elem_of_empty in Hb'.
      * by apply (Hall pf).
Qed.

Lemma setup_fcurves_copies_the_pose_curves_witness :
  is_Some (PoseFCurves.fcurves demo_basic_channelbag !! (demo_jaw_path "scale", 1))
  /\ ~ is_Some (PoseFCurves.fcurves demo_basic_channelbag
                !! (demo_jaw_path "bbone_easein", 0)).
Proof.
  assert (Hrun : PoseFCurves.setup_fcurves demo_env demo_pose_action (demo_lips_props false)
                   true true demo_channelbag = (None, demo_basic_channelbag)).
  { vm_compute. reflexivity. }
  pose proof (setup_fcurves_copies_the_pose_curves demo_env demo_pose_action
                (demo_lips_props false) true true demo_channelbag demo_basic_channelbag
                eq_refl Hrun) as H.
  split.
  - apply H. right. split; [vm_compute; reflexivity |].
    exists "kk"%string, "Open"%string,
      [(demo_jaw_path "location", 0); (demo_jaw_path "scale", 1)].
    repeat split.
    + vm_compute. do 3 right. left.
    + right. left.
  - intros Hs. apply H in Hs as [[? _] | [Hb _]]; discriminate.
Defined.

(** X26: whether [setup_fcurves] returns or raises on an armature, it never
    removes a group, it keeps every F-curve with its group unless the
    keyframes are cleared, and every other F-curve of the channelbag is one
    of a pose asset of a viseme, allowed on this kind of rig, whose group is
    the bone named between the first two double quotes of a path containing
    [pose.bones[], a group of the channelbag, and no group otherwise.  On a
    basic rig with cleared keyframes every F-curve therefore ends in one of
    the four transform properties and has no "bbone" in its path. *)
Theorem setup_fcurves_keeps_and_groups (env : Env)
    (pose_action : Action -> PoseFCurves.PoseAction) (props : Props)
    (is_basic_rig use_clear_keyframes : bool) (channelbag : PoseFCurves.Channelbag) :
  obj_is_armature env = true ->
  let run := PoseFCurves.setup_fcurves env pose_action props is_basic_rig
               use_clear_keyframes channelbag in
  PoseFCurves.groups channelbag ⊆ PoseFCurves.groups run.2
  /\ (use_clear_keyframes = false ->
      forall k g, PoseFCurves.fcurves channelbag !! k = Some g ->
                  PoseFCurves.fcurves run.2 !! k = Some g)
  /\ (forall k g,
        PoseFCurves.fcurves run.2 !! k = Some g ->
        (use_clear_keyframes = false /\ PoseFCurves.fcurves channelbag !! k = Some g)
        \/ (wanted_fcurve env pose_action props is_basic_rig k
            /\ g = bone_group k.1
            /\ forall name, g = Some name -> name ∈ PoseFCurves.groups run.2))
  /\ (is_basic_rig = true -> use_clear_keyframes = true ->
      forall k, is_Some (PoseFCurves.fcurves run.2 !! k) ->
                PoseFCurves.py_in "bbone" k.1 = false
                /\ List.last (PoseFCurves.py_split "."%char k.1) EmptyString
                   ∈ PoseFCurves.property_names).
Proof.
  intros Harm run.
  destruct (setup_fcurves_run env pose_action props is_basic_rig use_clear_keyframes
              channelbag Harm) as [cache Hc].
  simpl in Hc. fold run in Hc.
  set (base := if use_clear_keyframes then _ else channelbag) in Hc.
  pose proof (copy_actions_grows pose_action is_basic_rig
                (PoseFCurves.pose_assets_actions_values env props) ∅ (base, ∅))
    as (K & G & N & _).
  rewrite Hc in K, G, N. simpl in K, G, N.
  assert (Hnew : forall k g,
            PoseFCurves.fcurves run.2 !! k = Some g ->
            (use_clear_keyframes = false /\ PoseFCurves.fcurves channelbag !! k = Some g)
            \/ (wanted_fcurve env pose_action props is_basic_rig k
                /\ g = bone_group k.1
                /\ forall name, g = Some name -> name ∈ PoseFCurves.groups run.2)).
  { intros k g Hg. destruct (N k g Hg) as [Hb | (_ & Hal & Hgr & Hin)].
    - left. unfold base in Hb. destruct use_clear_keyframes; simpl in Hb.
      + by rewrite lookup_empty in Hb.
      + done.
    - right. split; [by apply wanted_fcurve_values |]. split; [done |].
      apply Hin. apply empty_subseteq. }
  split; [| split; [| split; [exact Hnew |]]].
  - unfold base in G. by destruct use_clear_keyframes.
  - intros Hclear k g Hg. apply K. unfold base. by rewrite Hclear.
  - intros -> -> k [g Hg].
    destruct (Hnew k g Hg) as [[? _] | [[Hb _] _]]; [discriminate |].
    simpl in Hb. unfold PoseFCurves.not_basic in Hb.
    apply orb_false_elim in Hb as [Hbb Hp]. split; [done |].
    apply negb_false_iff in Hp. by apply bool_decide_eq_true in Hp.
Qed.

Lemma setup_fcurves_keeps_and_groups_witness :
  Some "jaw"%string = bone_group (demo_jaw_path "scale")
  /\ "jaw"%string ∈ PoseFCurves.groups demo_basic_channelbag.
Proof.
  destruct (setup_fcurves_keeps_and_groups demo_env demo_pose_action (demo_lips_props false)
              true true demo_channelbag eq_refl) as (_ & _ & H & _).
  assert (Hrun : PoseFCurves.setup_fcurves demo_env demo_pose_action (demo_lips_props false)
                   true true demo_channelbag = (None, demo_basic_channelbag)).
  { vm_compute. reflexivity. }
  rewrite Hrun in H. simpl in H.
  destruct (H (demo_jaw_path "scale", 1) (Some "jaw"%string)) as [[? _] | (_ & Hg & Hin)].
  - vm_compute. reflexivity.
  - discriminate.
  - split; [exact Hg | by apply Hin].
Defined.

(** X27: a second run of [setup_fcurves] that does not clear the keyframes
    changes nothing: once it has returned, the channelbag holds every
    F-curve it would add, and the call returns again with the same
    channelbag. *)
Theorem setup_fcurves_twice (env : Env)
    (pose_action : Action -> PoseFCurves.PoseAction) (props : Props)
    (is_basic_rig use_clear_keyframes : bool) (channelbag channelbag' : PoseFCurves.Channelbag) :
  PoseFCurves.setup_fcurves env pose_action props is_basic_rig use_clear_keyframes channelbag
  = (None, channelbag') ->
  PoseFCurves.setup_fcurves env pose_action props is_basic_rig false channelbag'
  = (None, channelbag').
Proof.
  intros Hrun. destruct (obj_is_armature env) eqn:Harm.
  2: { unfold PoseFCurves.setup_fcurves in *. rewrite Harm in *. simpl in *. done. }
  destruct (setup_fcurves_run env pose_action props is_basic_rig use_clear_keyframes
              channelbag Harm) as [cache Hc].
  simpl in Hc. rewrite Hrun in Hc. simpl in Hc.
  pose proof (copy_actions_copies pose_action is_basic_rig _ _ _ _ Hc) as Hcop.
  simpl in Hcop.
  unfold PoseFCurves.setup_fcurves. rewrite Harm. simpl.
  rewrite copy_actions_skips; [done |].
  intros a Ha. apply Hcop; [| done].
  intros b Hb. by apply elem_of_empty in Hb.
Qed.

Lemma setup_fcurves_twice_witness :
  PoseFCurves.setup_fcurves demo_env demo_pose_action (demo_lips_props false) true false
    demo_basic_channelbag
  = (None, demo_basic_channelbag).
Proof.
  apply (setup_fcurves_twice demo_env demo_pose_action (demo_lips_props false) true true
           demo_channelbag).
  vm_compute. reflexivity.
Defined.

Lemma copy_fcurve_returns (is_basic_rig : bool) (fcurve : string * Z)
    (st : PoseFCurves.Channelbag * gset string) :
  (PoseFCurves.py_in "pose.bones[" fcurve.1 = true ->
   is_Some (PoseFCurves.py_split "034"%char fcurve.1 !! 1%nat)) ->
  (PoseFCurves.copy_fcurve is_basic_rig fcurve st).1 = None.
Proof.
  intros Hq. unfold PoseFCurves.copy_fcurve.
  case_bool_decide; [done |].
  destruct (is_basic_rig && PoseFCurves.not_basic fcurve.1); [done |].
  destruct (PoseFCurves.py_in "pose.bones[" fcurve.1); [| done].
  destruct (Hq eq_refl) as [bone ->]. done.
Qed.

Lemma copy_fcurves_returns (is_basic_rig : bool) (pose_fcurves : list (string * Z))
    (st : PoseFCurves.Channelbag * gset string) :
  (forall k, k ∈ pose_fcurves -> PoseFCurves.py_in "pose.bones[" k.1 = true ->
             is_Some (PoseFCurves.py_split "034"%char k.1 !! 1%nat)) ->
  (PoseFCurves.copy_fcurves is_basic_rig pose_fcurves st).1 = None.
Proof.
  revert st. induction pose_fcurves as [| f l IH]; intros st Hq; [done |].
  simpl. pose proof (copy_fcurve_returns is_basic_rig f st (Hq f ltac:(by left))) as Hf.
  destruct (PoseFCurves.copy_fcurve is_basic_rig f st) as [[e |] st1]; [discriminate |].
  apply IH. intros k Hk. apply Hq. by right.
Qed.

Lemma copy_actions_returns (pose_action : Action -> PoseFCurves.PoseAction)
    (is_basic_rig : bool) (actions : list Action) (seen_actions : gset Action)
    (st : PoseFCurves.Channelbag * gset string) :
  (forall action, action ∈ actions -> well_formed_pose pose_action action) ->
  (PoseFCurves.copy_actions pose_action is_basic_rig actions seen_actions st).1 = None.
Proof.
  revert seen_actions st. induction actions as [| a l IH]; intros seen st Hwf; [done |].
  assert (Htail : forall seen' st',
            (PoseFCurves.copy_actions pose_action is_basic_rig l seen' st').1 = None).
  { intros seen' st'. apply IH. intros b Hb. apply Hwf. by right. }
  simpl. case_bool_decide; [apply Htail |].
  destruct (Hwf a ltac:(by left)) as [Hn Hq].
  destruct (pose_action a) as [| | pf] eqn:Ha; [apply Htail | done |].
  pose proof (copy_fcurves_returns is_basic_rig pf st (fun k => Hq pf k eq_refl)) as Hf.
  destruct (PoseFCurves.copy_fcurves is_basic_rig pf st) as [[e |] st1]; [discriminate |].
  apply Htail.
Qed.

(** X28: [setup_fcurves] returns when every pose asset of a viseme has a
    channelbag for its first slot, unless it is malformed, and names its
    bones between double quotes; on an armature it raises when the pose
    asset of some viseme has slots but no channelbag for the first one.  On
    an object that is no armature it returns at once and leaves the
    channelbag alone, cleared keyframes or not. *)
Theorem setup_fcurves_returns (env : Env)
    (pose_action : Action -> PoseFCurves.PoseAction) (props : Props)
    (is_basic_rig use_clear_keyframes : bool) (channelbag : PoseFCurves.Channelbag) :
  let run := PoseFCurves.setup_fcurves env pose_action props is_basic_rig
               use_clear_keyframes channelbag in
  ((forall enum_id action,
      enum_id ∈ viseme_items_mpeg4_v2 env ->
      lip_sync_2d_viseme_pose props !! enum_id = Some action ->
      well_formed_pose pose_action action) ->
   run.1 = None)
  /\ (obj_is_armature env = true ->
      forall enum_id action,
        enum_id ∈ viseme_items_mpeg4_v2 env ->
        lip_sync_2d_viseme_pose props !! enum_id = Some action ->
        pose_action action = PoseFCurves.NoChannelbag ->
        run.1 <> None)
  /\ (obj_is_armature env = false -> run = (None, channelbag)).
Proof.
  intros run. split; [| split].
  - intros Hwf. unfold run, PoseFCurves.setup_fcurves.
    destruct (obj_is_armature env); [| done]. simpl.
    apply copy_actions_returns. intros a Ha.
    apply pose_assets_actions_values_elem in Ha as (id & Hid & Hl). by apply (Hwf id).
  - intros Harm id a Hid Hl Hno Hnone.
    destruct (setup_fcurves_run env pose_action props is_basic_rig use_clear_keyframes
                channelbag Harm) as [cache Hc].
    simpl in Hc. fold run in Hc. rewrite Hnone in Hc.
    pose proof (copy_actions_copies pose_action is_basic_rig _ _ _ _ Hc) as Hcop.
    destruct (Hcop) with (action := a) as [Hn _]; [| | done].
    + intros b Hb. by apply elem_of_empty in Hb.
    + apply pose_assets_actions_values_elem. by exists id.
  - intros Harm. unfold run, PoseFCurves.setup_fcurves. by rewrite Harm.
Qed.

Lemma setup_fcurves_returns_witness :
  (PoseFCurves.setup_fcurves demo_env demo_pose_action (demo_lips_props false) true true
     demo_channelbag).1 = None
  /\ (PoseFCurves.setup_fcurves demo_env (fun _ => PoseFCurves.NoChannelbag)
        (demo_lips_props false) true true demo_channelbag).1 <> None.
Proof.
  split.
  - apply (setup_fcurves_returns demo_env demo_pose_action (demo_lips_props false) true true
             demo_channelbag).
    intros id a _ _. split.
    + unfold demo_pose_action. by repeat case_bool_decide.
    + intros pf k Hp Hk _. unfold demo_pose_action in Hp.
      repeat case_bool_decide; try discriminate; injection Hp as <-;
        repeat (apply elem_of_cons in Hk as [-> | Hk]; [by eexists |]);
        by apply elem_of_nil in Hk.
  - apply (setup_fcurves_returns demo_env (fun _ => PoseFCurves.NoChannelbag)
             (demo_lips_props false) true true demo_channelbag)
      with (enum_id := "PP"%string) (action := "Closed"%string).
    + reflexivity.
    + vm_compute. right. left.
    + reflexivity.
    + reflexivity.
Defined.
